(** * Verification of the fraud-dataset pipeline

    A shallow embedding of the graph-dataset builder
    (dataset/final/GNN/build_unified_dataset.py), the feature roll-up
    (dataset/final/LSTM/build_unified_dataset.py), the checksum tool
    (dataset/final/make_checksums.py) and the merge of the raw files
    (dataset/final/GNN/merge_parquet_gz.py), followed by the properties
    of the specification that were checked against them and by further
    properties of the code.

    Tables are lists of rows: the sources leave the order of the rows a
    query returns to the engine, the model fixes one, and the properties
    below do not depend on it.  The file system is a record of the files
    the scripts name, and a stage is a state-passing function that may
    raise. *)

From Stdlib Require Import ZArith List String Ascii Lia Bool Sorted.
From stdpp Require Import gmap strings list.

Local Open Scope Z_scope.

(** ** Calendar functions of the query engine

    [from_epoch], [dt.strftime] and the casts to [Date] are functions of the
    dataframe library; they are modelled from their documented behaviour
    (proleptic Gregorian calendar, UTC, ISO 8601 week dates). *)
Module Calendar.

Definition is_leap (y : Z) : bool :=
  (y mod 4 =? 0) && (negb (y mod 100 =? 0) || (y mod 400 =? 0)).

Definition year_len (y : Z) : Z := if is_leap y then 366 else 365.

Definition month_len (y m : Z) : Z :=
  if m =? 2 then (if is_leap y then 29 else 28)
  else if (m =? 4) || (m =? 6) || (m =? 9) || (m =? 11) then 30
  else 31.

(** Days between 0000-01-01 and the first of January of year [y]. *)
Definition days_before_year (y : Z) : Z :=
  365 * y + (y + 3) / 4 - (y + 99) / 100 + (y + 399) / 400.

(** Days of year [y] before the first of month [m]. *)
Definition days_before_month (y m : Z) : Z :=
  (if 1 <? m then 31 else 0) + (if 2 <? m then month_len y 2 else 0)
  + (if 3 <? m then 31 else 0) + (if 4 <? m then 30 else 0)
  + (if 5 <? m then 31 else 0) + (if 6 <? m then 30 else 0)
  + (if 7 <? m then 31 else 0) + (if 8 <? m then 31 else 0)
  + (if 9 <? m then 30 else 0) + (if 10 <? m then 31 else 0)
  + (if 11 <? m then 30 else 0) + (if 12 <? m then 31 else 0).

(** 1970-01-01 counted from 0000-01-01, and the length of the 400-year
    cycle. *)
Definition epoch_shift : Z := 719528.
Definition era_days : Z := 146097.

(** First day (counted from 1970-01-01) of month [m] of year [y]. *)
Definition month_start (y m : Z) : Z :=
  days_before_year y + days_before_month y m - epoch_shift.

(** Walk whole years off a day offset [r] counted from the first day of
    year [y]. *)
Fixpoint year_walk (fuel : nat) (y r : Z) : Z * Z :=
  match fuel with
  | O => (y, r)
  | S f => if r <? year_len y then (y, r)
           else year_walk f (y + 1) (r - year_len y)
  end.

(** Walk whole months off a day-of-year offset. *)
Fixpoint month_walk (fuel : nat) (y m r : Z) : Z * Z :=
  match fuel with
  | O => (m, r)
  | S f => if r <? month_len y m then (m, r)
           else month_walk f y (m + 1) (r - month_len y m)
  end.

(** Year and zero-based day of the year of a day counted from
    1970-01-01. *)
Definition year_yday (d : Z) : Z * Z :=
  let z := d + epoch_shift in
  year_walk 399 (400 * (z / era_days)) (z mod era_days).

Definition year_of (d : Z) : Z := fst (year_yday d).
Definition yday_of (d : Z) : Z := snd (year_yday d).
Definition month_of (d : Z) : Z :=
  fst (month_walk 11 (year_of d) 1 (yday_of d)).
Definition mday_of (d : Z) : Z :=
  snd (month_walk 11 (year_of d) 1 (yday_of d)) + 1.

(** ISO 8601: Monday is 1; 1970-01-01 was a Thursday.  The week-based
    year and week number of a day are the calendar year of the Thursday
    of its week and that Thursday's week of the year. *)
Definition iso_weekday (d : Z) : Z := (d + 3) mod 7 + 1.
Definition iso_thursday (d : Z) : Z := d - (d + 3) mod 7 + 3.
Definition iso_year (d : Z) : Z := year_of (iso_thursday d).
Definition iso_week (d : Z) : Z := yday_of (iso_thursday d) / 7 + 1.

(** Decimal rendering. *)
Definition digit (d : Z) : ascii := ascii_of_N (48 + Z.to_N d).

Fixpoint digits_le (n : nat) (v : Z) (acc : string) : string :=
  match n with
  | O => acc
  | S k => digits_le k (v / 10) (String (digit (v mod 10)) acc)
  end.

(** [pad n v]: the last [n] decimal digits of [v], zero padded. *)
Definition pad (n : nat) (v : Z) : string := digits_le n v EmptyString.

(** Without leading zeros, keeping the last digit. *)
Fixpoint strip_zeros (s : string) : string :=
  match s with
  | String c (String _ _ as rest) =>
      if Ascii.eqb c "0" then strip_zeros rest else s
  | _ => s
  end.

(** The decimal digits of a natural number below 10^40. *)
Definition decimal (v : Z) : string := strip_zeros (pad 40 v).

(** [%Y] and [%G]: four digits, zero padded; a year outside 0..9999 is
    written with its sign. *)
Definition fmt_year (y : Z) : string :=
  if (0 <=? y) && (y <=? 9999) then pad 4 y
  else if y <? 0 then String "-" (pad 4 (- y))
  else String "+" (decimal y).

(** [strftime("%Y-%m")] and [strftime("%G-W%V")] of a date. *)
Definition strftime_Y_m (d : Z) : string :=
  fmt_year (year_of d) +:+ "-" +:+ pad 2 (month_of d).

Definition strftime_G_W_V (d : Z) : string :=
  fmt_year (iso_year d) +:+ "-W" +:+ pad 2 (iso_week d).

(** A [Datetime] is a count of microseconds since the epoch held in a
    signed 64-bit integer; a [Date] is a count of days. *)
Definition wrap64 (z : Z) : Z := (z + 2 ^ 63) mod 2 ^ 64 - 2 ^ 63.

Definition from_epoch_s (ts : Z) : Z := wrap64 (ts * 1000000).
Definition date_of_datetime (us : Z) : Z := us / 86400000000.
Definition epoch_s (us : Z) : Z := us / 1000000.

(** Timestamps below this bound (9999-01-01T00:00:00Z) convert without
    wrap-around and have four-digit years and week-based years. *)
Definition ts_limit : Z := 253370764800.

End Calendar.

(** ** Stages: state passing with exceptions

    A stage reads and writes files and may raise; what it wrote before it
    raised stays written. *)
Inductive exn : Type :=
| FileNotFoundError (path : string)
| DuplicateError (column : string).

Inductive outcome (A : Type) : Type :=
| Returned (a : A)
| Raised (e : exn).
Arguments Returned {A} a.
Arguments Raised {A} e.

Definition Run (S A : Type) : Type := S -> outcome A * S.

Definition ret {S A} (a : A) : Run S A := fun s => (Returned a, s).
Definition raise {S A} (e : exn) : Run S A := fun s => (Raised e, s).
Definition bind {S A B} (m : Run S A) (k : A -> Run S B) : Run S B :=
  fun s => match m s with
           | (Returned a, s') => k a s'
           | (Raised e, s') => (Raised e, s')
           end.
Definition gets {S A} (f : S -> A) : Run S A := fun s => (Returned (f s), s).
Definition modify {S} (f : S -> S) : Run S unit := fun s => (Returned tt, f s).

Notation "x <~ m ;; k" := (bind m (fun x => k))
  (at level 100, m at next level, right associativity).
Notation "m ;;; k" := (bind m (fun _ => k))
  (at level 100, right associativity).

(** [read p path]: the content of a file, [FileNotFoundError] when it is
    absent. *)
Definition read {S A} (field : S -> option A) (path : string) : Run S A :=
  fun s => match field s with
           | Some a => (Returned a, s)
           | None => (Raised (FileNotFoundError path), s)
           end.

(** ** Table operations of the query engine *)

(** [sort(key)]: ascending by a string column (byte order). *)
Fixpoint insert_by {A} (key : A -> string) (x : A) (l : list A) : list A :=
  match l with
  | [] => [x]
  | y :: l' => if String.leb (key x) (key y) then x :: l
               else y :: insert_by key x l'
  end.

Definition sort_by {A} (key : A -> string) (l : list A) : list A :=
  foldr (insert_by key) [] l.

Definition key_le {A} (key : A -> string) (x y : A) : Prop :=
  String.leb (key x) (key y) = true.

(** [min()] and [max()] of a column of a group, which is never empty. *)
Definition column_min (l : list Z) : Z :=
  match l with [] => 0 | x :: l' => foldr Z.min x l' end.
Definition column_max (l : list Z) : Z :=
  match l with [] => 0 | x :: l' => foldr Z.max x l' end.

(** [str.to_lowercase()], on the ASCII letters an address is made of. *)
Definition lower_ascii (c : ascii) : ascii :=
  let n := N_of_ascii c in
  if ((65 <=? n) && (n <=? 90))%N then ascii_of_N (n + 32) else c.

Fixpoint to_lowercase (s : string) : string :=
  match s with
  | EmptyString => EmptyString
  | String c s' => String (lower_ascii c) (to_lowercase s')
  end.

(** ** The graph dataset: GNN/build_unified_dataset.py *)
Module GNN.

Definition ROW_GROUP : Z := 256000.

(** Paths, relative to BASE. *)
Definition SRC_TX_DIR : string := "GNN/parquet".
Definition LABELS_CSV : string := "addr_labels_balanced.csv".
Definition DS_ROOT : string := "gnn_dataset".
Definition EDGES_ALL_FP : string := "gnn_dataset/edges_all/edges.parquet".
Definition MONTH_DIR : string := "gnn_dataset/edges_by_month".
Definition WEEK_DIR : string := "gnn_dataset/edges_by_week".
Definition META_DIR : string := "gnn_dataset/meta".
Definition LABELS_DIR : string := "gnn_dataset/labels".
Definition MAP_DIR : string := "gnn_dataset/mapping".
Definition TARGETS_DIR : string := "gnn_dataset/targets".

Record Seeds : Type := { seed : Z; seed_1 : Z; seed_2 : Z; seed_3 : Z }.

Definition HASH_SEEDS : Seeds :=
  {| seed := 20250823; seed_1 := 17; seed_2 := 31; seed_3 := 73 |}.

(** A raw transaction as the source files hold it. *)
Record RawTx : Type := {
  from_address : option string;
  to_address : option string;
  timestamp : Z;                (* Datetime, microseconds *)
  value_wei : string;
  tx_fee_wei : string;
  block_number : Z;
  contract_creation : bool;
  tx_hash : string }.

(** A row of edges_all/edges.parquet and of the partition files. *)
Record Edge : Type := {
  src_id : Z;
  dst_id : Z;
  ts : Z;
  e_value_wei : string;
  e_tx_fee_wei : string;
  e_block_number : Z;
  e_contract_creation : bool;
  e_tx_hash : string }.

(** A row of the labels CSV and of labels/targets_global.parquet. *)
Record CsvLabel : Type := {
  address : string;
  is_scam : Z;
  is_contract : option Z }.

Record LabelRow : Type := {
  node_id : Z;
  l_is_scam : Z;
  l_is_contract : option Z;
  l_address : string }.

(** A row of a window index; [more] holds the columns added after
    [edges_cnt], named by [more_columns] of the table. *)
Record WindowRow : Type := {
  window : string;
  window_min_ts : Z;
  window_end_ts : Z;
  edges_cnt : Z;
  more : list (option Z) }.

Record MetaTable : Type := {
  more_columns : list string;
  rows : list WindowRow }.

Inductive Freq : Type := Month | Week.

Definition freq_name (f : Freq) : string :=
  match f with Month => "month" | Week => "week" end.

Definition columns (f : Freq) (t : MetaTable) : list string :=
  [freq_name f; "window_min_ts"; "window_end_ts"; "edges_cnt"]
    ++ more_columns t.

(** The files and directories under BASE the script names.  A partition
    file [edges_by_month/month=L/edges.parquet] is the entry [L] of
    [edges_by_month]. *)
Record FS : Type := {
  src_tx : list (list RawTx);      (* the parquet files of GNN/parquet *)
  labels_csv : option (list CsvLabel);
  edges_all : option (list Edge);
  month_meta : option MetaTable;
  week_meta : option MetaTable;
  targets_global : option (list LabelRow);
  address_id_map : option (list (string * Z));
  month_targets : option (list (string * Z));
  week_targets : option (list (string * Z));
  edges_by_month : gmap string (list Edge);
  edges_by_week : gmap string (list Edge);
  dirs : gset string }.

Definition meta_fp (f : Freq) : string :=
  match f with
  | Month => "gnn_dataset/meta/month_window_meta.parquet"
  | Week => "gnn_dataset/meta/week_window_meta.parquet"
  end.

Definition targets_fp (f : Freq) : string :=
  match f with
  | Month => "gnn_dataset/targets/month_targets.parquet"
  | Week => "gnn_dataset/targets/week_targets.parquet"
  end.

Definition meta_of (f : Freq) (fs : FS) : option MetaTable :=
  match f with Month => month_meta fs | Week => week_meta fs end.

Definition targets_of (f : Freq) (fs : FS) : option (list (string * Z)) :=
  match f with Month => month_targets fs | Week => week_targets fs end.

Definition parts_of (f : Freq) (fs : FS) : gmap string (list Edge) :=
  match f with Month => edges_by_month fs | Week => edges_by_week fs end.

Definition write_edges_all (v : list Edge) (fs : FS) : FS :=
  {| src_tx := src_tx fs; labels_csv := labels_csv fs;
     edges_all := Some v;
     month_meta := month_meta fs; week_meta := week_meta fs;
     targets_global := targets_global fs;
     address_id_map := address_id_map fs;
     month_targets := month_targets fs; week_targets := week_targets fs;
     edges_by_month := edges_by_month fs;
     edges_by_week := edges_by_week fs; dirs := dirs fs |}.

Definition write_labels (t : list LabelRow) (m : list (string * Z))
    (fs : FS) : FS :=
  {| src_tx := src_tx fs; labels_csv := labels_csv fs;
     edges_all := edges_all fs;
     month_meta := month_meta fs; week_meta := week_meta fs;
     targets_global := Some t;
     address_id_map := Some m;
     month_targets := month_targets fs; week_targets := week_targets fs;
     edges_by_month := edges_by_month fs;
     edges_by_week := edges_by_week fs; dirs := dirs fs |}.

Definition write_meta (f : Freq) (t : MetaTable) (fs : FS) : FS :=
  {| src_tx := src_tx fs; labels_csv := labels_csv fs;
     edges_all := edges_all fs;
     month_meta := match f with Month => Some t | Week => month_meta fs end;
     week_meta := match f with Week => Some t | Month => week_meta fs end;
     targets_global := targets_global fs;
     address_id_map := address_id_map fs;
     month_targets := month_targets fs; week_targets := week_targets fs;
     edges_by_month := edges_by_month fs;
     edges_by_week := edges_by_week fs; dirs := dirs fs |}.

Definition write_targets (f : Freq) (t : list (string * Z)) (fs : FS) : FS :=
  {| src_tx := src_tx fs; labels_csv := labels_csv fs;
     edges_all := edges_all fs;
     month_meta := month_meta fs; week_meta := week_meta fs;
     targets_global := targets_global fs;
     address_id_map := address_id_map fs;
     month_targets :=
       match f with Month => Some t | Week => month_targets fs end;
     week_targets :=
       match f with Week => Some t | Month => week_targets fs end;
     edges_by_month := edges_by_month fs;
     edges_by_week := edges_by_week fs; dirs := dirs fs |}.

Definition write_part (f : Freq) (label : string) (t : list Edge)
    (fs : FS) : FS :=
  {| src_tx := src_tx fs; labels_csv := labels_csv fs;
     edges_all := edges_all fs;
     month_meta := month_meta fs; week_meta := week_meta fs;
     targets_global := targets_global fs;
     address_id_map := address_id_map fs;
     month_targets := month_targets fs; week_targets := week_targets fs;
     edges_by_month :=
       match f with
       | Month => <[label := t]> (edges_by_month fs)
       | Week => edges_by_month fs
       end;
     edges_by_week :=
       match f with
       | Week => <[label := t]> (edges_by_week fs)
       | Month => edges_by_week fs
       end;
     dirs := dirs fs |}.

(** [p.mkdir(parents=True, exist_ok=True)]; the parents are the dataset
    directories made when the script is loaded. *)
Definition mkdir (p : string) (fs : FS) : FS :=
  {| src_tx := src_tx fs; labels_csv := labels_csv fs;
     edges_all := edges_all fs;
     month_meta := month_meta fs; week_meta := week_meta fs;
     targets_global := targets_global fs;
     address_id_map := address_id_map fs;
     month_targets := month_targets fs; week_targets := week_targets fs;
     edges_by_month := edges_by_month fs;
     edges_by_week := edges_by_week fs; dirs := {[ p ]} ∪ dirs fs |}.

(** The loop over the output directories at the top of the script. *)
Definition make_dirs (fs : FS) : FS :=
  foldr mkdir fs
    ["gnn_dataset/edges_all"; MONTH_DIR; WEEK_DIR; META_DIR; LABELS_DIR;
     MAP_DIR; TARGETS_DIR].

(** *** 1) labels and mapping; 2) edges_all

    [Expr.hash] is a function of the query engine: it is a parameter of
    the model, a function of the seeds and of the (possibly null)
    string. *)
Section WithHash.
Variable hash : Seeds -> option string -> Z.

(** [hash] with the seeds [HASH_SEEDS], cast to [UInt64], of a
    lowercased column; a hash is a 64-bit unsigned value. *)
Definition assign_lc (key_lc : option string) : Z :=
  hash HASH_SEEDS key_lc mod 2 ^ 64.

(** The identity of an address: lowercase, then hash. *)
Definition assign (key : string) : Z :=
  assign_lc (Some (to_lowercase key)).

(** [unique(subset=["node_id"])]: one row for each node id. *)
Fixpoint unique_by_node (l : list LabelRow) : list LabelRow :=
  match l with
  | [] => []
  | r :: l' =>
      r :: filter (fun r' => node_id r' <> node_id r) (unique_by_node l')
  end.

Definition label_of_csv (r : CsvLabel) : LabelRow :=
  let address_lc := to_lowercase (address r) in
  {| node_id := assign_lc (Some address_lc);
     l_is_scam := is_scam r;
     l_is_contract := is_contract r;
     l_address := address r |}.

Definition build_labels_and_mapping : Run FS unit :=
  lab <~ read labels_csv LABELS_CSV ;;
  let labels := unique_by_node (map label_of_csv lab) in
  modify (write_labels labels
            (map (fun r => (l_address r, node_id r)) labels)).

Definition edge_of_raw (t : RawTx) : Edge :=
  let from_lc := to_lowercase <$> from_address t in
  let to_lc := to_lowercase <$> to_address t in
  {| src_id := assign_lc from_lc;
     dst_id := assign_lc to_lc;
     ts := Calendar.epoch_s (timestamp t);
     e_value_wei := value_wei t;
     e_tx_fee_wei := tx_fee_wei t;
     e_block_number := block_number t;
     e_contract_creation := contract_creation t;
     e_tx_hash := tx_hash t |}.

Definition build_edges_all : Run FS unit :=
  files <~ gets src_tx ;;
  match files with
  | [] => raise (FileNotFoundError SRC_TX_DIR)
  | _ => modify (write_edges_all (map edge_of_raw (concat files)))
  end.
End WithHash.

(** *** 3) the window index *)

Definition month_of_ts (t : Z) : string :=
  Calendar.strftime_Y_m (Calendar.date_of_datetime (Calendar.from_epoch_s t)).

Definition week_of_ts (t : Z) : string :=
  Calendar.strftime_G_W_V
    (Calendar.date_of_datetime (Calendar.from_epoch_s t)).

Definition label_of_ts (f : Freq) : Z -> string :=
  match f with Month => month_of_ts | Week => week_of_ts end.

(** [group_by(label).agg(min, max, len).sort(label)]. *)
Definition window_row (label : Z -> string) (edges : list Edge)
    (l : string) : WindowRow :=
  let g := map ts (filter (fun e => label (ts e) = l) edges) in
  {| window := l;
     window_min_ts := column_min g;
     window_end_ts := column_max g;
     edges_cnt := Z.of_nat (length g);
     more := [] |}.

Definition window_index (f : Freq) (edges : list Edge) : list WindowRow :=
  sort_by window
    (map (window_row (label_of_ts f) edges)
       (remove_dups (map (fun e => label_of_ts f (ts e)) edges))).

Definition build_window_index : Run FS unit :=
  edges <~ read edges_all EDGES_ALL_FP ;;
  let month_idx := window_index Month edges in
  let week_idx := window_index Week edges in
  modify (write_meta Month {| more_columns := []; rows := month_idx |}) ;;;
  modify (write_meta Week {| more_columns := []; rows := week_idx |}).

(** *** 4) node counts and targets, window by window *)

Definition in_window (ts_min ts_max : Z) (e : Edge) : Prop :=
  ts_min <= ts e /\ ts e <= ts_max.

Global Instance in_window_dec lo hi e : Decision (in_window lo hi e).
Proof. unfold in_window. apply _. Defined.

(** The distinct node ids that are source or destination of an edge of
    the window. *)
Definition nodes_win (edges : list Edge) (ts_min ts_max : Z) : list Z :=
  let win := filter (in_window ts_min ts_max) edges in
  remove_dups (map src_id win ++ map dst_id win).

(** The inner join of the window's nodes with the labelled ids, under the
    window's label. *)
Definition targets_win (tg_ids : list Z) (edges : list Edge)
    (row : WindowRow) : list (string * Z) :=
  map (fun n => (window row, n))
    (filter (fun n => n ∈ tg_ids)
       (nodes_win edges (window_min_ts row) (window_end_ts row))).

Definition chunk_size : nat := 50.

(** A flush: write the chunks when there is no targets file, otherwise
    read the file and write it back followed by the chunks. *)
Definition flush (f : Freq) (targets_chunks : list (list (string * Z)))
    : Run FS unit :=
  let df := concat targets_chunks in
  old <~ gets (targets_of f) ;;
  match old with
  | None => modify (write_targets f df)
  | Some old => modify (write_targets f (old ++ df))
  end.

Fixpoint windows_loop (f : Freq) (tg_ids : list Z) (meta : list WindowRow)
    (nodes_cnt_list : list (string * Z))
    (targets_chunks : list (list (string * Z)))
    : Run FS (list (string * Z) * list (list (string * Z))) :=
  match meta with
  | [] => ret (nodes_cnt_list, targets_chunks)
  | row :: meta' =>
      edges <~ read edges_all EDGES_ALL_FP ;;
      let nodes :=
        nodes_win edges (window_min_ts row) (window_end_ts row) in
      let nodes_cnt_list :=
        nodes_cnt_list ++ [(window row, Z.of_nat (length nodes))] in
      let targets := targets_win tg_ids edges row in
      let targets_chunks :=
        match targets with
        | [] => targets_chunks
        | _ => targets_chunks ++ [targets]
        end in
      targets_chunks <~
        (if (chunk_size <=? length targets_chunks)%nat
         then flush f targets_chunks ;;; ret []
         else ret targets_chunks) ;;
      windows_loop f tg_ids meta' nodes_cnt_list targets_chunks
  end.

(** [meta.join(add, on=freq, how="left")]: the joined column takes the
    name [nodes_cnt], or [nodes_cnt_right] when the table already has a
    column of that name; a name that is taken as well is an error. *)
Definition with_cell (r : WindowRow) (c : option Z) : WindowRow :=
  {| window := window r; window_min_ts := window_min_ts r;
     window_end_ts := window_end_ts r; edges_cnt := edges_cnt r;
     more := more r ++ [c] |}.

Definition join_row (add : list (string * Z)) (r : WindowRow)
    : list WindowRow :=
  match filter (fun a => a.1 = window r) add with
  | [] => [with_cell r None]
  | ms => map (fun a => with_cell r (Some a.2)) ms
  end.

Definition join_nodes_cnt (f : Freq) (meta : MetaTable)
    (add : list (string * Z)) : outcome MetaTable :=
  let name :=
    if bool_decide ("nodes_cnt" ∈ columns f meta)
    then "nodes_cnt_right" else "nodes_cnt" in
  if bool_decide (name ∈ columns f meta) then Raised (DuplicateError name)
  else Returned {| more_columns := more_columns meta ++ [name];
                   rows := flat_map (join_row add) (rows meta) |}.

Definition process_freq (f : Freq) (tg_ids : list Z) : Run FS unit :=
  meta_file <~ read (meta_of f) (meta_fp f) ;;
  let meta := {| more_columns := more_columns meta_file;
                 rows := sort_by window (rows meta_file) |} in
  acc <~ windows_loop f tg_ids (rows meta) [] [] ;;
  let '(nodes_cnt_list, targets_chunks) := acc in
  (match targets_chunks with
   | [] => ret tt
   | _ => flush f targets_chunks
   end) ;;;
  match nodes_cnt_list with
  | [] => ret tt
  | _ =>
      match join_nodes_cnt f meta nodes_cnt_list with
      | Raised e => raise e
      | Returned meta_new => modify (write_meta f meta_new)
      end
  end.

Definition enrich_meta_and_build_targets : Run FS unit :=
  tg <~ read targets_global "gnn_dataset/labels/targets_global.parquet" ;;
  let tg_ids := remove_dups (map node_id tg) in
  process_freq Month tg_ids ;;;
  process_freq Week tg_ids.

(** *** 5) one partition file per window *)

Definition part_dir (f : Freq) (label : string) : string :=
  match f with
  | Month => MONTH_DIR +:+ "/month=" +:+ label
  | Week => WEEK_DIR +:+ "/week=" +:+ label
  end.

Fixpoint export_loop (f : Freq) (meta : list WindowRow) : Run FS unit :=
  match meta with
  | [] => ret tt
  | row :: meta' =>
      modify (mkdir (part_dir f (window row))) ;;;
      present <~ gets (fun fs => parts_of f fs !! window row) ;;
      match present with
      | Some _ => export_loop f meta'
      | None =>
          edges <~ read edges_all EDGES_ALL_FP ;;
          let df :=
            filter (in_window (window_min_ts row) (window_end_ts row))
              edges in
          modify (write_part f (window row) df) ;;;
          export_loop f meta'
      end
  end.

Definition export_freq (f : Freq) : Run FS unit :=
  meta <~ read (meta_of f) (meta_fp f) ;;
  export_loop f (sort_by window (rows meta)).

Definition export_windows : Run FS unit :=
  export_freq Month ;;; export_freq Week.

(** *** Quantities the properties below are stated with *)

(** The rows of a table file; a missing file has none. *)
Definition table {A} (file : option (list A)) : list A := default [] file.

(** What one window adds to the node counts. *)
Definition nodes_cnt_row (edges : list Edge) (row : WindowRow)
    : string * Z :=
  (window row,
   Z.of_nat
     (length (nodes_win edges (window_min_ts row) (window_end_ts row)))).

(** What one run adds to a targets file: the targets of every window, in
    the order of the sorted index. *)
Definition targets_batch (tg_ids : list Z) (edges : list Edge)
    (meta : list WindowRow) : list (string * Z) :=
  concat (map (targets_win tg_ids edges) (sort_by window meta)).

(** [fs'] differs from [fs] at most in the targets file of [f]. *)
Definition targets_only (f : Freq) (fs fs' : FS) : Prop :=
  fs' = fs \/ exists t, fs' = write_targets f t fs.

(** The participants of a window: the ends of the edges whose timestamp
    is within its bounds. *)
Definition participant (edges : list Edge) (row : WindowRow) (n : Z)
    : Prop :=
  exists e, e ∈ edges
    /\ window_min_ts row <= ts e <= window_end_ts row
    /\ (src_id e = n \/ dst_id e = n).

Definition labelled (tg : list LabelRow) (n : Z) : Prop :=
  exists r, r ∈ tg /\ node_id r = n.

(** A window row with the count of its own window joined to it. *)
Definition counted (edges : list Edge) (r : WindowRow) : WindowRow :=
  with_cell r (Some (nodes_cnt_row edges r).2).

(** An index that the join accepts: it was joined at most once before,
    and its labels are distinct. *)
Definition joinable (mt : MetaTable) : Prop :=
  (more_columns mt = [] \/ more_columns mt = ["nodes_cnt"])
  /\ NoDup (map window (rows mt)).

(** [fs'] has every file of [fs] with the same content, and possibly
    more partition files and directories. *)
Definition extends (fs fs' : FS) : Prop :=
  src_tx fs' = src_tx fs /\ labels_csv fs' = labels_csv fs
  /\ edges_all fs' = edges_all fs
  /\ month_meta fs' = month_meta fs /\ week_meta fs' = week_meta fs
  /\ targets_global fs' = targets_global fs
  /\ address_id_map fs' = address_id_map fs
  /\ month_targets fs' = month_targets fs
  /\ week_targets fs' = week_targets fs
  /\ edges_by_month fs ⊆ edges_by_month fs'
  /\ edges_by_week fs ⊆ edges_by_week fs'
  /\ dirs fs ⊆ dirs fs'.

(** Every window of [meta] has its partition file and directory. *)
Definition exported (f : Freq) (meta : list WindowRow) (fs : FS) : Prop :=
  forall row, row ∈ meta ->
    is_Some (parts_of f fs !! window row)
    /\ part_dir f (window row) ∈ dirs fs.

(** Every timestamp of the table is of the years 1970..9998. *)
Definition in_range (edges : list Edge) : Prop :=
  forall e, e ∈ edges -> 0 <= ts e < Calendar.ts_limit.

(** The columns of a window row that the index is built with. *)
Definition core (r : WindowRow) : string * Z * Z * Z :=
  (window r, window_min_ts r, window_end_ts r, edges_cnt r).

End GNN.

(** ** Decimal text and [Decimal(38, 9)]

    The casts between text and the fixed-point decimal type are functions
    of the query engine, modelled from their documented behaviour: a
    decimal is a signed integer count of units of 10^-9 with at most 38
    digits; a text that is not a decimal number, or has too many digits,
    casts to null when the cast is not strict; fractional digits beyond the
    ninth are dropped; the text of a decimal has all nine fractional
    digits. *)
Module Dec.

Definition scale : nat := 9.
Definition unit : Z := 10 ^ 9.
Definition limit : Z := 10 ^ 38.

Definition is_digit (c : ascii) : bool :=
  let n := N_of_ascii c in ((48 <=? n) && (n <=? 57))%N.

Definition digit_value (c : ascii) : Z := Z.of_N (N_of_ascii c) - 48.

(** The value of a string of digits read after the digits [acc]. *)
Fixpoint parse_digits (s : string) (acc : Z) : option Z :=
  match s with
  | EmptyString => Some acc
  | String c s' =>
      if is_digit c then parse_digits s' (10 * acc + digit_value c)
      else None
  end.

Fixpoint all_digits (s : string) : bool :=
  match s with
  | EmptyString => true
  | String c s' => is_digit c && all_digits s'
  end.

(** Split at the first point. *)
Fixpoint split_point (s : string) : string * option string :=
  match s with
  | EmptyString => (EmptyString, None)
  | String c s' =>
      if Ascii.eqb c "."%char then (EmptyString, Some s')
      else let '(a, b) := split_point s' in (String c a, b)
  end.

(** The first [n] characters, padded on the right with zeros. *)
Fixpoint take_pad (n : nat) (s : string) : string :=
  match n with
  | O => EmptyString
  | S k => match s with
           | EmptyString => String "0"%char (take_pad k EmptyString)
           | String c s' => String c (take_pad k s')
           end
  end.

Definition parse_unsigned (s : string) : option Z :=
  let '(int_part, frac_part) := split_point s in
  match int_part with
  | EmptyString => None
  | _ =>
      match parse_digits int_part 0,
            parse_digits (default EmptyString frac_part) 0 with
      | Some i, Some _ =>
          match parse_digits (take_pad scale (default EmptyString frac_part)) 0
          with
          | Some f => Some (i * unit + f)
          | None => None
          end
      | _, _ => None
      end
  end.

(** [cast(pl.Decimal(38, 9), strict=False)] of a text. *)
Definition of_text (s : string) : option Z :=
  let signed :=
    match s with
    | String c s' =>
        if Ascii.eqb c "-" then option_map Z.opp (parse_unsigned s')
        else if Ascii.eqb c "+" then parse_unsigned s'
        else parse_unsigned s
    | EmptyString => None
    end in
  match signed with
  | Some v => if Z.abs v <? limit then Some v else None
  | None => None
  end.

(** [cast(pl.Utf8)] of a decimal. *)
Definition to_text (v : Z) : string :=
  (if v <? 0 then "-" else EmptyString)
    +:+ Calendar.decimal (Z.abs v / unit) +:+ "."
    +:+ Calendar.pad scale (Z.abs v mod unit).

(** The sum of a decimal column is taken in 128-bit integers. *)
Definition wrap128 (z : Z) : Z := (z + 2 ^ 127) mod 2 ^ 128 - 2 ^ 127.

Definition sum (l : list Z) : Z := wrap128 (foldr Z.add 0 l).

(** [cast(pl.Int64, strict=False)] of a text: an optional sign and
    digits, within 64 bits. *)
Definition int_of_text (s : string) : option Z :=
  let signed :=
    match s with
    | String c (String _ _ as s') =>
        if Ascii.eqb c "-" then option_map Z.opp (parse_digits s' 0)
        else if Ascii.eqb c "+" then parse_digits s' 0
        else parse_digits s 0
    | String _ EmptyString => parse_digits s 0
    | EmptyString => None
    end in
  match signed with
  | Some v => if (- 2 ^ 63 <=? v) && (v <? 2 ^ 63) then Some v else None
  | None => None
  end.

End Dec.

(** ** The feature roll-up: LSTM/build_unified_dataset.py *)
Module LSTM.

Definition ROW_GROUP : Z := 128000.

Definition SRC_LSTM_DAILY : string := "LSTM/parquet".
Definition OUT_DIR : string := "lstm_dataset".
Definition TMP_WEEK_DIR : string := "lstm_dataset/_tmp_week_parts".
Definition TMP_MONTH_DIR : string := "lstm_dataset/_tmp_month_parts".
Definition LABELS_FP : string := "gnn_dataset/labels/targets_global.parquet".
Definition MAP_FP : string :=
  "gnn_dataset/mapping/address_id_map_labels.parquet".
Definition WEEK_META : string := "gnn_dataset/meta/week_window_meta.parquet".
Definition MONTH_META : string :=
  "gnn_dataset/meta/month_window_meta.parquet".

Definition ETH_NUMS : list string :=
  ["eth_sent_sum"; "eth_recv_sum"; "eth_net_flow";
   "tx_fee_eth_sum"; "internal_out_value_eth_sum";
   "internal_in_value_eth_sum"].

Definition INT_COUNTS : list string :=
  ["normal_sent_cnt"; "normal_recv_cnt"; "normal_total_cnt";
   "normal_failed_cnt"; "normal_to_contract_cnt"; "normal_to_eoa_cnt";
   "gas_used_sum";
   "erc20_sent_cnt"; "erc20_recv_cnt"; "erc20_total_cnt";
   "erc20_unique_tokens_sent"; "erc20_unique_tokens_recv";
   "internal_out_cnt"; "internal_in_cnt";
   "uniq_peers_cnt"; "uniq_contract_peers_cnt"; "uniq_eoa_peers_cnt";
   "sessions_cnt";
   "active_span_min";
   "burst_max_tx_5m"].

Definition MAX_ONLY : list string := ["burst_max_tx_5m"].

Definition SUM_ONLY : list string :=
  filter (fun c => c ∉ MAX_ONLY) INT_COUNTS ++ ETH_NUMS.

(** A value of a feature column. *)
Inductive cell : Type :=
| CInt (z : Z)
| CText (s : string)
| CNull.

(** The features of a row, by column name.  The sources are taken to have
    every feature column; a column a row does not list reads as null. *)
Definition get (c : string) (feats : list (string * cell)) : cell :=
  match filter (fun p => p.1 = c) feats with
  | (_, v) :: _ => v
  | [] => CNull
  end.

Record DailyRow : Type := {
  d_address : string;
  d_day : Z;                               (* a date: days since 1970-01-01 *)
  d_feats : list (string * cell) }.

Record FilteredRow : Type := {
  f_node_id : Z;
  f_address : string;
  f_day : Z;
  f_week : string;
  f_month : string;
  f_feats : list (string * cell) }.

(** A row of a weekly or monthly table: node, window label, features. *)
Record RollupRow : Type := {
  r_node_id : Z;
  r_window : string;
  r_feats : list (string * cell) }.

(** The outputs of the script, under [lstm_dataset], and its daily
    sources.  A part file [_tmp_week_parts/week=L.parquet] is the entry
    [L] of [tmp_week_parts]. *)
Record FS : Type := {
  src_daily : list (list DailyRow);   (* the parquet files of LSTM/parquet *)
  daily_out : option (list FilteredRow);
  tmp_week_parts : gmap string (list RollupRow);
  weekly_out : option (list RollupRow);
  tmp_month_parts : gmap string (list RollupRow);
  monthly_out : option (list RollupRow);
  readme : bool;
  dirs : gset string }.

Definition write_daily (t : list FilteredRow) (fs : FS) : FS :=
  {| src_daily := src_daily fs; daily_out := Some t;
     tmp_week_parts := tmp_week_parts fs; weekly_out := weekly_out fs;
     tmp_month_parts := tmp_month_parts fs; monthly_out := monthly_out fs;
     readme := readme fs; dirs := dirs fs |}.

Definition write_week_part (w : string) (t : list RollupRow) (fs : FS)
    : FS :=
  {| src_daily := src_daily fs; daily_out := daily_out fs;
     tmp_week_parts := <[w := t]> (tmp_week_parts fs);
     weekly_out := weekly_out fs;
     tmp_month_parts := tmp_month_parts fs; monthly_out := monthly_out fs;
     readme := readme fs; dirs := dirs fs |}.

Definition write_weekly (t : list RollupRow) (fs : FS) : FS :=
  {| src_daily := src_daily fs; daily_out := daily_out fs;
     tmp_week_parts := tmp_week_parts fs; weekly_out := Some t;
     tmp_month_parts := tmp_month_parts fs; monthly_out := monthly_out fs;
     readme := readme fs; dirs := dirs fs |}.

Definition write_month_part (m : string) (t : list RollupRow) (fs : FS)
    : FS :=
  {| src_daily := src_daily fs; daily_out := daily_out fs;
     tmp_week_parts := tmp_week_parts fs; weekly_out := weekly_out fs;
     tmp_month_parts := <[m := t]> (tmp_month_parts fs);
     monthly_out := monthly_out fs;
     readme := readme fs; dirs := dirs fs |}.

Definition write_monthly (t : list RollupRow) (fs : FS) : FS :=
  {| src_daily := src_daily fs; daily_out := daily_out fs;
     tmp_week_parts := tmp_week_parts fs; weekly_out := weekly_out fs;
     tmp_month_parts := tmp_month_parts fs; monthly_out := Some t;
     readme := readme fs; dirs := dirs fs |}.

Definition write_readme (fs : FS) : FS :=
  {| src_daily := src_daily fs; daily_out := daily_out fs;
     tmp_week_parts := tmp_week_parts fs; weekly_out := weekly_out fs;
     tmp_month_parts := tmp_month_parts fs; monthly_out := monthly_out fs;
     readme := true; dirs := dirs fs |}.

Definition mkdir (p : string) (fs : FS) : FS :=
  {| src_daily := src_daily fs; daily_out := daily_out fs;
     tmp_week_parts := tmp_week_parts fs; weekly_out := weekly_out fs;
     tmp_month_parts := tmp_month_parts fs; monthly_out := monthly_out fs;
     readme := readme fs; dirs := {[ p ]} ∪ dirs fs |}.

(** *** The aggregations *)

Definition in_int64 (z : Z) : bool := (- 2 ^ 63 <=? z) && (z <? 2 ^ 63).

(** [cast(pl.Int64, strict=False).fill_null(0)]. *)
Definition as_int (v : cell) : Z :=
  match v with
  | CInt z => if in_int64 z then z else 0
  | CText s => default 0 (Dec.int_of_text s)
  | CNull => 0
  end.

(** [cast(pl.Decimal(38, 9), strict=False).fill_null(0)]. *)
Definition as_decimal (v : cell) : Z :=
  match v with
  | CInt z => if Z.abs (z * Dec.unit) <? Dec.limit then z * Dec.unit else 0
  | CText s => default 0 (Dec.of_text s)
  | CNull => 0
  end.

(** [cast(pl.Utf8)]. *)
Definition as_text (v : cell) : cell :=
  match v with
  | CInt z =>
      CText ((if z <? 0 then "-" else EmptyString) +:+ Calendar.decimal (Z.abs z))
  | CText s => CText s
  | CNull => CNull
  end.

Definition sum_int (col : list cell) : cell :=
  CInt (Calendar.wrap64 (foldr Z.add 0 (map as_int col))).

Definition max_int (col : list cell) : cell :=
  CInt (column_max (map as_int col)).

Definition sum_dec_str (col : list cell) : cell :=
  CText (Dec.to_text (Dec.sum (map as_decimal col))).

Definition sum_int_m (col : list cell) : cell := sum_int col.

Definition sum_dec_str_m (col : list cell) : cell :=
  sum_dec_str (map as_text col).

Definition max_int_m (col : list cell) : cell := max_int col.

(** The aggregate of column [c]: by its fixed SUM or MAX policy. *)
Definition weekly_agg (c : string) : list cell -> cell :=
  if bool_decide (c ∈ MAX_ONLY) then max_int
  else if bool_decide (c ∈ ETH_NUMS) then sum_dec_str
  else sum_int.

Definition monthly_agg (c : string) : list cell -> cell :=
  if bool_decide (c ∈ MAX_ONLY) then max_int_m
  else if bool_decide (c ∈ ETH_NUMS) then sum_dec_str_m
  else sum_int_m.

(** The feature columns of the outputs: [sorted(SUM_ONLY | MAX_ONLY)]. *)
Definition out_columns : list string :=
  sort_by id (remove_dups (SUM_ONLY ++ MAX_ONLY)).

Definition aggregate (agg : string -> list cell -> cell)
    (group : list (list (string * cell))) : list (string * cell) :=
  map (fun c => (c, agg c (map (get c) group))) out_columns.

(** *** 1) and 2): labelled daily rows with their week and month *)

(** The mapping, lowercased and made unique by address. *)
Fixpoint unique_by_address (l : list (string * Z)) : list (string * Z) :=
  match l with
  | [] => []
  | p :: l' => p :: filter (fun q => q.1 <> p.1) (unique_by_address l')
  end.

Definition week_of_day (day : Z) : string := Calendar.strftime_G_W_V day.
Definition month_of_day (day : Z) : string := Calendar.strftime_Y_m day.

Definition daily_row (addr_map : list (string * Z)) (r : DailyRow)
    : list FilteredRow :=
  let address := to_lowercase (d_address r) in
  map (fun p =>
         {| f_node_id := p.2; f_address := address; f_day := d_day r;
            f_week := week_of_day (d_day r);
            f_month := month_of_day (d_day r);
            f_feats :=
              map (fun c => (c, get c (d_feats r)))
                (INT_COUNTS ++ ETH_NUMS) |})
    (filter (fun p => p.1 = address) addr_map).

Definition prepare_daily (gnn : GNN.FS) : Run FS unit :=
  match GNN.targets_global gnn, GNN.address_id_map gnn with
  | Some _, Some map_rows =>
      let addr_map :=
        unique_by_address
          (map (fun p => (to_lowercase p.1, p.2)) map_rows) in
      files <~ gets src_daily ;;
      match files with
      | [] => raise (FileNotFoundError SRC_LSTM_DAILY)
      | _ =>
          modify (write_daily
                    (flat_map (daily_row addr_map) (concat files)))
      end
  | _, _ => raise (FileNotFoundError "labels/mapping in gnn_dataset")
  end.

(** *** 3) weekly, one part file per window *)

Definition weekly_part (daily : list FilteredRow) (w : string)
    : list RollupRow :=
  let rows := filter (fun r => f_week r = w) daily in
  map (fun n =>
         {| r_node_id := n; r_window := w;
            r_feats :=
              aggregate weekly_agg
                (map f_feats (filter (fun r => f_node_id r = n) rows)) |})
    (remove_dups (map f_node_id rows)).

Fixpoint weekly_loop (weeks_list : list string) : Run FS unit :=
  match weeks_list with
  | [] => ret tt
  | w :: rest =>
      present <~ gets (fun fs => tmp_week_parts fs !! w) ;;
      match present with
      | Some _ => weekly_loop rest
      | None =>
          daily <~ read daily_out "lstm_dataset/daily_filtered.parquet" ;;
          modify (write_week_part w (weekly_part daily w)) ;;;
          weekly_loop rest
      end
  end.

(** The part files of a directory, in the order of their names. *)
Definition glob_parts (prefix : string)
    (parts : gmap string (list RollupRow)) : list (list RollupRow) :=
  map snd
    (sort_by (fun p : string * list RollupRow =>
                prefix +:+ p.1 +:+ ".parquet")
       (map_to_list parts)).

Definition build_weekly (gnn : GNN.FS) : Run FS unit :=
  match GNN.week_meta gnn with
  | None => raise (FileNotFoundError WEEK_META)
  | Some meta =>
      weekly_loop (map GNN.window (GNN.rows meta)) ;;;
      parts <~ gets (fun fs => glob_parts "week=" (tmp_week_parts fs)) ;;
      match parts with
      | [] => ret tt
      | _ => modify (write_weekly (concat parts))
      end
  end.

(** *** 4) monthly, from the weekly table *)

(** The distinct (week, month) pairs of the labelled daily rows. *)
Definition week_month_map (daily : list FilteredRow)
    : list (string * string) :=
  remove_dups (map (fun r => (f_week r, f_month r)) daily).

(** The weeks recorded for month [m]. *)
Definition weeks_in_month (wm : list (string * string)) (m : string)
    : list string :=
  map fst (filter (fun p => p.2 = m) wm).

Definition monthly_part (weekly : list RollupRow) (w_in_m : list string)
    (m : string) : list RollupRow :=
  let rows := filter (fun r => r_window r ∈ w_in_m) weekly in
  map (fun n =>
         {| r_node_id := n; r_window := m;
            r_feats :=
              aggregate monthly_agg
                (map r_feats (filter (fun r => r_node_id r = n) rows)) |})
    (remove_dups (map r_node_id rows)).

Fixpoint monthly_loop (wm : list (string * string))
    (months_list : list string) : Run FS unit :=
  match months_list with
  | [] => ret tt
  | m :: rest =>
      present <~ gets (fun fs => tmp_month_parts fs !! m) ;;
      match present with
      | Some _ => monthly_loop wm rest
      | None =>
          match weeks_in_month wm m with
          | [] => monthly_loop wm rest
          | w_in_m =>
              weekly <~ read weekly_out "lstm_dataset/weekly.parquet" ;;
              modify (write_month_part m (monthly_part weekly w_in_m m)) ;;;
              monthly_loop wm rest
          end
      end
  end.

Definition build_monthly (gnn : GNN.FS) : Run FS unit :=
  match GNN.month_meta gnn with
  | None => raise (FileNotFoundError MONTH_META)
  | Some meta =>
      daily <~ read daily_out "lstm_dataset/daily_filtered.parquet" ;;
      let wm := week_month_map daily in
      monthly_loop wm (map GNN.window (GNN.rows meta)) ;;;
      parts <~ gets (fun fs => glob_parts "month=" (tmp_month_parts fs)) ;;
      match parts with
      | [] => ret tt
      | _ => modify (write_monthly (concat parts))
      end
  end.

(** The script, top to bottom. *)
Definition main (gnn : GNN.FS) : Run FS unit :=
  modify (mkdir OUT_DIR) ;;;
  modify (mkdir TMP_WEEK_DIR) ;;;
  modify (mkdir TMP_MONTH_DIR) ;;;
  prepare_daily gnn ;;;
  build_weekly gnn ;;;
  build_monthly gnn ;;;
  modify write_readme.

(** Every output file of the script: tables, part files and README. *)
Definition outputs (fs : FS)
    : option (list FilteredRow) * gmap string (list RollupRow)
      * option (list RollupRow) * gmap string (list RollupRow)
      * option (list RollupRow) * bool :=
  (daily_out fs, tmp_week_parts fs, weekly_out fs, tmp_month_parts fs,
   monthly_out fs, readme fs).

End LSTM.

(** ** The checksum tool: make_checksums.py, verify mode *)
Module Checksums.

Definition CHECKSUMS_NAME : string := "CHECKSUMS.md".
Definition MANIFEST_NAME : string := "manifest.jsonl".

Definition SKIP_DIR_NAMES : list string :=
  [".git"; "__pycache__"; "_tmp_week_parts"; "_tmp_month_parts"].
Definition SKIP_FILE_SUFFIXES : list string := [".tmp"; ".part"].

(** *** String functions of the language *)

(** The ASCII characters [str.strip()] removes. *)
Definition is_space (c : ascii) : bool :=
  let n := N_of_ascii c in
  ((9 <=? n) && (n <=? 13) || (28 <=? n) && (n <=? 32))%N.

Fixpoint lstrip (p : ascii -> bool) (s : string) : string :=
  match s with
  | EmptyString => EmptyString
  | String c s' => if p c then lstrip p s' else s
  end.

Fixpoint rstrip (p : ascii -> bool) (s : string) : string :=
  match s with
  | EmptyString => EmptyString
  | String c s' =>
      match rstrip p s' with
      | EmptyString => if p c then EmptyString else String c EmptyString
      | r => String c r
      end
  end.

Definition strip_with (p : ascii -> bool) (s : string) : string :=
  rstrip p (lstrip p s).

Definition strip (s : string) : string := strip_with is_space s.

(** [s.split(c)]: the pieces between the occurrences of [c]. *)
Fixpoint split (c : ascii) (s : string) : list string :=
  match s with
  | EmptyString => [EmptyString]
  | String d s' =>
      if Ascii.eqb d c then EmptyString :: split c s'
      else match split c s' with
           | [] => [String d EmptyString]
           | piece :: pieces => String d piece :: pieces
           end
  end.

(** [s.replace(c, empty)]: [s] without the occurrences of [c]. *)
Fixpoint remove_char (c : ascii) (s : string) : string :=
  match s with
  | EmptyString => EmptyString
  | String d s' =>
      if Ascii.eqb d c then remove_char c s' else String d (remove_char c s')
  end.

Definition startswith (s p : string) : bool := String.prefix p s.

Fixpoint endswith (s sfx : string) : bool :=
  String.eqb s sfx
  || match s with
     | EmptyString => false
     | String _ s' => endswith s' sfx
     end.

(** *** The table of CHECKSUMS.md *)

(** A recorded entry: SHA256, MD5 if any, size as written. *)
Definition entry : Type := string * option string * string.

Definition sha_of (e : entry) : string := e.1.1.

(** One line of the file: the row it holds, if it is a row. *)
Definition parse_line (line : string) : option (string * entry) :=
  let line := strip line in
  if negb (startswith line "| ") || startswith line "| Path" then None
  else
    let cells :=
      map strip (split "|" (strip_with (Ascii.eqb "|") line)) in
    match cells with
    | path_cell :: size_cell :: sha_cell :: rest =>
        let md5_cell := match rest with c :: _ => c | [] => EmptyString end in
        let path_cell := remove_char "`" path_cell in
        let sha_cell := remove_char "`" sha_cell in
        let md5_cell := remove_char "`" md5_cell in
        Some (path_cell,
              (sha_cell,
               match md5_cell with EmptyString => None | _ => Some md5_cell
               end,
               size_cell))
    | _ => None
    end.

(** [load_checksums_table]: no file, no entries; a later row for a path
    replaces an earlier one. *)
Definition load_checksums_table (md : option (list string))
    : gmap string entry :=
  match md with
  | None => ∅
  | Some lines =>
      foldl (fun out line =>
               match parse_line line with
               | Some (path, e) => <[path := e]> out
               | None => out
               end) ∅ lines
  end.

(** *** The files under the base directory *)

(** A file: the names from the base directory down to it, and the SHA256
    of its content. *)
Record file : Type := { names : list string; sha256 : string }.

Definition hidden (name : string) : bool := startswith name ".".

(** The path of a file relative to the base directory. *)
Fixpoint join_path (names : list string) : string :=
  match names with
  | [] => EmptyString
  | [n] => n
  | n :: rest => n +:+ "/" +:+ join_path rest
  end.

Definition rel (f : file) : string := join_path (names f).

(** [iter_files] walks the tree without the skipped and the hidden
    directories, and yields the files that are not hidden and do not
    carry a skipped suffix. *)
Fixpoint walked (names : list string) : bool :=
  match names with
  | [] => false
  | [name] => negb (hidden name)
  | d :: rest =>
      negb (bool_decide (d ∈ SKIP_DIR_NAMES)) && negb (hidden d)
      && walked rest
  end.

Definition yielded (f : file) : bool :=
  walked (names f)
  && negb (existsb (endswith (rel f)) SKIP_FILE_SUFFIXES).

Definition iter_files (tree : list file) : list file :=
  filter (fun f => yielded f = true) tree.

(** *** [main], with [--verify] *)

Inductive message : Type :=
| BaseNotFound
| NoChecksums
| MissingInTable (rel : string)
| Mismatch (rel expected actual : string)
| Summary (ok bad missing : nat).

Record counters : Type :=
  { ok : nat; bad : nat; missing : nat; printed : list message }.

Definition check (ref : gmap string entry) (acc : counters) (f : file)
    : counters :=
  match ref !! rel f with
  | None =>
      {| ok := ok acc; bad := bad acc; missing := S (missing acc);
         printed := printed acc ++ [MissingInTable (rel f)] |}
  | Some e =>
      if String.eqb (sha_of e) (sha256 f)
      then {| ok := S (ok acc); bad := bad acc; missing := missing acc;
              printed := printed acc |}
      else {| ok := ok acc; bad := S (bad acc); missing := missing acc;
              printed :=
                printed acc ++ [Mismatch (rel f) (sha_of e) (sha256 f)] |}
  end.

(** The exit code and what is printed.  [tree]: the files under the base
    directory, [None] when the directory does not exist; [md]: the lines
    of CHECKSUMS.md, [None] when there is no such file. *)
Definition verify (tree : option (list file)) (md : option (list string))
    : Z * list message :=
  match tree with
  | None => (2, [BaseNotFound])
  | Some tree =>
      let ref := load_checksums_table md in
      if bool_decide (ref = ∅) then (2, [NoChecksums])
      else
        let r := foldl (check ref)
                   {| ok := O; bad := O; missing := O; printed := [] |}
                   (iter_files tree) in
        (if (bad r =? 0)%nat then 0 else 1,
         printed r ++ [Summary (ok r) (bad r) (missing r)])
  end.

(** A scanned file whose digest differs from the one recorded for it. *)
Definition mismatched (ref : gmap string entry) (f : file) : Prop :=
  exists e, ref !! rel f = Some e /\ sha_of e <> sha256 f.

End Checksums.

(** ** The graph dataset, top to bottom

    [main] of GNN/build_unified_dataset.py runs after the loop that makes
    the dataset directories when the script is loaded, and ends with a
    README of fixed text, which is kept beside the dataset as a flag. *)
Module Pipeline.
Import GNN.

(** A stage of the dataset run beside the README. *)
Definition on_dataset {A} (m : Run FS A) : Run (FS * bool) A :=
  fun s => let r := m s.1 in (r.1, (r.2, s.2)).

Definition write_readme : Run (FS * bool) unit :=
  modify (fun s => (s.1, true)).

Section WithHash.
Variable hash : Seeds -> option string -> Z.

Definition main : Run (FS * bool) unit :=
  on_dataset (modify make_dirs) ;;;
  on_dataset (build_labels_and_mapping hash) ;;;
  on_dataset (build_edges_all hash) ;;;
  on_dataset build_window_index ;;;
  on_dataset enrich_meta_and_build_targets ;;;
  on_dataset export_windows ;;;
  write_readme.
End WithHash.

(** The edge of a table that carries label [l] and has node [n] at one
    end. *)
Definition touches (f : Freq) (edges : list Edge) (l : string) (n : Z)
    : Prop :=
  exists e, e ∈ edges /\ label_of_ts f (ts e) = l
    /\ (src_id e = n \/ dst_id e = n).

(** The sum of a column. *)
Definition column_sum (l : list Z) : Z := foldr Z.add 0 l.

End Pipeline.

(** ** States of the roll-up that differ in their part files *)
Module Parts.
Import LSTM.

Definition with_week_parts (m : gmap string (list RollupRow)) (fs : FS)
    : FS :=
  {| src_daily := src_daily fs; daily_out := daily_out fs;
     tmp_week_parts := m; weekly_out := weekly_out fs;
     tmp_month_parts := tmp_month_parts fs; monthly_out := monthly_out fs;
     readme := readme fs; dirs := dirs fs |}.

Definition with_month_parts (m : gmap string (list RollupRow)) (fs : FS)
    : FS :=
  {| src_daily := src_daily fs; daily_out := daily_out fs;
     tmp_week_parts := tmp_week_parts fs; weekly_out := weekly_out fs;
     tmp_month_parts := m; monthly_out := monthly_out fs;
     readme := readme fs; dirs := dirs fs |}.

(** The state after the part files [m] are joined into the weekly, or
    the monthly, table: no part file, no table. *)
Definition weekly_written (m : gmap string (list RollupRow)) (fs : FS)
    : FS :=
  match glob_parts "week=" m with
  | [] => with_week_parts m fs
  | parts => write_weekly (concat parts) (with_week_parts m fs)
  end.

Definition monthly_written (m : gmap string (list RollupRow)) (fs : FS)
    : FS :=
  match glob_parts "month=" m with
  | [] => with_month_parts m fs
  | parts => write_monthly (concat parts) (with_month_parts m fs)
  end.

(** The labelled daily rows the script builds from the mapping and the
    daily sources. *)
Definition labelled_daily (map_rows : list (string * Z))
    (src : list DailyRow) : list FilteredRow :=
  flat_map
    (daily_row
       (unique_by_address
          (map (fun p => (to_lowercase p.1, p.2)) map_rows)))
    src.

(** An address of the mapping, whatever its case. *)
Definition mapped (map_rows : list (string * Z)) (a : string) : Prop :=
  to_lowercase a ∈ map (fun p => to_lowercase p.1) map_rows.

Global Instance mapped_dec map_rows a : Decision (mapped map_rows a).
Proof. unfold mapped. apply _. Defined.

End Parts.

(** ** The checksum tool: make_checksums.py, generate mode *)
Module Generate.
Import Checksums.

Definition LF : ascii := ascii_of_nat 10.
Definition CR : ascii := ascii_of_nat 13.
Definition newline : string := String LF EmptyString.

(** *** [human_bytes]

    The size is made a float, halved ten binary places at a time while
    it is at least 1024 and a larger unit is left, and printed with two
    decimals.  A float has 53 significant bits and [float] rounds to the
    nearest, ties to even; dividing by 1024 is exact; the two decimals
    are those of the exact value rounded to the nearest, ties to even.
    The value is kept as a fraction [m / d]. *)
Definition round_half_even (num den : Z) : Z :=
  let q := num / den in
  let r := num mod den in
  if 2 * r <? den then q
  else if den <? 2 * r then q + 1
  else if Z.even q then q else q + 1.

Definition float_of_nat (n : Z) : Z :=
  let e := Z.log2 n - 52 in
  if e <=? 0 then n else round_half_even n (2 ^ e) * 2 ^ e.

Definition units : list string := ["B"; "KB"; "MB"; "GB"; "TB"].

Fixpoint scale (fuel : nat) (m d : Z) (i : nat) : Z * nat :=
  match fuel with
  | O => (d, i)
  | S k =>
      if (1024 * d <=? m) && (i <? length units - 1)%nat
      then scale k m (1024 * d) (S i)
      else (d, i)
  end.

(** The hundredths printed and the index of the unit. *)
Definition human_parts (n : Z) : Z * nat :=
  let m := float_of_nat n in
  let '(d, i) := scale (length units) m 1 0 in
  (round_half_even (100 * m) d, i).

Definition human_bytes (n : Z) : string :=
  let '(cents, i) := human_parts n in
  Calendar.decimal (cents / 100) +:+ "." +:+ Calendar.pad 2 (cents mod 100)
    +:+ " " +:+ nth i units EmptyString.

(** *** Rows, CHECKSUMS.md and the manifest *)

(** What the scan reads of a file: its path and SHA256, its size and
    modification time, and its MD5. *)
Record stat : Type := {
  st_file : file;
  st_size : Z;
  st_mtime : Z;
  st_md5 : string }.

Record row : Type := {
  path_rel : string;
  size_bytes : Z;
  size_hr : string;
  mtime : Z;
  row_sha256 : string;
  row_md5 : option string }.

Definition row_of (include_md5 : bool) (f : stat) : row :=
  {| path_rel := rel (st_file f);
     size_bytes := st_size f;
     size_hr := human_bytes (st_size f);
     mtime := st_mtime f;
     row_sha256 := sha256 (st_file f);
     row_md5 := if include_md5 then Some (st_md5 f) else None |}.

(** One row of the table, as a line. *)
Definition md_row (include_md5 : bool) (r : row) : string :=
  if include_md5
  then "| `" +:+ path_rel r +:+ "` | " +:+ size_hr r +:+ " | `"
         +:+ row_sha256 r +:+ "` | `" +:+ default EmptyString (row_md5 r)
         +:+ "` |" +:+ newline
  else "| `" +:+ path_rel r +:+ "` | " +:+ size_hr r +:+ " | `"
         +:+ row_sha256 r +:+ "` |" +:+ newline.

Definition md_header (stamp : string) (include_md5 : bool) : list string :=
  ["# Checksums" +:+ newline;
   "Generated at: " +:+ stamp +:+ newline;
   newline]
  ++ (if include_md5
      then ["| Path | Size | SHA256 | MD5 |" +:+ newline;
            "|------|------|--------|-----|" +:+ newline]
      else ["| Path | Size | SHA256 |" +:+ newline;
            "|------|------|--------|" +:+ newline]).

Definition join (pieces : list string) : string :=
  foldr String.append EmptyString pieces.

(** [write_checksums_md]: the text written to CHECKSUMS.md; [stamp] is
    the local time as [time.strftime] prints it. *)
Definition write_checksums_md (stamp : string) (rows : list row)
    (include_md5 : bool) : string :=
  join (md_header stamp include_md5 ++ map (md_row include_md5) rows).

(** A line of manifest.jsonl: the JSON object of a row, by its keys
    [path], [size_bytes], [mtime], [sha256] and, if any, [md5]. *)
Definition manifest_line : Type := string * Z * Z * string * option string.

Definition manifest_of (r : row) : manifest_line :=
  (path_rel r, size_bytes r, mtime r, row_sha256 r, row_md5 r).

Definition append_manifest_jsonl (rows : list row)
    (manifest : list manifest_line) : list manifest_line :=
  manifest ++ map manifest_of rows.

Definition batch_size : nat := 200.

(** The loop over the files: the rows for the table, the batch that is
    not yet written, and the manifest. *)
Fixpoint scan (include_md5 : bool) (files : list stat)
    (rows_for_md batch_for_manifest : list row)
    (manifest : list manifest_line)
    : list row * list row * list manifest_line :=
  match files with
  | [] => (rows_for_md, batch_for_manifest, manifest)
  | p :: files' =>
      let r := row_of include_md5 p in
      let rows_for_md := rows_for_md ++ [r] in
      let batch_for_manifest := batch_for_manifest ++ [r] in
      if (batch_size <=? length batch_for_manifest)%nat
      then scan include_md5 files' rows_for_md []
             (append_manifest_jsonl batch_for_manifest manifest)
      else scan include_md5 files' rows_for_md batch_for_manifest manifest
  end.

(** The files the scan processes: those under the base directory, in
    the order of the walk, once an old manifest.jsonl is removed. *)
Definition scanned (tree : list stat) : list stat :=
  filter (fun f => yielded (st_file f) = true)
    (filter (fun f => rel (st_file f) <> MANIFEST_NAME) tree).

(** [main] without [--verify], for a base directory that exists: the
    text of CHECKSUMS.md and the lines of manifest.jsonl. *)
Definition generate (include_md5 : bool) (stamp : string)
    (tree : list stat) : string * list manifest_line :=
  let '(rows_for_md, batch_for_manifest, manifest) :=
    scan include_md5 (scanned tree) [] [] [] in
  let manifest :=
    match batch_for_manifest with
    | [] => manifest
    | _ => append_manifest_jsonl batch_for_manifest manifest
    end in
  (write_checksums_md stamp (sort_by path_rel rows_for_md) include_md5,
   manifest).

(** *** Reading the table back

    A text file is read with universal newlines: a carriage return,
    alone or before a newline, reads as a newline; a line ends after its
    newline. *)
Fixpoint universal_newlines (s : string) : string :=
  match s with
  | EmptyString => EmptyString
  | String c s' =>
      if Ascii.eqb c CR
      then match s' with
           | String c' s'' =>
               if Ascii.eqb c' LF then String LF (universal_newlines s'')
               else String LF (universal_newlines s')
           | EmptyString => String LF EmptyString
           end
      else String c (universal_newlines s')
  end.

Fixpoint split_lines (s : string) : list string :=
  match s with
  | EmptyString => []
  | String c s' =>
      if Ascii.eqb c LF then String c EmptyString :: split_lines s'
      else match split_lines s' with
           | [] => [String c EmptyString]
           | line :: lines => String c line :: lines
           end
  end.

Definition read_lines (text : string) : list string :=
  split_lines (universal_newlines text).

(** *** Texts that fit a cell of the table *)

(** No line break. *)
Fixpoint one_line (s : string) : bool :=
  match s with
  | EmptyString => true
  | String c s' =>
      negb (Ascii.eqb c LF) && negb (Ascii.eqb c CR) && one_line s'
  end.

(** No line break, no bar and no backtick. *)
Fixpoint plain (s : string) : bool :=
  match s with
  | EmptyString => true
  | String c s' =>
      negb (Ascii.eqb c LF) && negb (Ascii.eqb c CR)
      && negb (Ascii.eqb c "|") && negb (Ascii.eqb c "`") && plain s'
  end.

(** Without the character [c]. *)
Fixpoint avoids (c : ascii) (s : string) : bool :=
  match s with
  | EmptyString => true
  | String d s' => negb (Ascii.eqb d c) && avoids c s'
  end.

(** Made of characters that satisfy [p] only. *)
Fixpoint all_of (p : ascii -> bool) (s : string) : bool :=
  match s with
  | EmptyString => true
  | String d s' => p d && all_of p s'
  end.

(** A row whose cells fit the table. *)
Definition plain_row (r : row) : bool :=
  plain (path_rel r) && plain (size_hr r) && plain (row_sha256 r)
  && plain (default EmptyString (row_md5 r)).

(** A file whose path and digests fit the table. *)
Definition plain_stat (f : stat) : bool :=
  plain (rel (st_file f)) && plain (sha256 (st_file f))
  && plain (st_md5 f).

(** The entry the table records for a row. *)
Definition entry_of (include_md5 : bool) (r : row) : entry :=
  (row_sha256 r,
   if include_md5
   then match default EmptyString (row_md5 r) with
        | EmptyString => None
        | _ => Some (default EmptyString (row_md5 r))
        end
   else None,
   strip (size_hr r)).

End Generate.

(** ** Merging the raw files: GNN/merge_parquet_gz.py

    The script joins the row groups of its input files, in the order of
    their names, into output files of at most [MAX_ROWS_PER_FILE] rows.
    What [get_parquet_handle] and [pq.ParquetFile] make of a file is
    given: it cannot be read (empty, failed or empty decompression,
    unknown format), it is read but is no Parquet file, or it is a table
    with a schema and row groups.  The settings are those of the script
    ([UNIFY_SCHEMAS] is off), with the row limit left open. *)
Module Merge.

Definition MAX_ROWS_PER_FILE : Z := 40000000.

Inductive error : Type :=
| HandleError        (* raised by [get_parquet_handle] *)
| ParquetError       (* raised by [pq.ParquetFile] *)
| SchemaMismatch
| IndexError.        (* [slice] with a negative offset *)

Section Tables.
Context {Row Schema : Type} `{EqDecision Schema}.

Inductive input : Type :=
| Unreadable
| Invalid
| Table (schema : Schema) (row_groups : list (list Row)).

(** The output files that are closed, the rows of the one that is
    open, and the counters of [main]; [idx] is the number of closed
    files. *)
Record writer : Type := {
  closed : list (list Row);
  current : list Row;
  rows_in_file : Z;
  total_rows : Z }.

(** [tbl.slice(offset)]. *)
Definition slice_from (offset : Z) (tbl : list Row)
    : option (list Row) :=
  if offset <? 0 then None else Some (drop (Z.to_nat offset) tbl).

(** The body of the loop over the row groups of a file. *)
Definition write_row_group (max_rows : Z) (tbl : list Row) (w : writer)
    : error * writer + writer :=
  let num_rows := Z.of_nat (length tbl) in
  if negb (max_rows =? 0) && (max_rows <? rows_in_file w + num_rows)
  then
    let need := max_rows - rows_in_file w in
    let w1 :=
      if 0 <? need
      then {| closed := closed w;
              current := current w ++ take (Z.to_nat need) tbl;
              rows_in_file := rows_in_file w;
              total_rows := total_rows w + need |}
      else w in
    let w2 := {| closed := closed w1 ++ [current w1];
                 current := [];
                 rows_in_file := 0;
                 total_rows := total_rows w1 |} in
    match slice_from need tbl with
    | None => inl (IndexError, w2)
    | Some rest =>
        if 0 <? Z.of_nat (length rest)
        then inr {| closed := closed w2;
                    current := rest;
                    rows_in_file := Z.of_nat (length rest);
                    total_rows := total_rows w2 + Z.of_nat (length rest) |}
        else inr w2
    end
  else
    inr {| closed := closed w;
           current := current w ++ tbl;
           rows_in_file := rows_in_file w + num_rows;
           total_rows := total_rows w + num_rows |}.

Fixpoint write_row_groups (max_rows : Z) (row_groups : list (list Row))
    (w : writer) : error * writer + writer :=
  match row_groups with
  | [] => inr w
  | tbl :: rest =>
      match write_row_group max_rows tbl w with
      | inl failed => inl failed
      | inr w' => write_row_groups max_rows rest w'
      end
  end.

(** One input file: skipped when it cannot be read, an error when it
    is no Parquet file or has another schema. *)
Definition merge_file (max_rows : Z) (schema : Schema) (p : input)
    (w : writer) : error * writer + writer :=
  match p with
  | Unreadable => inr w
  | Invalid => inl (ParquetError, w)
  | Table s row_groups =>
      if decide (s = schema) then write_row_groups max_rows row_groups w
      else inl (SchemaMismatch, w)
  end.

Fixpoint merge_files (max_rows : Z) (schema : Schema)
    (files : list input) (w : writer) : error * writer + writer :=
  match files with
  | [] => inr w
  | p :: rest =>
      match merge_file max_rows schema p w with
      | inl failed => inl failed
      | inr w' => merge_files max_rows schema rest w'
      end
  end.

(** [main]: exit code 1 without input files; the output files in
    order and the total that is printed; or the error that is raised,
    with the output files as they are left, the open one closed. *)
Inductive outcome : Type :=
| NoInput
| Crashed (e : error) (files : list (list Row))
| Merged (files : list (list Row)) (total : Z).

Definition main (max_rows : Z) (files : list input) : outcome :=
  match files with
  | [] => NoInput
  | Unreadable :: _ => Crashed HandleError []
  | Invalid :: _ => Crashed ParquetError []
  | Table schema _ :: _ =>
      match
        merge_files max_rows schema files
          {| closed := []; current := []; rows_in_file := 0;
             total_rows := 0 |}
      with
      | inl (e, w) => Crashed e (closed w ++ [current w])
      | inr w => Merged (closed w ++ [current w]) (total_rows w)
      end
  end.

(** The rows of the inputs that are tables, in order. *)
Definition rows_of (files : list input) : list Row :=
  concat
    (flat_map
       (fun p => match p with Table _ row_groups => row_groups | _ => [] end)
       files).

(** Every row group of the inputs has at most [max_rows] rows. *)
Definition groups_within (max_rows : Z) (files : list input) : Prop :=
  forall s row_groups tbl,
    Table s row_groups ∈ files -> tbl ∈ row_groups ->
    Z.of_nat (length tbl) <= max_rows.

End Tables.

End Merge.

(** ** Concrete data the statements are tried on *)
Module Sample.
Import GNN.

(** A stand-in for the hash of the query engine. *)
Definition toy_hash (s : Seeds) (key : option string) : Z :=
  seed s + Z.of_nat (String.length (default EmptyString key)).

Definition edge (s d t : Z) : Edge :=
  {| src_id := s; dst_id := d; ts := t;
     e_value_wei := "100"; e_tx_fee_wei := "1"; e_block_number := 1;
     e_contract_creation := false; e_tx_hash := "0x01" |}.

(** Two transfers, 7 -> 8 on 2021-03-31 and 8 -> 9 on 2021-04-01 (UTC):
    one ISO week, two months.  Node 8 is the only labelled one. *)
Definition edges : list Edge :=
  [edge 7 8 1617148800; edge 8 9 1617235200].

Definition labels : list LabelRow :=
  [{| node_id := 8; l_is_scam := 1; l_is_contract := Some 0;
      l_address := "0xB" |}].

Definition month_rows : list WindowRow :=
  [{| window := "2021-03"; window_min_ts := 1617148800;
      window_end_ts := 1617148800; edges_cnt := 1; more := [] |};
   {| window := "2021-04"; window_min_ts := 1617235200;
      window_end_ts := 1617235200; edges_cnt := 1; more := [] |}].

Definition week_rows : list WindowRow :=
  [{| window := "2021-W13"; window_min_ts := 1617148800;
      window_end_ts := 1617235200; edges_cnt := 2; more := [] |}].

(** The dataset before the window index is built, and after. *)
Definition materialized : FS :=
  {| src_tx := []; labels_csv := None;
     edges_all := Some edges;
     month_meta := None; week_meta := None;
     targets_global := Some labels;
     address_id_map := Some [("0xB", 8)];
     month_targets := None; week_targets := None;
     edges_by_month := ∅; edges_by_week := ∅; dirs := ∅ |}.

Definition indexed : FS :=
  {| src_tx := []; labels_csv := None;
     edges_all := Some edges;
     month_meta := Some {| more_columns := []; rows := month_rows |};
     week_meta := Some {| more_columns := []; rows := week_rows |};
     targets_global := Some labels;
     address_id_map := Some [("0xB", 8)];
     month_targets := None; week_targets := None;
     edges_by_month := ∅; edges_by_week := ∅; dirs := ∅ |}.

(** An empty dataset directory: no raw transactions, nothing built. *)
Definition empty : FS :=
  {| src_tx := []; labels_csv := None; edges_all := None;
     month_meta := None; week_meta := None;
     targets_global := None; address_id_map := None;
     month_targets := None; week_targets := None;
     edges_by_month := ∅; edges_by_week := ∅; dirs := ∅ |}.

(** A labels CSV with one address in two spellings, and one file of two
    raw transactions, on 2021-03-31 and 2021-04-01, between addresses of
    different lengths, which the stand-in hash tells apart. *)
Definition csv_labels : list CsvLabel :=
  [{| address := "0xBB"; is_scam := 1; is_contract := Some 0 |};
   {| address := "0xbb"; is_scam := 0; is_contract := None |}].

Definition raw_tx (src dst : string) (us : Z) : RawTx :=
  {| from_address := Some src; to_address := Some dst; timestamp := us;
     value_wei := "100"; tx_fee_wei := "1"; block_number := 1;
     contract_creation := false; tx_hash := "0x01" |}.

Definition raw : FS :=
  {| src_tx := [[raw_tx "0xA" "0xBB" 1617148800000000;
                 raw_tx "0xbb" "0xCCC" 1617235200000000]];
     labels_csv := Some csv_labels; edges_all := None;
     month_meta := None; week_meta := None;
     targets_global := None; address_id_map := None;
     month_targets := None; week_targets := None;
     edges_by_month := ∅; edges_by_week := ∅; dirs := ∅ |}.

(** The indexed dataset without its week index, and after two runs of
    the enrichment stage. *)
Definition month_indexed : FS :=
  {| src_tx := []; labels_csv := None;
     edges_all := Some edges;
     month_meta := Some {| more_columns := []; rows := month_rows |};
     week_meta := None;
     targets_global := Some labels;
     address_id_map := Some [("0xB", 8)];
     month_targets := None; week_targets := None;
     edges_by_month := ∅; edges_by_week := ∅; dirs := ∅ |}.

Definition enriched_twice : FS :=
  (enrich_meta_and_build_targets
     (enrich_meta_and_build_targets indexed).2).2.

(** Daily features of the labelled address on the same two days. *)
Definition daily (day sent : Z) (eth : string) : LSTM.DailyRow :=
  {| LSTM.d_address := "0xB"; LSTM.d_day := day;
     LSTM.d_feats :=
       [("normal_sent_cnt", LSTM.CInt sent);
        ("burst_max_tx_5m", LSTM.CInt sent);
        ("eth_sent_sum", LSTM.CText eth)] |}.

Definition daily_source : LSTM.FS :=
  {| LSTM.src_daily :=
       [[daily 18717 1 "1.000000001"; daily 18718 2 "2.000000002"]];
     LSTM.daily_out := None;
     LSTM.tmp_week_parts := ∅; LSTM.weekly_out := None;
     LSTM.tmp_month_parts := ∅; LSTM.monthly_out := None;
     LSTM.readme := false; LSTM.dirs := ∅ |}.

Definition no_daily_source : LSTM.FS :=
  {| LSTM.src_daily := [];
     LSTM.daily_out := None;
     LSTM.tmp_week_parts := ∅; LSTM.weekly_out := None;
     LSTM.tmp_month_parts := ∅; LSTM.monthly_out := None;
     LSTM.readme := false; LSTM.dirs := ∅ |}.

(** A CHECKSUMS.md without rows, as written for an empty directory, and
    the directory that then holds it. *)
Definition newline : string := String (ascii_of_nat 10) EmptyString.

Definition checksums_header : list string :=
  ["# Checksums" +:+ newline;
   "Generated at: 2025-08-23 12:00:00 UTC" +:+ newline;
   newline;
   "| Path | Size | SHA256 |" +:+ newline;
   "|------|------|--------|" +:+ newline].

Definition checksums_tree : list Checksums.file :=
  [{| Checksums.names := ["CHECKSUMS.md"];
      Checksums.sha256 :=
        "9f86d081884c7d659a2feaa0c55ad015a3bf4f1b2b0b822cd15d6c15b0f00a08"
   |}].

(** A table of two rows and a directory with a matching file, a changed
    file and a file the table does not list. *)
Definition checksums_table : list string :=
  checksums_header
    ++ ["| `a/b.parquet` | 1.00 KB | `abc` |" +:+ newline;
        "| `c.md` | 2.00 B | `ff` |" +:+ newline].

Definition changed_tree : list Checksums.file :=
  [{| Checksums.names := ["a"; "b.parquet"]; Checksums.sha256 := "abc" |};
   {| Checksums.names := ["c.md"]; Checksums.sha256 := "fe" |};
   {| Checksums.names := ["new.txt"]; Checksums.sha256 := "01" |}].
(** A directory of two files as the generation scans it, the time of
    the run, and the directory afterwards, with the table and the
    manifest beside the two files. *)
Definition scan_stat (names : list string) (sha : string) (size : Z)
    : Generate.stat :=
  {| Generate.st_file :=
       {| Checksums.names := names; Checksums.sha256 := sha |};
     Generate.st_size := size; Generate.st_mtime := 1755950400;
     Generate.st_md5 := "d41d8cd9" |}.

Definition scan_tree : list Generate.stat :=
  [scan_stat ["a"; "b.parquet"] "abc" 1536;
   scan_stat ["c.md"] "ff" 2;
   scan_stat ["manifest.jsonl"] "00" 10;
   scan_stat ["a"; ".hidden"] "01" 1].

Definition stamp : string := "2025-08-23 12:00:00 UTC".

Definition generated_tree : list Checksums.file :=
  [{| Checksums.names := ["a"; "b.parquet"]; Checksums.sha256 := "abc" |};
   {| Checksums.names := ["c.md"]; Checksums.sha256 := "ff" |};
   {| Checksums.names := ["CHECKSUMS.md"]; Checksums.sha256 := "77" |};
   {| Checksums.names := ["manifest.jsonl"]; Checksums.sha256 := "88" |}].

(** The same directory when it already holds a table. *)
Definition old_table : Generate.stat := scan_stat ["CHECKSUMS.md"] "76" 300.

Definition rescan_tree : list Generate.stat := old_table :: scan_tree.

Definition table_rows : list Generate.row :=
  map (Generate.row_of true) (Generate.scanned scan_tree).

(** Three inputs of the merge: two tables of one schema around a file
    that cannot be read. *)
Definition merge_inputs : list (@Merge.input Z string) :=
  [Merge.Table "s" [[1; 2]; [3; 4]]; Merge.Unreadable;
   Merge.Table "s" [[5]]].
End Sample.

(** ** The calendar: years, months and ISO weeks are intervals of days *)
Section CalendarFacts.
Import Calendar.

Lemma days_before_year_succ y :
  days_before_year (y + 1) = days_before_year y + year_len y.
Proof.
  unfold days_before_year, year_len, is_leap.
  destruct (Z.eqb_spec (y mod 4) 0), (Z.eqb_spec (y mod 100) 0),
    (Z.eqb_spec (y mod 400) 0); cbn [andb orb negb];
    Z.div_mod_to_equations; lia.
Qed.

Lemma year_len_pos y : 365 <= year_len y <= 366.
Proof. unfold year_len. destruct (is_leap y); lia. Qed.

Lemma days_before_year_mono y y' :
  y <= y' -> days_before_year y <= days_before_year y'.
Proof.
  unfold days_before_year. intros. Z.div_mod_to_equations. lia.
Qed.

Lemma days_before_year_era e : days_before_year (400 * e) = era_days * e.
Proof.
  unfold days_before_year, era_days. Z.div_mod_to_equations. lia.
Qed.

Lemma year_walk_spec fuel : forall y r,
  0 <= r < days_before_year (y + Z.of_nat fuel + 1) - days_before_year y ->
  let '(y', r') := year_walk fuel y r in
  r + days_before_year y = r' + days_before_year y'
  /\ 0 <= r' < year_len y'.
Proof.
  induction fuel as [|f IH]; intros y r Hr.
  - cbn. replace (y + Z.of_nat 0 + 1) with (y + 1) in Hr by lia.
    rewrite days_before_year_succ in Hr. lia.
  - cbn [year_walk]. destruct (Z.ltb_spec r (year_len y)) as [Hlt|Hge].
    + pose proof (year_len_pos y). lia.
    + specialize (IH (y + 1) (r - year_len y)).
      replace (y + 1 + Z.of_nat f + 1) with (y + Z.of_nat (S f) + 1) in IH by lia.
      rewrite !(days_before_year_succ y) in IH.
      destruct (year_walk f (y + 1) (r - year_len y)) as [y' r'].
      pose proof (year_len_pos y). lia.
Qed.

(** The year of a day is the one whose first of January is the last one
    not after it. *)
Lemma year_of_spec d :
  days_before_year (year_of d) <= d + epoch_shift
    < days_before_year (year_of d + 1)
  /\ yday_of d = d + epoch_shift - days_before_year (year_of d).
Proof.
  unfold year_of, yday_of, year_yday.
  set (z := d + epoch_shift).
  pose proof (year_walk_spec 399 (400 * (z / era_days)) (z mod era_days)) as H.
  assert (Hb : 0 <= z mod era_days
            < days_before_year (400 * (z / era_days) + Z.of_nat 399 + 1)
              - days_before_year (400 * (z / era_days))).
  { replace (400 * (z / era_days) + Z.of_nat 399 + 1)
      with (400 * (z / era_days + 1)) by lia.
    rewrite !days_before_year_era. unfold era_days.
    Z.div_mod_to_equations. lia. }
  specialize (H Hb).
  destruct (year_walk 399 (400 * (z / era_days)) (z mod era_days)) as [y' r'].
  cbn [fst snd]. rewrite days_before_year_era in H.
  rewrite days_before_year_succ.
  assert (z = era_days * (z / era_days) + z mod era_days)
    by (unfold era_days; Z.div_mod_to_equations; lia).
  lia.
Qed.

Lemma year_of_unique d y :
  days_before_year y <= d + epoch_shift < days_before_year (y + 1) ->
  year_of d = y.
Proof.
  intros H. destruct (year_of_spec d) as [Hs _].
  destruct (Z.lt_trichotomy (year_of d) y) as [Hlt|[Heq|Hgt]]; [|exact Heq|].
  - pose proof (days_before_year_mono (year_of d + 1) y). lia.
  - pose proof (days_before_year_mono (y + 1) (year_of d)). lia.
Qed.

Lemma year_of_mono d d' : d <= d' -> year_of d <= year_of d'.
Proof.
  intros H. destruct (year_of_spec d) as [Hd _], (year_of_spec d') as [Hd' _].
  destruct (Z.le_gt_cases (year_of d) (year_of d')) as [|Hgt]; [assumption|].
  pose proof (days_before_year_mono (year_of d' + 1) (year_of d)). lia.
Qed.

Lemma days_before_month_succ y m :
  1 <= m <= 12 ->
  days_before_month y (m + 1) = days_before_month y m + month_len y m.
Proof.
  intros Hm.
  assert (Hc : m = 1 \/ m = 2 \/ m = 3 \/ m = 4 \/ m = 5 \/ m = 6 \/ m = 7
               \/ m = 8 \/ m = 9 \/ m = 10 \/ m = 11 \/ m = 12) by lia.
  unfold days_before_month, month_len.
  repeat (destruct Hc as [->|Hc]); try subst m;
    destruct (is_leap y); vm_compute; reflexivity.
Qed.

Lemma days_before_month_first y : days_before_month y 1 = 0.
Proof. reflexivity. Qed.

Lemma days_before_month_13 y : days_before_month y 13 = year_len y.
Proof.
  unfold days_before_month, month_len, year_len.
  destruct (is_leap y); vm_compute; reflexivity.
Qed.

Lemma month_len_pos y m : 28 <= month_len y m <= 31.
Proof.
  unfold month_len.
  destruct (m =? 2); [destruct (is_leap y); lia|].
  destruct ((m =? 4) || (m =? 6) || (m =? 9) || (m =? 11)); lia.
Qed.

Lemma days_before_month_mono y m m' :
  1 <= m -> m <= m' -> m' <= 13 ->
  days_before_month y m <= days_before_month y m'.
Proof.
  intros H1 H2 H3.
  replace m' with (m + Z.of_nat (Z.to_nat (m' - m))) in * by lia.
  induction (Z.to_nat (m' - m)) as [|k IH].
  - replace (m + Z.of_nat 0) with m by lia. lia.
  - replace (m + Z.of_nat (S k)) with (m + Z.of_nat k + 1) in * by lia.
    rewrite days_before_month_succ by lia.
    pose proof (month_len_pos y (m + Z.of_nat k)).
    assert (days_before_month y m <= days_before_month y (m + Z.of_nat k))
      by (apply IH; lia).
    lia.
Qed.

Lemma month_walk_spec fuel : forall y m r,
  1 <= m -> m + Z.of_nat fuel = 12 ->
  0 <= r -> r + days_before_month y m < year_len y ->
  let '(m', r') := month_walk fuel y m r in
  r + days_before_month y m = r' + days_before_month y m'
  /\ 0 <= r' < month_len y m' /\ 1 <= m' <= 12.
Proof.
  induction fuel as [|f IH]; intros y m r Hm Hf Hr Hlt.
  - cbn. replace m with 12 in * by lia.
    pose proof (days_before_month_succ y 12 ltac:(lia)) as Hs.
    change (12 + 1) with 13 in Hs. rewrite days_before_month_13 in Hs. lia.
  - cbn [month_walk]. destruct (Z.ltb_spec r (month_len y m)) as [Hl|Hg].
    + lia.
    + specialize (IH y (m + 1) (r - month_len y m)).
      rewrite days_before_month_succ in IH by lia.
      destruct (month_walk f y (m + 1) (r - month_len y m)) as [m' r'].
      lia.
Qed.

Lemma month_of_spec d :
  1 <= month_of d <= 12
  /\ month_start (year_of d) (month_of d) <= d
     < month_start (year_of d) (month_of d)
       + month_len (year_of d) (month_of d).
Proof.
  destruct (year_of_spec d) as [Hy Hyd].
  rewrite days_before_year_succ in Hy.
  pose proof (month_walk_spec 11 (year_of d) 1 (yday_of d)) as H.
  rewrite days_before_month_first in H.
  specialize (H ltac:(lia) ltac:(lia) ltac:(lia) ltac:(lia)).
  unfold month_of, month_start.
  destruct (month_walk 11 (year_of d) 1 (yday_of d)) as [m' r'].
  cbn [fst]. lia.
Qed.

Lemma month_of_unique d y m :
  1 <= m <= 12 ->
  month_start y m <= d < month_start y m + month_len y m ->
  year_of d = y /\ month_of d = m.
Proof.
  intros Hm Hd. unfold month_start in Hd.
  pose proof (days_before_month_mono y 1 m ltac:(lia) ltac:(lia) ltac:(lia)) as H1.
  pose proof (days_before_month_mono y (m + 1) 13 ltac:(lia) ltac:(lia) ltac:(lia)) as H2.
  rewrite days_before_month_first in H1. rewrite days_before_month_13 in H2.
  rewrite days_before_month_succ in H2 by lia.
  assert (Hy : year_of d = y).
  { apply year_of_unique. rewrite days_before_year_succ. lia. }
  split; [exact Hy|].
  destruct (month_of_spec d) as [Hr Hs]. rewrite Hy in Hs.
  unfold month_start in Hs.
  destruct (Z.lt_trichotomy (month_of d) m) as [Hlt|[Heq|Hgt]]; [|exact Heq|].
  - pose proof (days_before_month_mono y (month_of d + 1) m
                  ltac:(lia) ltac:(lia) ltac:(lia)) as H3.
    rewrite days_before_month_succ in H3 by lia. lia.
  - pose proof (days_before_month_mono y (m + 1) (month_of d)
                  ltac:(lia) ltac:(lia) ltac:(lia)) as H3.
    rewrite days_before_month_succ in H3 by lia. lia.
Qed.

(** A month is an interval of days. *)
Lemma month_convex a b c :
  a <= b <= c -> year_of a = year_of c -> month_of a = month_of c ->
  year_of b = year_of a /\ month_of b = month_of a.
Proof.
  intros Hb Hy Hm.
  destruct (month_of_spec a) as [Ha1 Ha2], (month_of_spec c) as [_ Hc2].
  rewrite <- Hy, <- Hm in Hc2.
  apply month_of_unique; lia.
Qed.

Lemma iso_thursday_week d : iso_thursday d = 7 * ((d + 3) / 7).
Proof. unfold iso_thursday. Z.div_mod_to_equations. lia. Qed.

(** Two days with the same week-based year and week number lie in the
    same Monday-to-Sunday week. *)
Lemma iso_week_inj a c :
  iso_year a = iso_year c -> iso_week a = iso_week c ->
  (a + 3) / 7 = (c + 3) / 7.
Proof.
  unfold iso_year, iso_week. rewrite !iso_thursday_week.
  set (wa := (a + 3) / 7). set (wc := (c + 3) / 7).
  intros Hy Hw.
  destruct (year_of_spec (7 * wa)) as [_ Ha], (year_of_spec (7 * wc)) as [_ Hc].
  rewrite Hy in Ha. rewrite Ha, Hc in Hw.
  Z.div_mod_to_equations. lia.
Qed.

Lemma iso_week_convex a b c :
  a <= b <= c -> (a + 3) / 7 = (c + 3) / 7 ->
  iso_year b = iso_year a /\ iso_week b = iso_week a.
Proof.
  intros Hb Hw.
  assert (Hwb : (b + 3) / 7 = (a + 3) / 7) by (Z.div_mod_to_equations; lia).
  unfold iso_year, iso_week. rewrite !iso_thursday_week, Hwb. auto.
Qed.

Lemma digit_inj a b :
  0 <= a < 10 -> 0 <= b < 10 -> digit a = digit b -> a = b.
Proof.
  unfold digit. intros Ha Hb H. apply (f_equal N_of_ascii) in H.
  rewrite !N_ascii_embedding in H by lia. lia.
Qed.

Lemma pad2_inj a b :
  0 <= a < 100 -> 0 <= b < 100 -> pad 2 a = pad 2 b -> a = b.
Proof.
  unfold pad. cbn [digits_le]. intros Ha Hb H.
  injection H as H1 H0.
  apply digit_inj in H0, H1; Z.div_mod_to_equations; lia.
Qed.

Lemma pad4_inj a b :
  0 <= a < 10000 -> 0 <= b < 10000 -> pad 4 a = pad 4 b -> a = b.
Proof.
  unfold pad. cbn [digits_le]. intros Ha Hb H.
  injection H as H3 H2 H1 H0.
  apply digit_inj in H0, H1, H2, H3; Z.div_mod_to_equations; lia.
Qed.

Lemma fmt_year_4 y : 0 <= y <= 9999 -> fmt_year y = pad 4 y.
Proof.
  intros H. unfold fmt_year.
  destruct (Z.leb_spec 0 y), (Z.leb_spec y 9999); try lia. reflexivity.
Qed.

Lemma pad4_shape v :
  exists c1 c2 c3 c4,
    pad 4 v = String c1 (String c2 (String c3 (String c4 EmptyString))).
Proof. unfold pad. cbn [digits_le]. eauto. Qed.

(** Within years 0..9999 a label determines the year and the number
    after it. *)
Lemma label_inj sep y m y' m' :
  0 <= y <= 9999 -> 0 <= y' <= 9999 -> 0 <= m < 100 -> 0 <= m' < 100 ->
  fmt_year y +:+ sep +:+ pad 2 m = fmt_year y' +:+ sep +:+ pad 2 m' ->
  y = y' /\ m = m'.
Proof.
  intros Hy Hy' Hm Hm' H. rewrite !fmt_year_4 in H by assumption.
  assert (Hp : pad 4 y = pad 4 y' /\ pad 2 m = pad 2 m').
  { destruct (pad4_shape y) as (a1 & a2 & a3 & a4 & Ea).
    destruct (pad4_shape y') as (b1 & b2 & b3 & b4 & Eb).
    rewrite Ea, Eb in *. cbn [append] in H.
    injection H as -> -> -> -> H. split; [reflexivity|].
    apply String.app_inj in H. apply String.app_inj in H. exact H. }
  destruct Hp as [H4 H2]. split; [apply pad4_inj | apply pad2_inj]; auto; lia.
Qed.

Lemma year_of_epoch : year_of 0 = 1970.
Proof. vm_compute. reflexivity. Qed.

Lemma year_of_last : year_of 2932896 = 9999.
Proof. vm_compute. reflexivity. Qed.

Lemma year_of_range d : 0 <= d <= 2932896 -> 1970 <= year_of d <= 9999.
Proof.
  intros H. pose proof (year_of_mono 0 d ltac:(lia)) as H1.
  pose proof (year_of_mono d 2932896 ltac:(lia)) as H2.
  rewrite year_of_epoch in H1. rewrite year_of_last in H2. lia.
Qed.

Lemma iso_year_range d : 0 <= d <= 2932893 -> 1970 <= iso_year d <= 9999.
Proof.
  intros H. unfold iso_year. apply year_of_range.
  rewrite iso_thursday_week. Z.div_mod_to_equations. lia.
Qed.

Lemma iso_week_range d : 1 <= iso_week d <= 53.
Proof.
  unfold iso_week. destruct (year_of_spec (iso_thursday d)) as [H ->].
  rewrite days_before_year_succ in H.
  pose proof (year_len_pos (year_of (iso_thursday d))).
  Z.div_mod_to_equations. lia.
Qed.

(** The two label functions, unfolded once.  Proofs rewrite with these
    equations instead of unfolding the calendar walk. *)
Lemma strftime_Y_m_eq d :
  strftime_Y_m d = fmt_year (year_of d) +:+ "-" +:+ pad 2 (month_of d).
Proof. reflexivity. Qed.

Lemma strftime_G_W_V_eq d :
  strftime_G_W_V d = fmt_year (iso_year d) +:+ "-W" +:+ pad 2 (iso_week d).
Proof. reflexivity. Qed.

Lemma strftime_Y_m_convex a b c :
  0 <= a -> c <= 2932896 -> a <= b <= c ->
  strftime_Y_m a = strftime_Y_m c -> strftime_Y_m b = strftime_Y_m a.
Proof.
  intros Ha Hc Hb H.
  assert (Hya : 0 <= year_of a <= 9999)
    by (pose proof (year_of_range a); lia).
  assert (Hyc : 0 <= year_of c <= 9999)
    by (pose proof (year_of_range c); lia).
  assert (Hma : 0 <= month_of a < 100)
    by (pose proof (month_of_spec a); lia).
  assert (Hmc : 0 <= month_of c < 100)
    by (pose proof (month_of_spec c); lia).
  rewrite !strftime_Y_m_eq in H.
  destruct (label_inj "-" _ _ _ _ Hya Hyc Hma Hmc H) as [Hy Hm].
  destruct (month_convex a b c Hb Hy Hm) as [Hy' Hm'].
  rewrite !strftime_Y_m_eq, Hy', Hm'. reflexivity.
Qed.

Lemma strftime_G_W_V_convex a b c :
  0 <= a -> c <= 2932893 -> a <= b <= c ->
  strftime_G_W_V a = strftime_G_W_V c -> strftime_G_W_V b = strftime_G_W_V a.
Proof.
  intros Ha Hc Hb H.
  assert (Hya : 0 <= iso_year a <= 9999)
    by (pose proof (iso_year_range a); lia).
  assert (Hyc : 0 <= iso_year c <= 9999)
    by (pose proof (iso_year_range c); lia).
  assert (Hwa : 0 <= iso_week a < 100)
    by (pose proof (iso_week_range a); lia).
  assert (Hwc : 0 <= iso_week c < 100)
    by (pose proof (iso_week_range c); lia).
  rewrite !strftime_G_W_V_eq in H.
  destruct (label_inj "-W" _ _ _ _ Hya Hyc Hwa Hwc H) as [Hy Hw].
  destruct (iso_week_convex a b c Hb (iso_week_inj a c Hy Hw)) as [Hy' Hw'].
  rewrite !strftime_G_W_V_eq, Hy', Hw'. reflexivity.
Qed.

Lemma date_of_from_epoch ts :
  0 <= ts < ts_limit -> date_of_datetime (from_epoch_s ts) = ts / 86400.
Proof.
  unfold ts_limit, date_of_datetime, from_epoch_s, wrap64. intros H.
  change (2 ^ 63) with 9223372036854775808.
  change (2 ^ 64) with 18446744073709551616.
  Z.div_mod_to_equations. lia.
Qed.
End CalendarFacts.

(** ** Sorting by a string column *)
Section SortFacts.
Context {A : Type} (key : A -> string).

Lemma insert_by_perm x l : insert_by key x l ≡ₚ x :: l.
Proof.
  induction l as [|y l IH]; cbn; [reflexivity|].
  destruct (String.leb (key x) (key y)); [reflexivity|].
  rewrite IH. apply Permutation_swap.
Qed.

Lemma sort_by_perm l : sort_by key l ≡ₚ l.
Proof.
  induction l as [|x l IH]; cbn; [reflexivity|].
  rewrite insert_by_perm. by rewrite IH.
Qed.

Lemma elem_of_sort_by x l : x ∈ sort_by key l <-> x ∈ l.
Proof. by rewrite sort_by_perm. Qed.

Lemma insert_by_sorted x l :
  Sorted (key_le key) l -> Sorted (key_le key) (insert_by key x l).
Proof.
  induction 1 as [|y l Hs IH Hhd]; cbn.
  - repeat constructor.
  - destruct (String.leb (key x) (key y)) eqn:E.
    + constructor; [by constructor|]. by constructor.
    + constructor; [exact IH|].
      assert (Hyx : key_le key y x).
      { unfold key_le. destruct (String.leb_total (key x) (key y)); congruence. }
      destruct Hhd as [|z l' Hz]; cbn; [by constructor|].
      destruct (String.leb (key x) (key z)); by constructor.
Qed.

Lemma sort_by_sorted l : Sorted (key_le key) (sort_by key l).
Proof.
  induction l as [|x l IH]; cbn; [constructor|]. by apply insert_by_sorted.
Qed.

Lemma sort_by_of_sorted l : Sorted (key_le key) l -> sort_by key l = l.
Proof.
  induction 1 as [|x l Hs IH Hhd]; [reflexivity|].
  cbn. fold (sort_by key l). rewrite IH.
  destruct Hhd as [|y l' Hy]; [reflexivity|]. cbn.
  unfold key_le in Hy. by rewrite Hy.
Qed.

Lemma sort_by_idem l : sort_by key (sort_by key l) = sort_by key l.
Proof. apply sort_by_of_sorted, sort_by_sorted. Qed.
End SortFacts.

Lemma sort_by_map {A B} (key : B -> string) (g : A -> B) (l : list A) :
  sort_by key (map g l) = map g (sort_by (fun x => key (g x)) l).
Proof.
  induction l as [|x l IH]; [reflexivity|].
  cbn. fold (sort_by key (map g l)). fold (sort_by (fun x => key (g x)) l).
  rewrite IH. generalize (sort_by (fun x => key (g x)) l). intros l'.
  induction l' as [|y l' IH']; [reflexivity|]. cbn.
  destruct (String.leb (key (g x)) (key (g y))); cbn; [reflexivity|].
  by rewrite IH'.
Qed.

Lemma sort_by_ext {A} (k1 k2 : A -> string) l :
  (forall x, k1 x = k2 x) -> sort_by k1 l = sort_by k2 l.
Proof.
  intros E. induction l as [|x l IH]; [reflexivity|].
  cbn. fold (sort_by k1 l). fold (sort_by k2 l). rewrite IH.
  generalize (sort_by k2 l). intros l'.
  induction l' as [|y l' IH']; [reflexivity|]. cbn.
  rewrite !E. destruct (String.leb (k2 x) (k2 y)); [reflexivity|].
  by rewrite IH'.
Qed.

(** ** Lowercasing *)
Lemma lower_ascii_idem c : lower_ascii (lower_ascii c) = lower_ascii c.
Proof.
  destruct c as [[] [] [] [] [] [] [] []]; vm_compute; reflexivity.
Qed.

Lemma to_lowercase_idem s : to_lowercase (to_lowercase s) = to_lowercase s.
Proof.
  induction s as [|c s IH]; [reflexivity|].
  cbn. by rewrite lower_ascii_idem, IH.
Qed.

(** ** The enrichment stage *)
Section Enrichment.
Import GNN.

Ltac run := unfold bind, ret, raise, read, gets, modify; cbn.

Lemma write_targets_twice f t t' fs :
  write_targets f t (write_targets f t' fs) = write_targets f t fs.
Proof. destruct f; reflexivity. Qed.

Lemma targets_of_write f t fs : targets_of f (write_targets f t fs) = Some t.
Proof. destruct f; reflexivity. Qed.

Lemma targets_only_refl f fs : targets_only f fs fs.
Proof. by left. Qed.

Lemma targets_only_write f t fs : targets_only f fs (write_targets f t fs).
Proof. right. by exists t. Qed.

Lemma targets_only_trans f fs1 fs2 fs3 :
  targets_only f fs1 fs2 -> targets_only f fs2 fs3 -> targets_only f fs1 fs3.
Proof.
  intros [->|[t ->]] [->|[t' ->]]; try (by left); right; eauto.
  exists t'. apply write_targets_twice.
Qed.

Lemma targets_only_edges f fs fs' :
  targets_only f fs fs' -> edges_all fs' = edges_all fs.
Proof. intros [->|[t ->]]; [reflexivity|]. destruct f; reflexivity. Qed.

Lemma targets_only_meta f g fs fs' :
  targets_only f fs fs' -> meta_of g fs' = meta_of g fs.
Proof. intros [->|[t ->]]; [reflexivity|]. destruct f, g; reflexivity. Qed.

Lemma targets_only_global f fs fs' :
  targets_only f fs fs' -> targets_global fs' = targets_global fs.
Proof. intros [->|[t ->]]; [reflexivity|]. destruct f; reflexivity. Qed.

Lemma targets_only_other f g fs fs' :
  f <> g -> targets_only f fs fs' -> targets_of g fs' = targets_of g fs.
Proof.
  intros Hn [->|[t ->]]; [reflexivity|]. destruct f, g; try reflexivity; done.
Qed.

Lemma flush_spec f chunks fs :
  flush f chunks fs
  = (Returned tt,
     write_targets f (table (targets_of f fs) ++ concat chunks) fs).
Proof. unfold flush. run. destruct (targets_of f fs); reflexivity. Qed.

Lemma windows_loop_spec f tg edges meta : forall cnts chunks fs,
  edges_all fs = Some edges ->
  exists chunks' fs',
    windows_loop f tg meta cnts chunks fs
    = (Returned (cnts ++ map (nodes_cnt_row edges) meta, chunks'), fs')
    /\ targets_only f fs fs'
    /\ table (targets_of f fs') ++ concat chunks'
       = table (targets_of f fs) ++ concat chunks
         ++ concat (map (targets_win tg edges) meta).
Proof.
  induction meta as [|row meta IH]; intros cnts chunks fs He.
  - exists chunks, fs. cbn. run. rewrite !app_nil_r.
    auto using targets_only_refl.
  - cbn [windows_loop]. unfold bind at 1. unfold read at 1. rewrite He.
    set (targets := targets_win tg edges row).
    set (chunks1 := match targets with
                    | [] => chunks | _ :: _ => chunks ++ [targets] end).
    assert (Hc : concat chunks1 = concat chunks ++ targets).
    { subst chunks1. destruct targets; [by rewrite app_nil_r|].
      rewrite concat_app. cbn. by rewrite app_nil_r. }
    unfold bind at 1.
    destruct (chunk_size <=? length chunks1)%nat.
    + unfold bind at 1. rewrite flush_spec. unfold ret at 1.
      set (fs1 := write_targets f _ fs).
      destruct (IH (cnts ++ [nodes_cnt_row edges row]) [] fs1)
        as (chunks' & fs' & Hrun & Hto & Heq).
      { subst fs1. destruct f; exact He. }
      exists chunks', fs'. split; [|split].
      * unfold nodes_cnt_row in Hrun at 1. rewrite Hrun.
        cbn [map]. by rewrite <- app_assoc.
      * eapply targets_only_trans; [apply targets_only_write|exact Hto].
      * rewrite Heq. subst fs1. rewrite targets_of_write. cbn [concat map].
        rewrite Hc. cbn. by rewrite <- !app_assoc.
    + unfold ret at 1.
      destruct (IH (cnts ++ [nodes_cnt_row edges row]) chunks1 fs He)
        as (chunks' & fs' & Hrun & Hto & Heq).
      exists chunks', fs'. split; [|split]; [|exact Hto|].
      * unfold nodes_cnt_row in Hrun at 1. rewrite Hrun.
        cbn [map]. by rewrite <- app_assoc.
      * rewrite Heq, Hc. cbn [concat map]. by rewrite <- !app_assoc.
Qed.

(** One frequency of the stage, when its index and the edge table are
    present: the targets file gets the batch appended, then the index is
    joined with the node counts and rewritten. *)
Lemma process_freq_spec f tg fs mt edges :
  meta_of f fs = Some mt -> edges_all fs = Some edges ->
  let sorted := sort_by window (rows mt) in
  exists fs2,
    targets_only f fs fs2
    /\ table (targets_of f fs2)
       = table (targets_of f fs) ++ targets_batch tg edges (rows mt)
    /\ process_freq f tg fs
       = match sorted with
         | [] => (Returned tt, fs2)
         | _ =>
             match join_nodes_cnt f
                     {| more_columns := more_columns mt; rows := sorted |}
                     (map (nodes_cnt_row edges) sorted) with
             | Raised e => (Raised e, fs2)
             | Returned m => (Returned tt, write_meta f m fs2)
             end
         end.
Proof.
  intros Hm He sorted. unfold process_freq.
  unfold bind at 1. unfold read at 1. rewrite Hm. cbn [rows more_columns].
  fold sorted.
  destruct (windows_loop_spec f tg edges sorted [] [] fs He)
    as (chunks' & fs1 & Hrun & Hto & Heq).
  cbn [app concat] in Heq, Hrun. unfold bind at 1. rewrite Hrun.
  set (fs2 := match chunks' with
              | [] => fs1
              | _ => write_targets f
                       (table (targets_of f fs1) ++ concat chunks') fs1
              end).
  exists fs2. split; [|split].
  - subst fs2. destruct chunks'; [exact Hto|].
    eapply targets_only_trans; [exact Hto|apply targets_only_write].
  - unfold targets_batch. fold sorted. rewrite <- Heq. subst fs2.
    destruct chunks'; [by rewrite app_nil_r|]. by rewrite targets_of_write.
  - unfold bind at 1.
    assert (Hfl : (match chunks' with
                   | [] => ret tt
                   | _ => flush f chunks'
                   end) fs1 = (Returned tt, fs2)).
    { subst fs2. destruct chunks'; [reflexivity|apply flush_spec]. }
    rewrite Hfl. destruct sorted as [|r rs]; [reflexivity|].
    cbn [map].
    destruct (join_nodes_cnt f _ _); reflexivity.
Qed.

Lemma process_freq_no_meta f tg fs :
  meta_of f fs = None ->
  process_freq f tg fs = (Raised (FileNotFoundError (meta_fp f)), fs).
Proof.
  intros Hm. unfold process_freq, bind at 1. unfold read at 1.
  by rewrite Hm.
Qed.

Lemma process_freq_no_edges f tg fs :
  edges_all fs = None -> exists o, process_freq f tg fs = (o, fs).
Proof.
  intros He. destruct (meta_of f fs) as [mt|] eqn:Hm;
    [|rewrite process_freq_no_meta by done; eauto].
  unfold process_freq, bind at 1. unfold read at 1. rewrite Hm.
  cbn [rows]. destruct (sort_by window (rows mt)) as [|r rs].
  - eexists. reflexivity.
  - cbn [windows_loop]. unfold bind, read. rewrite He. eauto.
Qed.

(** The join, for an index whose labels are distinct: every row gets
    the count of its own window. *)
Lemma filter_key_none edges k l :
  (forall y, y ∈ l -> window y <> k) ->
  filter (fun a : string * Z => a.1 = k) (map (nodes_cnt_row edges) l) = [].
Proof.
  induction l as [|x l IH]; intros H; [reflexivity|].
  cbn [map]. rewrite filter_cons. cbn [fst nodes_cnt_row].
  destruct (decide (window x = k)) as [E|_].
  - exfalso. eapply H; [left|exact E].
  - apply IH. intros y Hy. apply H. by right.
Qed.

Lemma filter_key_one edges l r :
  NoDup (map window l) -> r ∈ l ->
  filter (fun a : string * Z => a.1 = window r) (map (nodes_cnt_row edges) l)
  = [nodes_cnt_row edges r].
Proof.
  induction l as [|x l IH]; intros Hnd Hin.
  - by apply not_elem_of_nil in Hin.
  - cbn [map] in *. apply NoDup_cons in Hnd as [Hni Hnd].
    rewrite filter_cons. cbn [fst nodes_cnt_row].
    assert (Hx : forall y, y ∈ l -> window y <> window x).
    { intros y Hy E. apply Hni. rewrite <- E.
      apply list_elem_of_In, in_map, list_elem_of_In, Hy. }
    apply elem_of_cons in Hin as [->|Hin].
    + rewrite decide_True by done. f_equal. by apply filter_key_none.
    + rewrite decide_False by (intros E; by apply (Hx r)). by apply IH.
Qed.

Lemma join_rows_distinct edges l :
  NoDup (map window l) ->
  flat_map (join_row (map (nodes_cnt_row edges) l)) l = map (counted edges) l.
Proof.
  intros Hnd.
  assert (H : forall l0, (forall r, r ∈ l0 -> r ∈ l) ->
            flat_map (join_row (map (nodes_cnt_row edges) l)) l0
            = map (counted edges) l0).
  { induction l0 as [|r l0 IH]; intros Hsub; [reflexivity|].
    cbn [flat_map map]. rewrite IH by (intros; apply Hsub; by right).
    unfold join_row at 1. rewrite filter_key_one by (auto; apply Hsub; by left).
    reflexivity. }
  by apply H.
Qed.

Lemma join_nodes_cnt_first f cols l edges :
  cols = [] -> NoDup (map window l) ->
  join_nodes_cnt f {| more_columns := cols; rows := l |}
    (map (nodes_cnt_row edges) l)
  = Returned {| more_columns := ["nodes_cnt"];
                rows := map (counted edges) l |}.
Proof.
  intros -> Hnd. unfold join_nodes_cnt. cbn [rows more_columns].
  rewrite join_rows_distinct by done. by destruct f.
Qed.

Lemma join_nodes_cnt_second f cols l edges :
  cols = ["nodes_cnt"] -> NoDup (map window l) ->
  join_nodes_cnt f {| more_columns := cols; rows := l |}
    (map (nodes_cnt_row edges) l)
  = Returned {| more_columns := ["nodes_cnt"; "nodes_cnt_right"];
                rows := map (counted edges) l |}.
Proof.
  intros -> Hnd. unfold join_nodes_cnt. cbn [rows more_columns].
  rewrite join_rows_distinct by done. by destruct f.
Qed.

Lemma join_nodes_cnt_third f l add :
  join_nodes_cnt f
    {| more_columns := ["nodes_cnt"; "nodes_cnt_right"]; rows := l |} add
  = Raised (DuplicateError "nodes_cnt_right").
Proof. by destruct f. Qed.

Lemma sort_by_counted edges l :
  sort_by window (map (counted edges) l)
  = map (counted edges) (sort_by window l).
Proof. rewrite sort_by_map. reflexivity. Qed.

Lemma targets_win_counted tg edges r :
  targets_win tg edges (counted edges r) = targets_win tg edges r.
Proof. reflexivity. Qed.

Lemma nodes_cnt_row_counted edges r :
  nodes_cnt_row edges (counted edges r) = nodes_cnt_row edges r.
Proof. reflexivity. Qed.

Lemma NoDup_window_sorted (l : list WindowRow) :
  NoDup (map window l) -> NoDup (map window (sort_by window l)).
Proof.
  intros H.
  assert (Hp : map window (sort_by window l) ≡ₚ map window l)
    by apply Permutation_map, sort_by_perm.
  by rewrite Hp.
Qed.

Lemma targets_win_NoDup tg edges r : NoDup (targets_win tg edges r).
Proof.
  unfold targets_win. apply NoDup_fmap_2.
  - intros x y E. by injection E.
  - apply NoDup_filter, NoDup_remove_dups.
Qed.

Lemma targets_win_label tg edges r p :
  p ∈ targets_win tg edges r -> p.1 = window r.
Proof.
  unfold targets_win. intros H.
  apply list_elem_of_In, in_map_iff in H as (n & <- & _). reflexivity.
Qed.

Lemma targets_rows_NoDup tg edges (l : list WindowRow) :
  NoDup (map window l) -> NoDup (concat (map (targets_win tg edges) l)).
Proof.
  induction l as [|r l IH]; intros Hnd; cbn; [constructor|].
  cbn in Hnd. apply NoDup_cons in Hnd as [Hni Hnd].
  apply NoDup_app. split; [apply targets_win_NoDup|]. split; [|by apply IH].
  intros p Hp Hq. apply targets_win_label in Hp.
  apply list_elem_of_In, in_concat in Hq as (t & Ht & Hq).
  apply in_map_iff in Ht as (r' & <- & Hr').
  apply list_elem_of_In, targets_win_label in Hq.
  apply Hni. rewrite <- Hp, Hq. apply list_elem_of_In, in_map, Hr'.
Qed.

Lemma targets_batch_NoDup tg edges (l : list WindowRow) :
  NoDup (map window l) -> NoDup (targets_batch tg edges l).
Proof.
  intros H. apply targets_rows_NoDup, NoDup_window_sorted, H.
Qed.

Lemma sorted_nil_rows {A} (key : A -> string) (l : list A) :
  sort_by key l = [] -> l = [].
Proof.
  intros H. apply Permutation_nil. rewrite <- H.
  apply (sort_by_perm key l).
Qed.

Lemma map_window_counted edges l :
  map window (map (counted edges) l) = map window l.
Proof. rewrite map_map. reflexivity. Qed.


(** A run of one frequency on an index whose labels are distinct and that
    has been joined at most once before. *)
Lemma process_freq_ok f tg fs mt edges :
  meta_of f fs = Some mt -> edges_all fs = Some edges ->
  more_columns mt = [] \/ more_columns mt = ["nodes_cnt"] ->
  NoDup (map window (rows mt)) ->
  exists fs' mt',
    process_freq f tg fs = (Returned tt, fs')
    /\ table (targets_of f fs')
       = table (targets_of f fs) ++ targets_batch tg edges (rows mt)
    /\ meta_of f fs' = Some mt'
    /\ rows mt' = map (counted edges) (sort_by window (rows mt))
    /\ (more_columns mt = [] ->
        more_columns mt' = [] \/ more_columns mt' = ["nodes_cnt"])
    /\ edges_all fs' = edges_all fs
    /\ targets_global fs' = targets_global fs
    /\ (forall g, g <> f ->
          meta_of g fs' = meta_of g fs /\ targets_of g fs' = targets_of g fs).
Proof.
  intros Hm He Hcols Hnd.
  destruct (process_freq_spec f tg fs mt edges Hm He) as (fs2 & Hto & Ht & Hrun).
  cbv zeta in Hrun.
  pose proof (NoDup_window_sorted _ Hnd) as Hnds.
  destruct (sort_by window (rows mt)) as [|r rs] eqn:Es.
  - exists fs2, mt. apply sorted_nil_rows in Es.
    split; [exact Hrun|]. split; [exact Ht|].
    split; [by rewrite (targets_only_meta f f fs fs2 Hto)|].
    split; [by rewrite Es|]. split; [by left|].
    split; [apply (targets_only_edges f fs fs2 Hto)|].
    split; [apply (targets_only_global f fs fs2 Hto)|].
    intros g Hg. split.
    + apply (targets_only_meta f g fs fs2 Hto).
    + by apply (targets_only_other f g fs fs2).
  - assert (Hj : exists cols',
              join_nodes_cnt f
                {| more_columns := more_columns mt; rows := r :: rs |}
                (map (nodes_cnt_row edges) (r :: rs))
              = Returned {| more_columns := cols';
                            rows := map (counted edges) (r :: rs) |}
              /\ (more_columns mt = [] -> cols' = ["nodes_cnt"])).
    { destruct Hcols as [Hc|Hc].
      - eexists. split; [by apply join_nodes_cnt_first|done].
      - eexists. split; [by apply join_nodes_cnt_second|].
        rewrite Hc. done. }
    destruct Hj as (cols' & Hj & Hc'). rewrite Hj in Hrun.
    eexists _, _. split; [exact Hrun|].
    assert (Hwm : forall m g, targets_of g (write_meta f m fs2) = targets_of g fs2)
      by (intros ? []; destruct f; reflexivity).
    rewrite Hwm. split; [exact Ht|].
    split; [destruct f; reflexivity|]. cbn [rows more_columns].
    split; [reflexivity|]. split; [intros H; right; auto|].
    split; [destruct f; apply (targets_only_edges _ _ _ Hto)|].
    split; [destruct f; apply (targets_only_global _ _ _ Hto)|].
    intros g Hg. rewrite Hwm. split.
    + rewrite <- (targets_only_meta f g fs fs2 Hto).
      destruct f, g; try reflexivity; done.
    + by apply (targets_only_other f g fs fs2).
Qed.

Lemma enrich_ok fs tg edges :
  targets_global fs = Some tg -> edges_all fs = Some edges ->
  (forall f, exists mt, meta_of f fs = Some mt /\ joinable mt) ->
  exists fs',
    enrich_meta_and_build_targets fs = (Returned tt, fs')
    /\ targets_global fs' = Some tg /\ edges_all fs' = Some edges
    /\ forall f mt, meta_of f fs = Some mt ->
         table (targets_of f fs')
         = table (targets_of f fs)
           ++ targets_batch (remove_dups (map node_id tg)) edges (rows mt)
         /\ exists mt',
             meta_of f fs' = Some mt'
             /\ rows mt' = map (counted edges) (sort_by window (rows mt))
             /\ (more_columns mt = [] ->
                 more_columns mt' = [] \/ more_columns mt' = ["nodes_cnt"]).
Proof.
  intros Htg He Hmeta. set (ids := remove_dups (map node_id tg)).
  destruct (Hmeta Month) as (mm & Hmm & Hcm & Hnm).
  destruct (Hmeta Week) as (wm & Hwm & Hcw & Hnw).
  destruct (process_freq_ok Month ids fs mm edges Hmm He Hcm Hnm)
    as (fs1 & mm' & Hrun1 & Ht1 & Hm1 & Hr1 & Hc1 & He1 & Hg1 & Hf1).
  destruct (Hf1 Week ltac:(done)) as [Hwm1 Hwt1].
  rewrite Hwm in Hwm1. rewrite He in He1.
  destruct (process_freq_ok Week ids fs1 wm edges Hwm1 He1 Hcw Hnw)
    as (fs2 & wm' & Hrun2 & Ht2 & Hm2 & Hr2 & Hc2 & He2 & Hg2 & Hf2).
  destruct (Hf2 Month ltac:(done)) as [Hmm2 Hmt2].
  exists fs2. split; [|split; [|split]].
  - unfold enrich_meta_and_build_targets, bind at 1. unfold read at 1.
    rewrite Htg. fold ids. unfold bind. rewrite Hrun1. exact Hrun2.
  - by rewrite Hg2, Hg1.
  - by rewrite He2.
  - intros [] mt Hmt.
    + cbn [meta_of] in Hmt, Hmm. rewrite Hmm in Hmt. injection Hmt as <-.
      rewrite Hmt2, Hmm2. split; [exact Ht1|]. exists mm'. auto.
    + cbn [meta_of] in Hmt, Hwm. rewrite Hwm in Hmt. injection Hmt as <-.
      rewrite Hwt1 in Ht2. split; [exact Ht2|]. exists wm'. auto.
Qed.


(** Whatever the outcome of one frequency, the targets file of that
    frequency either keeps its rows or gets the batch appended, and the
    files of the other frequency are not touched. *)
Lemma process_freq_targets f tg fs :
  exists o fs',
    process_freq f tg fs = (o, fs')
    /\ edges_all fs' = edges_all fs
    /\ (forall g, g <> f ->
          meta_of g fs' = meta_of g fs /\ targets_of g fs' = targets_of g fs)
    /\ (table (targets_of f fs') = table (targets_of f fs)
        \/ exists mt edges,
             meta_of f fs = Some mt /\ edges_all fs = Some edges
             /\ table (targets_of f fs')
                = table (targets_of f fs) ++ targets_batch tg edges (rows mt)).
Proof.
  destruct (meta_of f fs) as [mt|] eqn:Hm.
  2:{ exists (Raised (FileNotFoundError (meta_fp f))), fs.
      rewrite process_freq_no_meta by done. auto. }
  destruct (edges_all fs) as [edges|] eqn:He.
  2:{ destruct (process_freq_no_edges f tg fs He) as [o Ho].
      exists o, fs. auto. }
  destruct (process_freq_spec f tg fs mt edges Hm He) as (fs2 & Hto & Ht & Hrun).
  cbv zeta in Hrun.
  assert (Hw : forall m,
            edges_all (write_meta f m fs2) = edges_all fs2
            /\ (forall g, targets_of g (write_meta f m fs2) = targets_of g fs2)
            /\ (forall g, g <> f ->
                  meta_of g (write_meta f m fs2) = meta_of g fs2)).
  { intros m. split; [by destruct f|]. split; [intros []; by destruct f|].
    intros [] Hg; destruct f; try reflexivity; done. }
  assert (Hfin : forall fs', fs' = fs2 \/ (exists m, fs' = write_meta f m fs2) ->
            edges_all fs' = Some edges
            /\ (forall g, g <> f ->
                  meta_of g fs' = meta_of g fs
                  /\ targets_of g fs' = targets_of g fs)
            /\ table (targets_of f fs')
               = table (targets_of f fs) ++ targets_batch tg edges (rows mt)).
  { intros fs' [->|[m ->]].
    - split; [by rewrite (targets_only_edges f fs fs2 Hto)|]. split; [|done].
      intros g Hg. split; [apply (targets_only_meta f g fs fs2 Hto)|].
      by apply (targets_only_other f g fs fs2).
    - destruct (Hw m) as (Hw1 & Hw2 & Hw3).
      split; [by rewrite Hw1, (targets_only_edges f fs fs2 Hto)|].
      split; [|by rewrite Hw2].
      intros g Hg. rewrite Hw2, Hw3 by done.
      split; [apply (targets_only_meta f g fs fs2 Hto)|].
      by apply (targets_only_other f g fs fs2). }
  assert (Hex : exists o fs',
            process_freq f tg fs = (o, fs')
            /\ (fs' = fs2 \/ exists m, fs' = write_meta f m fs2)).
  { rewrite Hrun. destruct (sort_by window (rows mt)); [eauto|].
    destruct (join_nodes_cnt f _ _); eauto 6. }
  destruct Hex as (o & fs' & Hr & Hfs'). exists o, fs'.
  destruct (Hfin fs' Hfs') as (H1 & H2 & H3).
  split; [exact Hr|]. split; [done|]. split; [exact H2|].
  right. exists mt, edges. auto.
Qed.


Lemma elem_of_nodes_win edges lo hi n :
  n ∈ nodes_win edges lo hi ->
  exists e, e ∈ edges /\ lo <= ts e <= hi /\ (src_id e = n \/ dst_id e = n).
Proof.
  unfold nodes_win. rewrite elem_of_remove_dups, elem_of_app.
  intros [H|H]; apply list_elem_of_In, in_map_iff in H as (e & <- & He);
    apply list_elem_of_In, list_elem_of_filter in He as [[H1 H2] He];
    exists e; (split; [done|split; [|auto]]); lia.
Qed.


End Enrichment.

(** ** The export stage *)
Section ExportStage.
Import GNN.

Lemma extends_refl fs : extends fs fs.
Proof. unfold extends. repeat split; reflexivity. Qed.

Lemma extends_trans fs1 fs2 fs3 :
  extends fs1 fs2 -> extends fs2 fs3 -> extends fs1 fs3.
Proof.
  unfold extends.
  intros (?&?&?&?&?&?&?&?&?&?&?&?) (?&?&?&?&?&?&?&?&?&?&?&?).
  repeat split; try congruence; etrans; eauto.
Qed.

Lemma extends_mkdir p fs : extends fs (mkdir p fs).
Proof.
  unfold extends. cbn. repeat split; try reflexivity.
  apply union_subseteq_r.
Qed.

Lemma extends_write_part f l t fs :
  parts_of f fs !! l = None -> extends fs (write_part f l t fs).
Proof.
  intros H. unfold extends. destruct f; cbn in *;
    repeat split; try reflexivity; by apply insert_subseteq.
Qed.

Lemma extends_meta f fs fs' : extends fs fs' -> meta_of f fs' = meta_of f fs.
Proof. intros (_&_&_&Hm&Hw&_). by destruct f. Qed.

Lemma extends_parts f fs fs' l t :
  extends fs fs' -> parts_of f fs !! l = Some t -> parts_of f fs' !! l = Some t.
Proof.
  intros (_&_&_&_&_&_&_&_&_&Hm&Hw&_) Hl.
  destruct f; cbn in *; eapply lookup_weaken; eauto.
Qed.

Lemma extends_exported f meta fs fs' :
  extends fs fs' -> exported f meta fs -> exported f meta fs'.
Proof.
  intros He H row Hrow. destruct (H row Hrow) as [[t Ht] Hd]. split.
  - exists t. by apply (extends_parts f fs fs').
  - destruct He as (_&_&_&_&_&_&_&_&_&_&_&Hs). by apply Hs.
Qed.

Lemma mkdir_present p fs : p ∈ dirs fs -> mkdir p fs = fs.
Proof.
  intros H. destruct fs. unfold mkdir. cbn in *. f_equal.
  by apply subseteq_union_1_L, singleton_subseteq_l.
Qed.

(** The loop only adds files and directories, whatever its outcome. *)
Lemma export_loop_extends f meta : forall fs o fs',
  export_loop f meta fs = (o, fs') -> extends fs fs'.
Proof.
  induction meta as [|row meta IH]; intros fs o fs' H.
  - injection H as _ <-. apply extends_refl.
  - cbn [export_loop] in H. unfold bind at 1, modify at 1 in H.
    unfold bind at 1, gets at 1 in H.
    pose proof (extends_mkdir (part_dir f (window row)) fs) as Hd.
    destruct (parts_of f (mkdir (part_dir f (window row)) fs) !! window row)
      as [t|] eqn:Hp.
    + eapply extends_trans; [exact Hd|]. eapply IH, H.
    + unfold bind at 1, read at 1 in H.
      destruct (edges_all (mkdir (part_dir f (window row)) fs)) as [edges|].
      * unfold bind at 1, modify at 1 in H.
        eapply extends_trans; [exact Hd|].
        eapply extends_trans; [by apply extends_write_part|].
        eapply IH, H.
      * injection H as _ <-. exact Hd.
Qed.

(** When it returns, every window has its file. *)
Lemma export_loop_exported f meta : forall fs fs',
  export_loop f meta fs = (Returned tt, fs') -> exported f meta fs'.
Proof.
  induction meta as [|row meta IH]; intros fs fs' H r Hr.
  - by apply not_elem_of_nil in Hr.
  - cbn [export_loop] in H. unfold bind at 1, modify at 1 in H.
    unfold bind at 1, gets at 1 in H.
    set (fs0 := mkdir (part_dir f (window row)) fs) in *.
    assert (Hd0 : part_dir f (window row) ∈ dirs fs0)
      by (subst fs0; cbn; apply elem_of_union_l, elem_of_singleton;
          reflexivity).
    assert (Hstep : exists fs1,
              export_loop f meta fs1 = (Returned tt, fs')
              /\ is_Some (parts_of f fs1 !! window row)
              /\ part_dir f (window row) ∈ dirs fs1).
    { destruct (parts_of f fs0 !! window row) as [t|] eqn:Hp.
      - exists fs0. rewrite Hp. eauto.
      - unfold bind at 1, read at 1 in H.
        destruct (edges_all fs0) as [edges|]; [|discriminate].
        unfold bind at 1, modify at 1 in H.
        eexists. split; [exact H|]. split; [|by destruct f].
        destruct f; cbn; rewrite lookup_insert_eq; eauto. }
    destruct Hstep as (fs1 & Hrun & Hp1 & Hd1).
    apply elem_of_cons in Hr as [->|Hr].
    + apply (extends_exported f [row] fs1 fs').
      * eapply export_loop_extends, Hrun.
      * intros r Hr%list_elem_of_singleton. by subst.
      * by left.
    + by apply (IH fs1 fs' Hrun).
Qed.

(** When every window already has its file, the loop changes nothing. *)
Lemma export_loop_noop f meta fs :
  exported f meta fs -> export_loop f meta fs = (Returned tt, fs).
Proof.
  induction meta as [|row meta IH]; intros H; [reflexivity|].
  destruct (H row ltac:(by left)) as [[t Ht] Hd].
  cbn [export_loop]. unfold bind at 1, modify at 1.
  rewrite mkdir_present by done.
  unfold bind at 1, gets at 1. rewrite Ht.
  apply IH. intros r Hr. apply H. by right.
Qed.

Lemma export_freq_read f fs mt :
  meta_of f fs = Some mt ->
  export_freq f fs = export_loop f (sort_by window (rows mt)) fs.
Proof. intros H. unfold export_freq, bind, read. by rewrite H. Qed.

Lemma export_freq_returned f fs fs' :
  export_freq f fs = (Returned tt, fs') ->
  exists mt, meta_of f fs = Some mt
    /\ export_loop f (sort_by window (rows mt)) fs = (Returned tt, fs').
Proof.
  intros H. destruct (meta_of f fs) as [mt|] eqn:Hm.
  - exists mt. by rewrite (export_freq_read f fs mt Hm) in H.
  - unfold export_freq, bind, read in H. rewrite Hm in H. discriminate.
Qed.

(** C7.  A window whose partition file exists is skipped: the file stays
    as it was, and a second run of the export stage, with no source
    changes, leaves the state the first run produced. *)
Theorem export_windows_idempotent fs fs' :
  export_windows fs = (Returned tt, fs') ->
  (forall f label t,
      parts_of f fs !! label = Some t -> parts_of f fs' !! label = Some t)
  /\ export_windows fs' = (Returned tt, fs').
Proof.
  intros H. unfold export_windows, bind in H.
  destruct (export_freq Month fs) as [[[]|e] fs1] eqn:H1; [|discriminate].
  apply export_freq_returned in H1 as (mm & Hmm & H1).
  apply export_freq_returned in H as (wm & Hwm & H).
  pose proof (export_loop_extends _ _ _ _ _ H1) as E1.
  pose proof (export_loop_extends _ _ _ _ _ H) as E2.
  pose proof (extends_trans _ _ _ E1 E2) as E.
  split.
  - intros f label t. by apply extends_parts.
  - unfold export_windows, bind.
    rewrite (export_freq_read Month fs' mm)
      by (by rewrite (extends_meta Month fs fs' E)).
    rewrite export_loop_noop.
    + rewrite (export_freq_read Week fs' wm)
        by (by rewrite (extends_meta Week fs1 fs' E2)).
      apply export_loop_noop. by eapply export_loop_exported.
    + eapply extends_exported; [exact E2|].
      by eapply export_loop_exported.
Qed.
End ExportStage.

(** ** The window index *)
Section WindowIndex.
Import GNN.

Lemma foldr_min_spec x l :
  foldr Z.min x l ∈ x :: l /\ forall t, t ∈ x :: l -> foldr Z.min x l <= t.
Proof.
  induction l as [|y l [IHin IHle]]; cbn [foldr].
  - split; [by left|]. intros t Ht%list_elem_of_singleton. lia.
  - split.
    + destruct (Z.min_spec y (foldr Z.min x l)) as [[_ ->]|[_ ->]].
      * right. by left.
      * apply elem_of_cons in IHin as [->|Hin]; [by left|]. by do 2 right.
    + intros t Ht. apply elem_of_cons in Ht as [->|Ht].
      * specialize (IHle x ltac:(by left)). lia.
      * apply elem_of_cons in Ht as [->|Ht]; [lia|].
        specialize (IHle t ltac:(by right)). lia.
Qed.

Lemma foldr_max_spec x l :
  foldr Z.max x l ∈ x :: l /\ forall t, t ∈ x :: l -> t <= foldr Z.max x l.
Proof.
  induction l as [|y l [IHin IHle]]; cbn [foldr].
  - split; [by left|]. intros t Ht%list_elem_of_singleton. lia.
  - split.
    + destruct (Z.max_spec y (foldr Z.max x l)) as [[_ ->]|[_ ->]].
      * apply elem_of_cons in IHin as [->|Hin]; [by left|]. by do 2 right.
      * right. by left.
    + intros t Ht. apply elem_of_cons in Ht as [->|Ht].
      * specialize (IHle x ltac:(by left)). lia.
      * apply elem_of_cons in Ht as [->|Ht]; [lia|].
        specialize (IHle t ltac:(by right)). lia.
Qed.

Lemma column_bounds l t0 :
  t0 ∈ l ->
  column_min l ∈ l /\ column_max l ∈ l
  /\ forall t, t ∈ l -> column_min l <= t <= column_max l.
Proof.
  destruct l as [|x l]; [by intros ?%not_elem_of_nil|]. intros _.
  cbn [column_min column_max].
  destruct (foldr_min_spec x l) as [H1 H2], (foldr_max_spec x l) as [H3 H4].
  split; [done|]. split; [done|]. intros t Ht. split; auto.
Qed.

(** The label functions see only the day of a timestamp. *)
Lemma month_of_ts_day t :
  0 <= t < Calendar.ts_limit ->
  month_of_ts t = Calendar.strftime_Y_m (t / 86400).
Proof.
  intros H. unfold month_of_ts. by rewrite date_of_from_epoch.
Qed.

Lemma week_of_ts_day t :
  0 <= t < Calendar.ts_limit ->
  week_of_ts t = Calendar.strftime_G_W_V (t / 86400).
Proof.
  intros H. unfold week_of_ts. by rewrite date_of_from_epoch.
Qed.

(** The timestamps of one label form an interval. *)
Lemma label_of_ts_convex f a b c :
  0 <= a -> c < Calendar.ts_limit -> a <= b <= c ->
  label_of_ts f a = label_of_ts f c -> label_of_ts f b = label_of_ts f a.
Proof.
  intros Ha Hc Hb. unfold Calendar.ts_limit in *.
  assert (Hd : 0 <= a / 86400 /\ c / 86400 <= 2932531
               /\ a / 86400 <= b / 86400 <= c / 86400)
    by (Z.div_mod_to_equations; lia).
  destruct f; cbn [label_of_ts].
  - rewrite !month_of_ts_day by (unfold Calendar.ts_limit; lia).
    apply strftime_Y_m_convex; lia.
  - rewrite !week_of_ts_day by (unfold Calendar.ts_limit; lia).
    apply strftime_G_W_V_convex; lia.
Qed.

(** A row of the index: its bounds are timestamps of edges of its own
    label. *)
Lemma window_index_row f edges w :
  in_range edges -> w ∈ window_index f edges ->
  w = window_row (label_of_ts f) edges (window w)
  /\ 0 <= window_min_ts w <= window_end_ts w
  /\ window_end_ts w < Calendar.ts_limit
  /\ label_of_ts f (window_min_ts w) = window w
  /\ label_of_ts f (window_end_ts w) = window w
  /\ forall e, e ∈ edges -> label_of_ts f (ts e) = window w ->
       window_min_ts w <= ts e <= window_end_ts w.
Proof.
  intros Hr Hw. unfold window_index in Hw.
  rewrite elem_of_sort_by, list_elem_of_In, in_map_iff in Hw.
  destruct Hw as (l & <- & Hl).
  rewrite <- list_elem_of_In, elem_of_remove_dups, list_elem_of_In,
    in_map_iff in Hl.
  destruct Hl as (e0 & Hl0 & He0).
  apply list_elem_of_In in He0.
  cbn [window_row window window_min_ts window_end_ts].
  set (g := map ts (filter (fun e => label_of_ts f (ts e) = l) edges)).
  assert (Hg : forall t, t ∈ g <->
            exists e, e ∈ edges /\ label_of_ts f (ts e) = l /\ ts e = t).
  { intros t. subst g. rewrite list_elem_of_In, in_map_iff. split.
    - intros (e & <- & He). apply list_elem_of_In, list_elem_of_filter in He.
      exists e. tauto.
    - intros (e & He & Hle & <-). exists e. split; [done|].
      apply list_elem_of_In, list_elem_of_filter. done. }
  assert (H0 : ts e0 ∈ g) by (apply Hg; eauto).
  destruct (column_bounds g (ts e0) H0) as (Hmin & Hmax & Hb).
  pose proof (Hb _ H0) as Hle0.
  apply Hg in Hmin as (e1 & He1 & Hl1 & Hmin).
  apply Hg in Hmax as (e2 & He2 & Hl2 & Hmax).
  split; [reflexivity|].
  pose proof (Hr e1 He1). pose proof (Hr e2 He2).
  split; [lia|]. split; [lia|].
  split; [by rewrite <- Hmin|]. split; [by rewrite <- Hmax|].
  intros e He Hle. apply Hb, Hg. eauto.
Qed.

Lemma window_index_covers f edges e :
  e ∈ edges ->
  window_row (label_of_ts f) edges (label_of_ts f (ts e))
    ∈ window_index f edges.
Proof.
  intros He. unfold window_index.
  rewrite elem_of_sort_by, list_elem_of_In. apply in_map.
  rewrite <- list_elem_of_In, elem_of_remove_dups, list_elem_of_In.
  apply (in_map (fun e => label_of_ts f (ts e))).
  by apply list_elem_of_In.
Qed.

(** A timestamp of the valid range within the bounds of a row has the
    label of the row. *)
Lemma window_index_label f edges w t :
  in_range edges -> w ∈ window_index f edges ->
  window_min_ts w <= t <= window_end_ts w ->
  label_of_ts f t = window w.
Proof.
  intros Hr Hw Ht.
  destruct (window_index_row f edges w Hr Hw) as (_ & H0 & H1 & Hlo & Hhi & _).
  rewrite <- Hlo.
  apply label_of_ts_convex with (c := window_end_ts w); try lia.
  by rewrite Hlo, Hhi.
Qed.

Lemma window_index_same_label f edges w w' :
  in_range edges -> w ∈ window_index f edges -> w' ∈ window_index f edges ->
  window w = window w' -> w = w'.
Proof.
  intros Hr Hw Hw' E.
  destruct (window_index_row f edges w Hr Hw) as (-> & _).
  destruct (window_index_row f edges w' Hr Hw') as (-> & _).
  cbn [window_row window] in E. by rewrite E.
Qed.

(** C4.  For either granularity, every timestamp of the edge table (in
    the years 1970..9998) lies within the bounds of exactly one row of
    the index written by [build_window_index], and the bounds of two
    distinct rows do not overlap. *)
Theorem window_index_partition fs fs' f edges idx :
  build_window_index fs = (Returned tt, fs') ->
  edges_all fs = Some edges -> in_range edges ->
  meta_of f fs' = Some idx ->
  (forall e, e ∈ edges ->
     exists w, w ∈ rows idx
       /\ window_min_ts w <= ts e <= window_end_ts w
       /\ forall w', w' ∈ rows idx ->
            window_min_ts w' <= ts e <= window_end_ts w' -> w' = w)
  /\ (forall w w', w ∈ rows idx -> w' ∈ rows idx -> w <> w' ->
        window_end_ts w < window_min_ts w'
        \/ window_end_ts w' < window_min_ts w).
Proof.
  intros Hrun He Hr Hidx.
  assert (Hrows : rows idx = window_index f edges).
  { unfold build_window_index, bind, read, modify in Hrun.
    rewrite He in Hrun. injection Hrun as <-.
    destruct f; cbn in Hidx; injection Hidx as <-; reflexivity. }
  rewrite Hrows. split.
  - intros e Hin.
    pose proof (window_index_covers f edges e Hin) as Hw.
    set (w := window_row (label_of_ts f) edges (label_of_ts f (ts e))) in *.
    exists w. split; [exact Hw|].
    destruct (window_index_row f edges w Hr Hw) as (_ & _ & _ & _ & _ & Hb).
    split; [by apply Hb|].
    intros w' Hw' Ht. apply (window_index_same_label f edges); try done.
    rewrite <- (window_index_label f edges w' (ts e)) by done.
    reflexivity.
  - intros w w' Hw Hw' Hne.
    destruct (window_index_row f edges w Hr Hw) as (_ & Hm & _).
    destruct (window_index_row f edges w' Hr Hw') as (_ & Hm' & _).
    destruct (Z.lt_ge_cases (window_end_ts w) (window_min_ts w'))
      as [|H1]; [by left|].
    destruct (Z.lt_ge_cases (window_end_ts w') (window_min_ts w))
      as [|H2]; [by right|].
    exfalso. apply Hne.
    set (t := Z.max (window_min_ts w) (window_min_ts w')).
    apply (window_index_same_label f edges); try done.
    rewrite <- (window_index_label f edges w t) by (try done; lia).
    rewrite <- (window_index_label f edges w' t) by (try done; lia).
    reflexivity.
Qed.
End WindowIndex.

(** ** Decimal text: reading back what was written *)
Section DecimalFacts.
Import Calendar Dec.

Lemma digit_is_digit d : 0 <= d < 10 -> is_digit (digit d) = true.
Proof.
  intros H. unfold is_digit, digit. rewrite N_ascii_embedding by lia.
  apply andb_true_intro. split; apply N.leb_le; lia.
Qed.

Lemma digit_value_digit d : 0 <= d < 10 -> digit_value (digit d) = d.
Proof.
  intros H. unfold digit_value, digit. rewrite N_ascii_embedding by lia. lia.
Qed.

Lemma parse_digits_le n : forall v rest a,
  0 <= v ->
  parse_digits (digits_le n v rest) a
  = parse_digits rest (a * 10 ^ Z.of_nat n + v mod 10 ^ Z.of_nat n).
Proof.
  induction n as [|k IH]; intros v rest a Hv.
  - cbn [digits_le]. f_equal. change (10 ^ Z.of_nat 0) with 1.
    rewrite Z.mod_1_r. lia.
  - cbn [digits_le]. rewrite IH by (apply Z.div_pos; lia).
    assert (Hd : 0 <= v mod 10 < 10) by (apply Z.mod_pos_bound; lia).
    cbn [parse_digits]. rewrite digit_is_digit, digit_value_digit by done.
    f_equal. rewrite Nat2Z.inj_succ, Z.pow_succ_r by lia.
    rewrite (Z.rem_mul_r v 10 (10 ^ Z.of_nat k)) by lia. lia.
Qed.

Lemma parse_pad n v :
  0 <= v < 10 ^ Z.of_nat n -> parse_digits (pad n v) 0 = Some v.
Proof.
  intros H. unfold pad. rewrite parse_digits_le by lia.
  cbn [parse_digits]. f_equal. rewrite Z.mod_small by lia. lia.
Qed.

Lemma all_digits_le n : forall v rest,
  0 <= v -> all_digits rest = true -> all_digits (digits_le n v rest) = true.
Proof.
  induction n as [|k IH]; intros v rest Hv Hr; [exact Hr|].
  cbn [digits_le]. apply IH; [apply Z.div_pos; lia|].
  cbn [all_digits]. rewrite digit_is_digit, Hr; [done|].
  apply Z.mod_pos_bound. lia.
Qed.

Lemma digits_le_cons n : forall v rest,
  exists c s, digits_le (S n) v rest = String c s.
Proof.
  induction n as [|k IH]; intros v rest.
  - cbn. eauto.
  - change (digits_le (S (S k)) v rest)
      with (digits_le (S k) (v / 10) (String (digit (v mod 10)) rest)).
    apply IH.
Qed.

Lemma strip_zeros_spec s :
  parse_digits (strip_zeros s) 0 = parse_digits s 0
  /\ (all_digits s = true -> all_digits (strip_zeros s) = true)
  /\ (s <> EmptyString -> strip_zeros s <> EmptyString).
Proof.
  induction s as [|c s IH]; [done|].
  destruct s as [|c' s']; [done|].
  change (strip_zeros (String c (String c' s')))
    with (if Ascii.eqb c "0" then strip_zeros (String c' s')
          else String c (String c' s')).
  destruct (Ascii.eqb_spec c "0") as [->|Hc]; [|done].
  destruct IH as (IH1 & IH2 & IH3). split; [|split].
  - rewrite IH1. reflexivity.
  - intros H. apply IH2. cbn [all_digits] in H.
    by apply andb_prop in H as [_ H].
  - intros _. by apply IH3.
Qed.

Lemma decimal_spec v :
  0 <= v < 10 ^ 40 ->
  parse_digits (decimal v) 0 = Some v
  /\ all_digits (decimal v) = true
  /\ decimal v <> EmptyString.
Proof.
  intros H. unfold decimal.
  destruct (strip_zeros_spec (pad 40 v)) as (H1 & H2 & H3).
  split; [|split].
  - rewrite H1. by apply parse_pad.
  - apply H2. unfold pad. by apply all_digits_le; [lia|].
  - apply H3. unfold pad. destruct (digits_le_cons 39 v EmptyString) as (c & s & ->).
    done.
Qed.

Lemma is_digit_not_mark c :
  is_digit c = true ->
  Ascii.eqb c "." = false /\ Ascii.eqb c "-" = false
  /\ Ascii.eqb c "+" = false.
Proof.
  destruct c as [[] [] [] [] [] [] [] []]; vm_compute; intros H;
    solve [discriminate H | auto].
Qed.

Lemma split_point_digits s r :
  all_digits s = true -> split_point (s +:+ String "." r) = (s, Some r).
Proof.
  induction s as [|c s IH]; intros H; [reflexivity|].
  cbn [all_digits] in H. apply andb_prop in H as [Hc Hs].
  change (split_point (String c s +:+ String "." r))
    with (if Ascii.eqb c "." then (EmptyString, Some (s +:+ String "." r))
          else let '(a, b) := split_point (s +:+ String "." r) in
               (String c a, b)).
  destruct (is_digit_not_mark c Hc) as (-> & _). by rewrite (IH Hs).
Qed.

Lemma take_pad_pad9 v : take_pad scale (pad scale v) = pad scale v.
Proof. reflexivity. Qed.

Lemma all_digits_parse s a :
  all_digits s = true -> exists z, parse_digits s a = Some z.
Proof.
  revert a. induction s as [|c s IH]; intros a H; cbn; [eauto|].
  cbn [all_digits] in H. apply andb_prop in H as [-> Hs]. by apply IH.
Qed.

Lemma parse_unsigned_text i f :
  0 <= i < 10 ^ 40 -> 0 <= f < unit ->
  parse_unsigned (decimal i +:+ String "." (pad scale f))
  = Some (i * unit + f).
Proof.
  intros Hi Hf. destruct (decimal_spec i Hi) as (Hp & Hd & Hne).
  unfold parse_unsigned.
  rewrite split_point_digits by done.
  cbn [from_option id]. rewrite Hp, take_pad_pad9.
  rewrite (parse_pad scale f) by exact Hf.
  destruct (decimal i); done.
Qed.

(** Reading the text of a decimal gives the decimal back. *)
Lemma of_text_to_text v : Z.abs v < limit -> of_text (to_text v) = Some v.
Proof.
  intros H. unfold limit in H.
  assert (Hu : unit = 1000000000) by reflexivity.
  assert (Hi : 0 <= Z.abs v / unit < 10 ^ 40).
  { rewrite Hu. split; [apply Z.div_pos; lia|].
    apply Z.div_lt_upper_bound; lia. }
  assert (Hf : 0 <= Z.abs v mod unit < unit)
    by (apply Z.mod_pos_bound; rewrite Hu; lia).
  assert (Ha : Z.abs v / unit * unit + Z.abs v mod unit = Z.abs v).
  { rewrite Hu. Z.div_mod_to_equations. lia. }
  pose proof (parse_unsigned_text _ _ Hi Hf) as Hp.
  destruct (decimal_spec _ Hi) as (_ & Hd & Hne).
  unfold of_text, to_text.
  change ("." +:+ pad scale (Z.abs v mod unit))
    with (String "." (pad scale (Z.abs v mod unit))).
  destruct (Z.ltb_spec v 0) as [Hneg|Hpos].
  - set (X := decimal (Z.abs v / unit) +:+ String "." _) in *.
    change ("-" +:+ X) with (String "-" X). cbv iota.
    change (Ascii.eqb "-" "-") with true. cbv iota.
    rewrite Hp. cbn [option_map].
    rewrite Ha. replace (- Z.abs v) with v by lia.
    destruct (Z.ltb_spec (Z.abs v) limit) as [|Hge]; [done|].
    unfold limit in Hge. lia.
  - change (EmptyString +:+ ?x) with x.
    destruct (decimal (Z.abs v / unit)) as [|c s] eqn:E; [done|].
    cbn [all_digits] in Hd. apply andb_prop in Hd as [Hc _].
    change (String c s +:+ String "." (pad scale (Z.abs v mod unit)))
      with (String c (s +:+ String "." (pad scale (Z.abs v mod unit)))) at 1.
    cbv iota. destruct (is_digit_not_mark c Hc) as (_ & -> & ->).
    rewrite Hp, Ha. replace (Z.abs v) with v by lia.
    destruct (Z.ltb_spec (Z.abs v) limit) as [|Hge]; [done|].
    unfold limit in Hge. lia.
Qed.
End DecimalFacts.

(** ** The feature roll-up *)
Section Rollup.
Import LSTM.

Lemma wrap128_small z : Z.abs z < Dec.limit -> Dec.wrap128 z = z.
Proof.
  unfold Dec.limit, Dec.wrap128. intros H.
  change (2 ^ 127) with 170141183460469231731687303715884105728.
  change (2 ^ 128) with 340282366920938463463374607431768211456.
  change (10 ^ 38) with 100000000000000000000000000000000000000 in H.
  Z.div_mod_to_equations. lia.
Qed.





(** Every labelled daily row puts its week under its month in the
    week-to-month table: a week with days in two months is under both. *)
Lemma week_under_every_recorded_month daily r :
  r ∈ daily ->
  f_week r ∈ weeks_in_month (week_month_map daily) (f_month r).
Proof.
  intros Hr. unfold weeks_in_month, week_month_map.
  apply list_elem_of_In, in_map_iff. exists (f_week r, f_month r).
  split; [reflexivity|]. apply list_elem_of_In, list_elem_of_filter.
  split; [reflexivity|]. apply elem_of_remove_dups.
  apply list_elem_of_In.
  apply (in_map (fun r => (f_week r, f_month r))), list_elem_of_In, Hr.
Qed.

(** C2, on the code.  The week of 2021-03-29 has days in March and in
    April.  With daily rows of one node on 2021-03-31 and 2021-04-01, the
    week-to-month table holds the week under both months, and the weekly
    total of the node (3) is written to the rows of both months: the
    week is not assigned to exactly one month. *)
Lemma boundary_week_in_two_months :
  let r := main Sample.indexed Sample.daily_source in
  let wm := week_month_map (default [] (daily_out r.2)) in
  r.1 = Returned tt
  /\ wm = [("2021-W13", "2021-03"); ("2021-W13", "2021-04")]
  /\ weeks_in_month wm "2021-03" = ["2021-W13"]
  /\ weeks_in_month wm "2021-04" = ["2021-W13"]
  /\ map (fun row => (r_window row, get "normal_sent_cnt" (r_feats row)))
       (default [] (weekly_out r.2))
     = [("2021-W13", CInt 3)]
  /\ map (fun row => (r_window row, get "normal_sent_cnt" (r_feats row)))
       (default [] (monthly_out r.2))
     = [("2021-03", CInt 3); ("2021-04", CInt 3)].
Proof. vm_compute. repeat split; reflexivity. Qed.

(** The two label functions, unfolded once. *)
Lemma gnn_week_of_ts_eq t :
  GNN.week_of_ts t
  = Calendar.strftime_G_W_V
      (Calendar.date_of_datetime (Calendar.from_epoch_s t)).
Proof. reflexivity. Qed.

Lemma gnn_month_of_ts_eq t :
  GNN.month_of_ts t
  = Calendar.strftime_Y_m
      (Calendar.date_of_datetime (Calendar.from_epoch_s t)).
Proof. reflexivity. Qed.

Lemma week_of_day_eq d : week_of_day d = Calendar.strftime_G_W_V d.
Proof. reflexivity. Qed.

Lemma month_of_day_eq d : month_of_day d = Calendar.strftime_Y_m d.
Proof. reflexivity. Qed.

Lemma date_of_from_epoch_fits ts :
  - 2 ^ 63 <= ts * 1000000 < 2 ^ 63 ->
  Calendar.date_of_datetime (Calendar.from_epoch_s ts) = ts / 86400.
Proof.
  unfold Calendar.date_of_datetime, Calendar.from_epoch_s, Calendar.wrap64.
  change (2 ^ 63) with 9223372036854775808.
  change (2 ^ 64) with 18446744073709551616.
  intros H. Z.div_mod_to_equations. lia.
Qed.

(** C8.  For every day, the week and month labels the roll-up attaches
    to a daily row of that day are the labels the window indexer gives
    to any timestamp within the day (the timestamp being one whose
    microsecond count fits the 64-bit datetime). *)
Theorem labels_agree (day ts : Z) :
  - 2 ^ 63 <= ts * 1000000 < 2 ^ 63 ->
  86400 * day <= ts < 86400 * (day + 1) ->
  GNN.week_of_ts ts = week_of_day day
  /\ GNN.month_of_ts ts = month_of_day day.
Proof.
  intros Hfit Hday.
  assert (Hd : Calendar.date_of_datetime (Calendar.from_epoch_s ts) = day).
  { rewrite date_of_from_epoch_fits by exact Hfit.
    Z.div_mod_to_equations. lia. }
  split.
  - etrans; [apply gnn_week_of_ts_eq|]. rewrite Hd.
    symmetry. apply week_of_day_eq.
  - etrans; [apply gnn_month_of_ts_eq|]. rewrite Hd.
    symmetry. apply month_of_day_eq.
Qed.

Lemma labels_agree_witness :
  GNN.week_of_ts 1617235199 = week_of_day 18717
  /\ GNN.month_of_ts 1617235199 = month_of_day 18717.
Proof. apply labels_agree; vm_compute; split; congruence. Defined.

(** C9.  With no raw transaction file the edge materializer raises and
    leaves every file as it was; with the labels or the mapping of the
    graph dataset absent, or no daily source file, the roll-up raises
    having made its three output directories and written no file. *)
Theorem missing_input_is_fatal :
  (forall hash fs,
      GNN.src_tx fs = [] ->
      GNN.build_edges_all hash fs
      = (Raised (FileNotFoundError GNN.SRC_TX_DIR), fs))
  /\ (forall gnn fs,
        GNN.targets_global gnn = None \/ GNN.address_id_map gnn = None
        \/ src_daily fs = [] ->
        exists msg fs',
          main gnn fs = (Raised (FileNotFoundError msg), fs')
          /\ outputs fs' = outputs fs
          /\ src_daily fs' = src_daily fs
          /\ dirs fs'
             = {[ TMP_MONTH_DIR ]} ∪ ({[ TMP_WEEK_DIR ]}
                 ∪ ({[ OUT_DIR ]} ∪ dirs fs))).
Proof.
  split.
  - intros hash fs H. unfold GNN.build_edges_all, bind, gets.
    rewrite H. reflexivity.
  - intros gnn fs H. unfold main, bind, modify, prepare_daily.
    destruct (GNN.targets_global gnn) as [tg|];
      [|by eexists _, _; split; [reflexivity|]].
    destruct (GNN.address_id_map gnn) as [am|];
      [|by eexists _, _; split; [reflexivity|]].
    destruct H as [H|[H|H]]; try discriminate.
    unfold bind, gets. cbn [src_daily mkdir]. rewrite H.
    by eexists _, _; split; [reflexivity|].
Qed.

Lemma missing_input_is_fatal_witness :
  GNN.build_edges_all Sample.toy_hash Sample.empty
  = (Raised (FileNotFoundError GNN.SRC_TX_DIR), Sample.empty)
  /\ exists msg fs',
       main Sample.indexed Sample.no_daily_source
       = (Raised (FileNotFoundError msg), fs')
       /\ outputs fs' = outputs Sample.no_daily_source.
Proof.
  destruct missing_input_is_fatal as [Hedges Hrollup]. split.
  - apply Hedges. reflexivity.
  - destruct (Hrollup Sample.indexed Sample.no_daily_source)
      as (msg & fs' & Hrun & Hout & _).
    + right. right. reflexivity.
    + exists msg, fs'. split; assumption.
Defined.
End Rollup.

(** ** The checksum verification *)
Section Verify.
Import Checksums.

Lemma check_bad ref acc f :
  bad (check ref acc f) = 0%nat <->
  bad acc = 0%nat /\ ~ mismatched ref f.
Proof.
  unfold check, mismatched. destruct (ref !! rel f) as [e|]; cbn.
  - destruct (String.eqb_spec (sha_of e) (sha256 f)) as [E|E]; cbn.
    + split; [|tauto]. intros H. split; [done|].
      intros (e' & [= <-] & Hne). done.
    + split; [done|]. intros [_ H]. exfalso. apply H. eauto.
  - split; [|tauto]. intros H. split; [done|]. intros (e' & [=] & _).
Qed.

Lemma foldl_check_bad ref l : forall acc,
  bad (foldl (check ref) acc l) = 0%nat <->
  bad acc = 0%nat /\ forall f, f ∈ l -> ~ mismatched ref f.
Proof.
  induction l as [|f l IH]; intros acc; cbn [foldl].
  - split; [|tauto]. intros H. split; [done|].
    intros f Hf. by apply not_elem_of_nil in Hf.
  - rewrite IH, check_bad. split.
    + intros [[H1 H2] H3]. split; [done|].
      intros g Hg. apply elem_of_cons in Hg as [->|Hg]; auto.
    + intros [H1 H2]. split; [split; [done|]|].
      * apply H2. by left.
      * intros g Hg. apply H2. by right.
Qed.

Lemma check_printed ref acc f m :
  m ∈ printed acc -> m ∈ printed (check ref acc f).
Proof.
  intros H. unfold check. destruct (ref !! rel f) as [e|]; cbn.
  - destruct (String.eqb (sha_of e) (sha256 f)); cbn; [done|].
    apply elem_of_app. by left.
  - apply elem_of_app. by left.
Qed.

Lemma foldl_check_printed ref l m : forall acc,
  m ∈ printed acc -> m ∈ printed (foldl (check ref) acc l).
Proof.
  induction l as [|f l IH]; intros acc H; [done|].
  cbn [foldl]. by apply IH, check_printed.
Qed.

Lemma foldl_check_missing ref l f : forall acc,
  f ∈ l -> ref !! rel f = None ->
  MissingInTable (rel f) ∈ printed (foldl (check ref) acc l).
Proof.
  induction l as [|g l IH]; intros acc Hf Hn.
  - by apply not_elem_of_nil in Hf.
  - cbn [foldl]. apply elem_of_cons in Hf as [<-|Hf]; [|by apply IH].
    apply foldl_check_printed. unfold check. rewrite Hn. cbn.
    apply elem_of_app. right. by left.
Qed.

(** C10, as amended.  In verify mode, for an existing base directory:
    when CHECKSUMS.md is absent or holds no row the exit code is 2;
    otherwise it is 0 exactly when no file that the scan yields has a
    recorded SHA256 different from its own, and 1 if one has; a scanned
    file the table does not list is reported and does not change the exit
    code. *)
Theorem verify_exit_code (tree : list file) (md : option (list string)) :
  let ref := load_checksums_table md in
  let r := verify (Some tree) md in
  (ref = ∅ -> r = (2, [NoChecksums]))
  /\ (ref <> ∅ ->
      (r.1 = 0 <-> forall f, f ∈ iter_files tree -> ~ mismatched ref f)
      /\ (r.1 = 0 \/ r.1 = 1)
      /\ forall f, f ∈ iter_files tree -> ref !! rel f = None ->
           MissingInTable (rel f) ∈ r.2).
Proof.
  intros ref r. subst r. unfold verify. fold ref. split.
  - intros H. by rewrite bool_decide_eq_true_2.
  - intros H. rewrite bool_decide_eq_false_2 by done. cbn [fst snd].
    set (acc0 := {| ok := 0; bad := 0; missing := 0; printed := [] |}).
    pose proof (foldl_check_bad ref (iter_files tree) acc0) as Hb.
    split; [|split].
    + destruct (Nat.eqb_spec (bad (foldl (check ref) acc0 (iter_files tree))) 0)
        as [E|E].
      * split; [intros _; by apply Hb|done].
      * split; [done|]. intros Hn. exfalso. apply E, Hb. by split.
    + destruct (bad (foldl (check ref) acc0 (iter_files tree)) =? 0)%nat; auto.
    + intros f Hf Hn. apply elem_of_app. left.
      by apply foldl_check_missing.
Qed.

(** The claim as it was stated fails on a directory that holds only a
    CHECKSUMS.md without rows: no listed file differs, and the exit code
    is 2. *)
Lemma verify_empty_table_exits_2 :
  (verify (Some Sample.checksums_tree) (Some Sample.checksums_header)).1 = 2
  /\ (forall f, f ∈ Sample.checksums_tree ->
        ~ mismatched
            (load_checksums_table (Some Sample.checksums_header)) f)
  /\ ~ ((verify (Some Sample.checksums_tree)
           (Some Sample.checksums_header)).1 = 0
        <-> forall f, f ∈ Sample.checksums_tree ->
              ~ mismatched
                  (load_checksums_table (Some Sample.checksums_header)) f).
Proof.
  assert (Hr : load_checksums_table (Some Sample.checksums_header) = ∅)
    by (vm_compute; reflexivity).
  assert (Hv : (verify (Some Sample.checksums_tree)
                  (Some Sample.checksums_header)).1 = 2)
    by (vm_compute; reflexivity).
  assert (Hn : forall f, f ∈ Sample.checksums_tree ->
            ~ mismatched
                (load_checksums_table (Some Sample.checksums_header)) f).
  { intros f _ (e & He & _). rewrite Hr in He. by rewrite lookup_empty in He. }
  split; [exact Hv|]. split; [exact Hn|].
  intros [_ H]. specialize (H Hn). rewrite Hv in H. discriminate H.
Qed.

Lemma verify_exit_code_witness :
  let ref := load_checksums_table (Some Sample.checksums_table) in
  let r := verify (Some Sample.changed_tree) (Some Sample.checksums_table) in
  r.1 = 1 /\ MissingInTable "new.txt" ∈ r.2
  /\ (r.1 = 0 <->
      forall f, f ∈ iter_files Sample.changed_tree -> ~ mismatched ref f).
Proof.
  intros ref r.
  assert (Hne : ref <> ∅).
  { intros H. apply (f_equal (fun m => m !! "c.md")) in H.
    vm_compute in H. discriminate H. }
  destruct (verify_exit_code Sample.changed_tree (Some Sample.checksums_table))
    as [_ Hv].
  destruct (Hv Hne) as (Hiff & _ & Hmiss).
  split; [vm_compute; reflexivity|]. split; [|exact Hiff].
  apply (Hmiss {| names := ["new.txt"]; sha256 := "01" |}).
  - apply list_elem_of_In. vm_compute. auto.
  - vm_compute. reflexivity.
Defined.
End Verify.

(** ** Identity assignment *)
Section Identity.
Import GNN.
Variable hash : Seeds -> option string -> Z.

(** C3.  The identity of an address is the hash, under the fixed seeds,
    of its lowercase form, a 64-bit unsigned value: an address and its
    lowercase form get the same identity, and the labels stage and the
    edge materializer assign that same identity. *)
Theorem assign_case_normalizing (key : string) :
  assign hash key = assign hash (to_lowercase key)
  /\ assign hash key
     = hash {| seed := 20250823; seed_1 := 17; seed_2 := 31; seed_3 := 73 |}
         (Some (to_lowercase key)) mod 2 ^ 64
  /\ 0 <= assign hash key < 2 ^ 64
  /\ (forall r, address r = key ->
        node_id (label_of_csv hash r) = assign hash key)
  /\ (forall t, from_address t = Some key ->
        src_id (edge_of_raw hash t) = assign hash key)
  /\ (forall t, to_address t = Some key ->
        dst_id (edge_of_raw hash t) = assign hash key).
Proof.
  split; [|split; [|split; [|split; [|split]]]].
  - unfold assign. by rewrite to_lowercase_idem.
  - reflexivity.
  - unfold assign, assign_lc. apply Z.mod_pos_bound. lia.
  - intros r <-. reflexivity.
  - intros t H. unfold edge_of_raw. cbn [src_id]. by rewrite H.
  - intros t H. unfold edge_of_raw. cbn [dst_id]. by rewrite H.
Qed.
End Identity.

(** ** The statements on the sample dataset *)
Section OnSample.
Import GNN.

(** The sample index is the one the indexer builds. *)
Lemma sample_index_built :
  build_window_index Sample.materialized = (Returned tt, Sample.indexed).
Proof. vm_compute. reflexivity. Qed.

Lemma assign_case_normalizing_witness :
  assign Sample.toy_hash "0xAbC" = assign Sample.toy_hash "0xabc".
Proof.
  destruct (assign_case_normalizing Sample.toy_hash "0xAbC") as [H _].
  exact H.
Defined.




Lemma export_windows_idempotent_witness :
  let fs' := (export_windows Sample.indexed).2 in
  (forall f label t,
      parts_of f Sample.indexed !! label = Some t ->
      parts_of f fs' !! label = Some t)
  /\ export_windows fs' = (Returned tt, fs').
Proof.
  apply export_windows_idempotent. vm_compute. reflexivity.
Defined.

Lemma window_index_partition_witness :
  (forall e, e ∈ Sample.edges ->
     exists w, w ∈ Sample.week_rows
       /\ window_min_ts w <= ts e <= window_end_ts w
       /\ forall w', w' ∈ Sample.week_rows ->
            window_min_ts w' <= ts e <= window_end_ts w' -> w' = w)
  /\ (forall w w', w ∈ Sample.week_rows -> w' ∈ Sample.week_rows ->
        w <> w' ->
        window_end_ts w < window_min_ts w'
        \/ window_end_ts w' < window_min_ts w).
Proof.
  apply (window_index_partition Sample.materialized Sample.indexed Week
           Sample.edges {| more_columns := []; rows := Sample.week_rows |}).
  - vm_compute. reflexivity.
  - reflexivity.
  - intros e He. apply list_elem_of_In in He.
    destruct He as [<-|[<-|[]]]; vm_compute; split; congruence.
  - reflexivity.
Defined.
End OnSample.

(** ** More of the graph dataset builder: labels, index and counts *)
Section GraphIndex.
Import GNN.

Lemma unique_by_node_spec l :
  NoDup (map node_id (unique_by_node l))
  /\ (forall r, r ∈ unique_by_node l -> r ∈ l)
  /\ (forall r, r ∈ l ->
        exists r', r' ∈ unique_by_node l /\ node_id r' = node_id r).
Proof.
  induction l as [|r l (Hnd & Hsub & Hcov)]; cbn [unique_by_node map].
  - split; [constructor|]. split; [tauto|].
    intros r H. inversion H.
  - split; [|split].
    + constructor.
      * intros Hin. apply list_elem_of_fmap in Hin as (y & Hy & Hin).
        apply list_elem_of_filter in Hin as [Hne _]. congruence.
      * eapply sublist_NoDup; [exact Hnd|].
        apply fmap_sublist, sublist_filter.
    + intros r' Hin. apply elem_of_cons in Hin as [->|Hin].
      * left.
      * right. apply list_elem_of_filter in Hin as [_ Hin]. auto.
    + intros r' Hin. apply elem_of_cons in Hin as [->|Hin].
      * exists r. split; [left|reflexivity].
      * destruct (decide (node_id r' = node_id r)) as [Heq|Hne].
        { exists r. split; [left|congruence]. }
        destruct (Hcov r' Hin) as (r2 & Hr2 & He).
        exists r2. split; [|exact He].
        right. apply list_elem_of_filter. split; [congruence|exact Hr2].
Qed.


Lemma window_index_elem f edges w :
  w ∈ window_index f edges <->
  exists e, e ∈ edges
    /\ w = window_row (label_of_ts f) edges (label_of_ts f (ts e)).
Proof.
  unfold window_index. rewrite elem_of_sort_by. split.
  - intros H. apply list_elem_of_fmap in H as (l & -> & Hl).
    rewrite elem_of_remove_dups in Hl.
    apply list_elem_of_fmap in Hl as (e & -> & He).
    exists e. split; [exact He|reflexivity].
  - intros (e & He & ->). apply list_elem_of_fmap.
    exists (label_of_ts f (ts e)). split; [reflexivity|].
    rewrite elem_of_remove_dups. apply list_elem_of_fmap.
    exists e. split; [reflexivity|exact He].
Qed.

Lemma window_index_windows f edges :
  map window (window_index f edges)
  ≡ₚ remove_dups (map (fun e => label_of_ts f (ts e)) edges).
Proof.
  unfold window_index.
  generalize (remove_dups (map (fun e => label_of_ts f (ts e)) edges)).
  intros ls.
  etrans; [apply (fmap_Permutation window), sort_by_perm|].
  induction ls as [|l ls IH]; [reflexivity|].
  cbn [map]. apply Permutation_skip. exact IH.
Qed.

(** X2: the window index is sorted by label, has one row for each label
    that occurs among the edges, and no row for any other: every row
    counts at least one edge, and its bounds are the timestamps of edges
    of its own label. *)
Theorem window_index_sorted_distinct f edges :
  let idx := window_index f edges in
  Sorted (key_le window) idx
  /\ NoDup (map window idx)
  /\ (forall e, e ∈ edges ->
        exists w, w ∈ idx /\ window w = label_of_ts f (ts e))
  /\ forall w, w ∈ idx ->
       more w = []
       /\ 1 <= edges_cnt w
       /\ edges_cnt w
          = Z.of_nat
              (length
                 (filter (fun e => label_of_ts f (ts e) = window w) edges))
       /\ window_min_ts w <= window_end_ts w
       /\ (exists e, e ∈ edges /\ label_of_ts f (ts e) = window w
             /\ ts e = window_min_ts w)
       /\ (exists e, e ∈ edges /\ label_of_ts f (ts e) = window w
             /\ ts e = window_end_ts w).
Proof.
  intros idx. subst idx. split; [|split; [|split]].
  - apply sort_by_sorted.
  - rewrite window_index_windows. apply NoDup_remove_dups.
  - intros e He. eexists. split.
    + apply window_index_elem. exists e. split; [exact He|reflexivity].
    + reflexivity.
  - intros w Hw. apply window_index_elem in Hw as (e & He & ->).
    set (l := label_of_ts f (ts e)).
    assert (Hin : ts e ∈ map ts
              (filter (fun e' => label_of_ts f (ts e') = l) edges)).
    { apply list_elem_of_fmap. exists e. split; [reflexivity|].
      apply list_elem_of_filter. split; [reflexivity|exact He]. }
    destruct (column_bounds _ _ Hin) as (Hmin & Hmax & Hb).
    cbn [more edges_cnt window window_min_ts window_end_ts window_row].
    split; [reflexivity|]. split; [|split; [|split; [|split]]].
    + destruct (map ts (filter (fun e' => label_of_ts f (ts e') = l) edges))
        as [|t g]; [inversion Hin|]. cbn [length]. lia.
    + rewrite length_map. reflexivity.
    + specialize (Hb _ Hmin). lia.
    + apply list_elem_of_fmap in Hmin as (e1 & He1 & Hf).
      apply list_elem_of_filter in Hf as [Hl Hf].
      exists e1. split; [exact Hf|]. split; [exact Hl|]. symmetry. exact He1.
    + apply list_elem_of_fmap in Hmax as (e1 & He1 & Hf).
      apply list_elem_of_filter in Hf as [Hl Hf].
      exists e1. split; [exact Hf|]. split; [exact Hl|]. symmetry. exact He1.
Qed.

Lemma column_sum_perm l l' :
  l ≡ₚ l' -> Pipeline.column_sum l = Pipeline.column_sum l'.
Proof.
  unfold Pipeline.column_sum.
  induction 1; cbn [foldr]; try lia.
Qed.

Lemma column_sum_plus {A} (a b : A -> Z) l :
  Pipeline.column_sum (map (fun x => a x + b x) l)
  = Pipeline.column_sum (map a l) + Pipeline.column_sum (map b l).
Proof.
  unfold Pipeline.column_sum.
  induction l as [|x l IH]; cbn [map foldr]; lia.
Qed.

Lemma column_sum_indicator (k : string) ls :
  NoDup ls -> k ∈ ls ->
  Pipeline.column_sum (map (fun l => if decide (k = l) then 1 else 0) ls)
  = 1.
Proof.
  unfold Pipeline.column_sum.
  induction 1 as [|l ls Hl Hnd IH]; intros Hin; [inversion Hin|].
  cbn [map foldr].
  assert (Hzero : forall ls', k ∉ ls' ->
            foldr Z.add 0
              (map (fun l => if decide (k = l) then 1 else 0) ls') = 0).
  { clear. induction ls' as [|l' ls' IH]; intros Hk; [reflexivity|].
    cbn [map foldr]. rewrite not_elem_of_cons in Hk. destruct Hk as [Hne Hk].
    destruct (decide (k = l')); [contradiction|]. rewrite IH by exact Hk.
    reflexivity. }
  destruct (decide (k = l)) as [->|Hne].
  - rewrite Hzero by exact Hl. reflexivity.
  - apply elem_of_cons in Hin as [?|Hin]; [contradiction|].
    rewrite IH by exact Hin. reflexivity.
Qed.

Lemma count_by_label (label : Z -> string) ls :
  NoDup ls -> forall es : list Edge,
  (forall e, e ∈ es -> label (ts e) ∈ ls) ->
  Pipeline.column_sum
    (map (fun l => Z.of_nat
                     (length (filter (fun e => label (ts e) = l) es))) ls)
  = Z.of_nat (length es).
Proof.
  intros Hnd. induction es as [|e es IH]; intros Hall.
  - cbn. clear. unfold Pipeline.column_sum.
    induction ls as [|l ls IH]; cbn [map foldr]; lia.
  - etrans.
    { apply (f_equal Pipeline.column_sum).
      apply (map_ext _
               (fun l => (if decide (label (ts e) = l) then 1 else 0)
                         + Z.of_nat
                             (length
                                (filter (fun e => label (ts e) = l) es)))).
      intros l. rewrite filter_cons.
      destruct (decide (label (ts e) = l)); cbn [length]; lia. }
    rewrite (column_sum_plus
               (fun l => if decide (label (ts e) = l) then 1 else 0)).
    rewrite column_sum_indicator; [|exact Hnd|apply Hall; left].
    rewrite IH; [cbn [length]; lia|].
    intros e' He'. apply Hall. right. exact He'.
Qed.

(** X3: the edge counts of a window index add up to the number of edges
    of the table: every edge is counted in one window, once. *)
Theorem window_index_counts_add_up f edges :
  Pipeline.column_sum (map edges_cnt (window_index f edges))
  = Z.of_nat (length edges).
Proof.
  unfold window_index.
  etrans.
  { apply column_sum_perm, (fmap_Permutation edges_cnt), sort_by_perm. }
  rewrite map_map.
  etrans.
  { apply (f_equal Pipeline.column_sum).
    apply (map_ext _
             (fun l => Z.of_nat
                (length
                   (filter (fun e => label_of_ts f (ts e) = l) edges)))).
    intros l. cbn [edges_cnt window_row]. rewrite length_map.
    reflexivity. }
  apply count_by_label; [apply NoDup_remove_dups|].
  intros e He. rewrite elem_of_remove_dups.
  apply list_elem_of_fmap. exists e. split; [reflexivity|exact He].
Qed.

End GraphIndex.

(** ** More of the graph dataset builder: node counts and targets *)
Section GraphTargets.
Import GNN.

Lemma nodes_win_spec edges lo hi :
  NoDup (nodes_win edges lo hi)
  /\ forall n, n ∈ nodes_win edges lo hi <->
       exists e, e ∈ edges /\ lo <= ts e <= hi
         /\ (src_id e = n \/ dst_id e = n).
Proof.
  split; [apply NoDup_remove_dups|].
  intros n. split; [apply elem_of_nodes_win|].
  intros (e & He & Hb & Hn). unfold nodes_win.
  rewrite elem_of_remove_dups, elem_of_app.
  assert (Hw : e ∈ filter (in_window lo hi) edges).
  { apply list_elem_of_filter. split; [exact Hb|exact He]. }
  destruct Hn as [<-|<-]; [left|right];
    apply list_elem_of_fmap; exists e; (split; [reflexivity|exact Hw]).
Qed.

Lemma process_freq_returned f tg fs fs' mt edges :
  process_freq f tg fs = (Returned tt, fs') ->
  meta_of f fs = Some mt -> edges_all fs = Some edges ->
  table (targets_of f fs')
  = table (targets_of f fs) ++ targets_batch tg edges (rows mt).
Proof.
  intros Hrun Hm He.
  destruct (process_freq_spec f tg fs mt edges Hm He)
    as (fs2 & Hto & Ht & Hspec).
  cbv zeta in Hspec. rewrite Hspec in Hrun.
  destruct (sort_by window (rows mt)) as [|r rs].
  - injection Hrun as <-. exact Ht.
  - destruct (join_nodes_cnt f _ _) as [m|e]; [|discriminate].
    injection Hrun as <-. rewrite <- Ht. destruct f; reflexivity.
Qed.

Lemma process_freq_keeps f tg fs o fs' :
  process_freq f tg fs = (o, fs') ->
  edges_all fs' = edges_all fs
  /\ forall g, g <> f ->
       meta_of g fs' = meta_of g fs /\ targets_of g fs' = targets_of g fs.
Proof.
  intros Hrun.
  destruct (process_freq_targets f tg fs) as (o' & fs2 & Hr & He & Hk & _).
  rewrite Hr in Hrun. injection Hrun as <- <-. split; [exact He|exact Hk].
Qed.

Lemma elem_of_targets_win tg_ids edges row n :
  (window row, n) ∈ targets_win tg_ids edges row <->
  n ∈ tg_ids /\ participant edges row n.
Proof.
  unfold targets_win, participant. rewrite list_elem_of_fmap. split.
  - intros (m & Heq & Hm). injection Heq as <-.
    apply list_elem_of_filter in Hm as [Hid Hm].
    split; [exact Hid|]. apply nodes_win_spec. exact Hm.
  - intros [Hid Hp]. exists n. split; [reflexivity|].
    apply list_elem_of_filter. split; [exact Hid|].
    apply nodes_win_spec. exact Hp.
Qed.

Lemma targets_batch_has tg_ids edges (l : list WindowRow) row n :
  row ∈ l -> n ∈ tg_ids -> participant edges row n ->
  (window row, n) ∈ targets_batch tg_ids edges l.
Proof.
  intros Hrow Hid Hp. unfold targets_batch.
  apply list_elem_of_In, in_concat.
  exists (targets_win tg_ids edges row). split.
  - apply in_map, list_elem_of_In, elem_of_sort_by, Hrow.
  - apply list_elem_of_In, elem_of_targets_win. split; assumption.
Qed.

Lemma targets_batch_inv tg_ids edges (l : list WindowRow) p :
  p ∈ targets_batch tg_ids edges l ->
  exists row, row ∈ l /\ p.1 = window row
    /\ p.2 ∈ tg_ids /\ participant edges row p.2.
Proof.
  unfold targets_batch. intros Hp.
  apply list_elem_of_In, in_concat in Hp as (ts_row & Hrow & Hp).
  apply in_map_iff in Hrow as (row & <- & Hrow).
  apply list_elem_of_In, elem_of_sort_by in Hrow.
  apply list_elem_of_In in Hp.
  exists row. split; [exact Hrow|].
  pose proof (targets_win_label _ _ _ _ Hp) as Hl.
  split; [exact Hl|]. destruct p as [l' n]. cbn [fst snd] in *. subst l'.
  apply elem_of_targets_win in Hp. exact Hp.
Qed.

Lemma labelled_ids tg n :
  n ∈ remove_dups (map node_id tg) <-> labelled tg n.
Proof.
  unfold labelled. rewrite elem_of_remove_dups, list_elem_of_fmap. split.
  - intros (r & -> & Hr). exists r. split; [exact Hr|reflexivity].
  - intros (r & Hr & <-). exists r. split; [reflexivity|exact Hr].
Qed.

(** X4: a run that returns has written, for every window of the index,
    every labelled node that takes part in it: the targets table is
    complete for the windows of the index. *)
Theorem targets_complete fs fs' f mt tg edges row n :
  enrich_meta_and_build_targets fs = (Returned tt, fs') ->
  targets_global fs = Some tg -> edges_all fs = Some edges ->
  meta_of f fs = Some mt -> row ∈ rows mt ->
  participant edges row n -> labelled tg n ->
  (window row, n) ∈ table (targets_of f fs').
Proof.
  intros Hrun Htg He Hm Hrow Hp Hl.
  unfold enrich_meta_and_build_targets, bind, read in Hrun.
  rewrite Htg in Hrun.
  set (ids := remove_dups (map node_id tg)) in *.
  destruct (process_freq Month ids fs) as [[[]|e] fs1] eqn:Hmonth;
    [|discriminate].
  destruct (process_freq_keeps _ _ _ _ _ Hmonth) as (He1 & Hk1).
  destruct (process_freq_keeps _ _ _ _ _ Hrun) as (He2 & Hk2).
  assert (Hin : (window row, n) ∈ targets_batch ids edges (rows mt)).
  { apply targets_batch_has; [exact Hrow| |exact Hp].
    apply labelled_ids. exact Hl. }
  destruct f.
  - destruct (Hk2 Month) as [_ Ht]; [discriminate|].
    rewrite Ht.
    rewrite (process_freq_returned _ _ _ _ _ _ Hmonth Hm He).
    apply elem_of_app. right. exact Hin.
  - destruct (Hk1 Week) as [Hm1 Ht1]; [discriminate|].
    rewrite (process_freq_returned Week ids fs1 fs' mt edges Hrun);
      [|by rewrite Hm1|by rewrite He1].
    apply elem_of_app. right. exact Hin.
Qed.

(** X5: the count joined to a window of the index is the number of
    distinct nodes that are source or destination of an edge within its
    bounds; labels, bounds and edge counts are carried over. *)
Theorem nodes_cnt_counts_participants fs tg edges f mt :
  targets_global fs = Some tg -> edges_all fs = Some edges ->
  (forall g, exists m, meta_of g fs = Some m /\ joinable m) ->
  meta_of f fs = Some mt ->
  exists fs' mt',
    enrich_meta_and_build_targets fs = (Returned tt, fs')
    /\ meta_of f fs' = Some mt'
    /\ Forall2
         (fun r r' =>
            core r' = core r
            /\ exists ns,
                 more r' = more r ++ [Some (Z.of_nat (length ns))]
                 /\ NoDup ns
                 /\ forall n, n ∈ ns <-> participant edges r n)
         (sort_by window (rows mt)) (rows mt').
Proof.
  intros Htg He Hj Hm.
  destruct (enrich_ok fs tg edges Htg He Hj) as (fs' & Hrun & _ & _ & Hall).
  destruct (Hall f mt Hm) as (_ & mt' & Hm' & Hrows & _).
  exists fs', mt'. split; [exact Hrun|]. split; [exact Hm'|].
  rewrite Hrows. apply Forall2_fmap_r, Forall_Forall2_diag, Forall_forall.
  intros r _. split; [reflexivity|].
  exists (nodes_win edges (window_min_ts r) (window_end_ts r)).
  split; [reflexivity|]. apply nodes_win_spec.
Qed.

(** X6: an index that carries both joined count columns, as after two
    runs, makes a further run fail: the join raises [DuplicateError] for
    [nodes_cnt_right], after the month's targets were appended once
    more; the month index and the week files stay as they were. *)
Theorem enrich_refuses_third_join fs tg edges mm :
  targets_global fs = Some tg -> edges_all fs = Some edges ->
  month_meta fs = Some mm -> rows mm <> [] ->
  more_columns mm = ["nodes_cnt"; "nodes_cnt_right"] ->
  exists fs',
    enrich_meta_and_build_targets fs
    = (Raised (DuplicateError "nodes_cnt_right"), fs')
    /\ table (month_targets fs')
       = table (month_targets fs)
         ++ targets_batch (remove_dups (map node_id tg)) edges (rows mm)
    /\ month_meta fs' = month_meta fs
    /\ week_meta fs' = week_meta fs
    /\ week_targets fs' = week_targets fs.
Proof.
  intros Htg He Hm Hne Hcols.
  unfold enrich_meta_and_build_targets, bind, read. rewrite Htg.
  set (ids := remove_dups (map node_id tg)).
  destruct (process_freq_spec Month ids fs mm edges Hm He)
    as (fs2 & Hto & Ht & Hspec).
  cbv zeta in Hspec. rewrite Hspec.
  destruct (sort_by window (rows mm)) as [|r rs] eqn:Hs.
  { apply sorted_nil_rows in Hs. contradiction. }
  rewrite Hcols, join_nodes_cnt_third.
  exists fs2. split; [reflexivity|]. split; [exact Ht|].
  split; [apply (targets_only_meta Month Month _ _ Hto)|].
  split; [apply (targets_only_meta Month Week _ _ Hto)|].
  apply (targets_only_other Month Week _ _); [discriminate|exact Hto].
Qed.

(** X7: without a week index the run stops at the week stage, after the
    month stage is done: the month's targets are appended and the
    month index is joined, and the week files are untouched. *)
Theorem enrich_stops_at_missing_week_index fs tg edges mm :
  targets_global fs = Some tg -> edges_all fs = Some edges ->
  month_meta fs = Some mm -> joinable mm -> week_meta fs = None ->
  exists fs',
    enrich_meta_and_build_targets fs
    = (Raised (FileNotFoundError (meta_fp Week)), fs')
    /\ table (month_targets fs')
       = table (month_targets fs)
         ++ targets_batch (remove_dups (map node_id tg)) edges (rows mm)
    /\ (rows <$> month_meta fs')
       = Some (map (counted edges) (sort_by window (rows mm)))
    /\ week_meta fs' = None
    /\ week_targets fs' = week_targets fs.
Proof.
  intros Htg He Hm [Hcols Hnd] Hw.
  unfold enrich_meta_and_build_targets, bind, read. rewrite Htg.
  set (ids := remove_dups (map node_id tg)).
  destruct (process_freq_ok Month ids fs mm edges Hm He Hcols Hnd)
    as (fs1 & mt' & Hrun & Ht & Hm' & Hrows & _ & _ & _ & Hk).
  rewrite Hrun. destruct (Hk Week) as [Hmw Htw]; [discriminate|].
  cbn [meta_of targets_of] in *.
  rewrite process_freq_no_meta by (cbn [meta_of]; congruence).
  exists fs1. split; [reflexivity|]. split; [exact Ht|].
  split; [rewrite Hm'; cbn; by rewrite Hrows|].
  split; [congruence|exact Htw].
Qed.

End GraphTargets.

(** ** More of the graph dataset builder: partition files and [main] *)
Section GraphPartitions.
Import GNN.

Lemma filter_ext_in {A} (P Q : A -> Prop) `{!forall x, Decision (P x)}
    `{!forall x, Decision (Q x)} (l : list A) :
  (forall x, x ∈ l -> (P x <-> Q x)) -> filter P l = filter Q l.
Proof.
  induction l as [|x l IH]; intros Hext; [reflexivity|].
  rewrite !filter_cons.
  rewrite IH by (intros y Hy; apply Hext; right; exact Hy).
  destruct (decide (P x)) as [Hp|Hp], (decide (Q x)) as [Hq|Hq];
    try reflexivity; exfalso.
  - apply Hq, (Hext x); [left|exact Hp].
  - apply Hp, (Hext x); [left|exact Hq].
Qed.

(** What a partition loop leaves behind: the files that were there, and
    for a label without a file the edges within the bounds of the first
    row of that label. *)
Lemma export_loop_parts f meta : forall fs o fs' edges,
  export_loop f meta fs = (o, fs') -> edges_all fs = Some edges ->
  o = Returned tt
  /\ (forall g, g <> f -> parts_of g fs' = parts_of g fs)
  /\ forall l,
       parts_of f fs' !! l
       = match parts_of f fs !! l with
         | Some t => Some t
         | None =>
             option_map
               (fun row =>
                  filter (in_window (window_min_ts row) (window_end_ts row))
                    edges)
               (find (fun row => bool_decide (window row = l)) meta)
         end.
Proof.
  induction meta as [|row meta IH]; intros fs o fs' edges Hrun He.
  - injection Hrun as <- <-. split; [reflexivity|]. split; [done|].
    intros l. cbn [find option_map]. by destruct (parts_of f fs !! l).
  - cbn [export_loop] in Hrun. unfold bind, modify, gets, read in Hrun.
    assert (Hpm : forall g, parts_of g (mkdir (part_dir f (window row)) fs)
                            = parts_of g fs) by (intros []; reflexivity).
    rewrite Hpm in Hrun.
    destruct (parts_of f fs !! window row) as [t0|] eqn:Hpres.
    + destruct (IH _ _ _ edges Hrun) as (Ho & Hk & Hl); [exact He|].
      split; [exact Ho|]. split.
      { intros g Hg. rewrite (Hk g Hg). apply Hpm. }
      intros l. rewrite Hl, Hpm. cbn [find].
      destruct (parts_of f fs !! l) as [t|] eqn:Hpl; [reflexivity|].
      rewrite bool_decide_eq_false_2; [reflexivity|].
      intros Heq. congruence.
    + cbn [edges_all mkdir] in Hrun. rewrite He in Hrun.
      set (df := filter (in_window (window_min_ts row) (window_end_ts row))
                   edges) in *.
      destruct (IH _ _ _ edges Hrun) as (Ho & Hk & Hl);
        [destruct f; exact He|].
      split; [exact Ho|]. split.
      { intros g Hg. rewrite (Hk g Hg).
        destruct f, g; try reflexivity; contradiction. }
      intros l. rewrite Hl. cbn [find].
      assert (Hw : parts_of f
                     (write_part f (window row) df
                        (mkdir (part_dir f (window row)) fs))
                   = <[window row := df]> (parts_of f fs))
        by (destruct f; reflexivity).
      rewrite Hw.
      destruct (decide (window row = l)) as [<-|Hne].
      * rewrite lookup_insert_eq, Hpres, bool_decide_eq_true_2 by done.
        reflexivity.
      * rewrite lookup_insert_ne by exact Hne.
        rewrite bool_decide_eq_false_2 by exact Hne. reflexivity.
Qed.

Lemma find_window_unique (l : list WindowRow) row :
  NoDup (map window l) -> row ∈ l ->
  find (fun r => bool_decide (window r = window row)) l = Some row.
Proof.
  induction l as [|r l IH]; intros Hnd Hin; [inversion Hin|].
  cbn [map] in Hnd. apply NoDup_cons in Hnd as [Hr Hnd]. cbn [find].
  apply elem_of_cons in Hin as [->|Hin].
  - by rewrite bool_decide_eq_true_2.
  - rewrite bool_decide_eq_false_2; [by apply IH|].
    intros Heq. apply Hr. rewrite Heq.
    apply list_elem_of_fmap. exists row. split; [reflexivity|exact Hin].
Qed.

Lemma find_window_none (l : list WindowRow) k :
  (forall r, r ∈ l -> window r <> k) ->
  find (fun r => bool_decide (window r = k)) l = None.
Proof.
  induction l as [|r l IH]; intros H; [reflexivity|]. cbn [find].
  rewrite bool_decide_eq_false_2 by (apply H; left).
  apply IH. intros r' Hr'. apply H. right. exact Hr'.
Qed.

Lemma export_freq_parts f fs o fs' mt edges :
  export_freq f fs = (o, fs') ->
  meta_of f fs = Some mt -> edges_all fs = Some edges ->
  o = Returned tt
  /\ extends fs fs'
  /\ (forall g, g <> f -> parts_of g fs' = parts_of g fs)
  /\ forall l,
       parts_of f fs' !! l
       = match parts_of f fs !! l with
         | Some t => Some t
         | None =>
             option_map
               (fun row =>
                  filter (in_window (window_min_ts row) (window_end_ts row))
                    edges)
               (find (fun row => bool_decide (window row = l))
                  (sort_by window (rows mt)))
         end.
Proof.
  intros Hrun Hm He. rewrite (export_freq_read f fs mt Hm) in Hrun.
  destruct (export_loop_parts _ _ _ _ _ edges Hrun He) as (Ho & Hk & Hl).
  split; [exact Ho|]. split; [|split; [exact Hk|exact Hl]].
  apply (export_loop_extends _ _ _ _ _ Hrun).
Qed.

Lemma export_freq_extends f s o s' :
  export_freq f s = (o, s') -> extends s s'.
Proof.
  unfold export_freq, bind, read.
  destruct (meta_of f s) as [mt|].
  - apply export_loop_extends.
  - intros H. injection H as <- <-. apply extends_refl.
Qed.

(** X8: whatever its outcome, the partition stage only adds partition
    files and directories: the inputs, the indexes, the targets and the
    partition files that exist keep their content. *)
Theorem export_only_adds fs o fs' :
  export_windows fs = (o, fs') -> extends fs fs'.
Proof.
  unfold export_windows, bind. intros Hrun.
  destruct (export_freq Month fs) as [[[]|e] fs1] eqn:Hmonth.
  - eapply extends_trans; [apply (export_freq_extends _ _ _ _ Hmonth)|].
    apply (export_freq_extends _ _ _ _ Hrun).
  - injection Hrun as <- <-. apply (export_freq_extends _ _ _ _ Hmonth).
Qed.

Lemma export_windows_parts fs mm wm edges :
  month_meta fs = Some mm -> week_meta fs = Some wm ->
  edges_all fs = Some edges ->
  exists fs',
    export_windows fs = (Returned tt, fs')
    /\ extends fs fs'
    /\ forall f mt l, meta_of f fs = Some mt ->
         parts_of f fs !! l = None ->
         parts_of f fs' !! l
         = option_map
             (fun row =>
                filter (in_window (window_min_ts row) (window_end_ts row))
                  edges)
             (find (fun row => bool_decide (window row = l))
                (sort_by window (rows mt))).
Proof.
  intros Hmm Hwm He. unfold export_windows, bind.
  destruct (export_freq Month fs) as [o1 fs1] eqn:Hmonth.
  destruct (export_freq_parts Month fs o1 fs1 mm edges Hmonth Hmm He)
    as (-> & Hx1 & Hk1 & Hl1).
  pose proof Hx1 as (_ & _ & He1 & _ & Hw1 & _).
  destruct (export_freq Week fs1) as [o2 fs2] eqn:Hweek.
  destruct (export_freq_parts Week fs1 o2 fs2 wm edges Hweek)
    as (-> & Hx2 & Hk2 & Hl2); [cbn; congruence|congruence|].
  exists fs2. split; [reflexivity|].
  split; [by apply (extends_trans _ fs1)|].
  intros f mt l Hm Hnone. destruct f; cbn [meta_of] in Hm.
  - rewrite (Hk2 Month) by discriminate. rewrite Hl1, Hnone. congruence.
  - rewrite Hl2. rewrite (Hk1 Week) by discriminate. rewrite Hnone.
    congruence.
Qed.

(** X9: with both indexes and the edge table present the partition
    stage returns, and for an index of distinct labels it writes, for
    every window without a partition file, the edges of the table whose
    timestamp is within the bounds of the window, in the order of the
    table; a label that is not in the index gets no file. *)
Theorem export_partition_content fs mm wm edges :
  month_meta fs = Some mm -> week_meta fs = Some wm ->
  edges_all fs = Some edges ->
  exists fs',
    export_windows fs = (Returned tt, fs')
    /\ forall f mt, meta_of f fs = Some mt ->
         NoDup (map window (rows mt)) ->
         (forall row, row ∈ rows mt ->
            parts_of f fs !! window row = None ->
            parts_of f fs' !! window row
            = Some (filter
                      (in_window (window_min_ts row) (window_end_ts row))
                      edges))
         /\ (forall l, parts_of f fs !! l = None ->
               (forall row, row ∈ rows mt -> window row <> l) ->
               parts_of f fs' !! l = None).
Proof.
  intros Hmm Hwm He.
  destruct (export_windows_parts fs mm wm edges Hmm Hwm He)
    as (fs2 & Hrun & _ & Hparts).
  exists fs2. split; [exact Hrun|].
  intros f mt Hm Hnd. split.
  - intros row Hrow Hnone. rewrite (Hparts f mt _ Hm Hnone).
    rewrite find_window_unique; [reflexivity| |by apply elem_of_sort_by].
    by apply NoDup_window_sorted.
  - intros l Hnone Hall. rewrite (Hparts f mt _ Hm Hnone).
    rewrite find_window_none; [reflexivity|].
    intros r Hr. apply Hall. by apply elem_of_sort_by in Hr.
Qed.

Lemma in_window_label f edges w e :
  in_range edges -> w ∈ window_index f edges -> e ∈ edges ->
  in_window (window_min_ts w) (window_end_ts w) e
  <-> label_of_ts f (ts e) = window w.
Proof.
  intros Hr Hw He. unfold in_window. split.
  - intros Hb. by apply (window_index_label f edges w (ts e)).
  - intros Hl.
    destruct (window_index_row f edges w Hr Hw) as (_ & _ & _ & _ & _ & Hb).
    by apply Hb.
Qed.

(** X10: exported from the index of the edge table into an empty
    directory, the partition files split the table by calendar label:
    the file of a label holds exactly the edges of that label, every edge
    is in the file of its own label, and there is no other file. *)
Theorem export_partitions_edge_table fs fs' f mt edges :
  export_windows fs = (Returned tt, fs') ->
  edges_all fs = Some edges -> in_range edges ->
  meta_of f fs = Some mt ->
  map core (rows mt) = map core (window_index f edges) ->
  parts_of f fs = ∅ ->
  (forall e, e ∈ edges ->
     parts_of f fs' !! label_of_ts f (ts e)
     = Some (filter
               (fun e' => label_of_ts f (ts e') = label_of_ts f (ts e))
               edges))
  /\ (forall l t, parts_of f fs' !! l = Some t ->
        exists e, e ∈ edges /\ l = label_of_ts f (ts e)).
Proof.
  intros Hrun He Hr Hm Hcore Hempty.
  assert (Hmetas : exists mm wm,
            month_meta fs = Some mm /\ week_meta fs = Some wm).
  { unfold export_windows, bind in Hrun.
    destruct (export_freq Month fs) as [[[]|e] fs1] eqn:Hmonth;
      [|discriminate].
    destruct (export_freq_returned _ _ _ Hmonth) as (mm & Hmm & _).
    destruct (export_freq_returned _ _ _ Hrun) as (wm & Hwm & _).
    exists mm, wm. split; [exact Hmm|].
    apply export_freq_extends in Hmonth.
    destruct Hmonth as (_ & _ & _ & _ & Hw & _).
    cbn [meta_of] in Hwm. congruence. }
  destruct Hmetas as (mm & wm & Hmm & Hwm).
  destruct (export_windows_parts fs mm wm edges Hmm Hwm He)
    as (fs2 & Hrun2 & _ & Hparts).
  rewrite Hrun in Hrun2. injection Hrun2 as <-.
  assert (Hwin : map window (rows mt) = map window (window_index f edges)).
  { apply (f_equal (map (fun c : string * Z * Z * Z => c.1.1.1))) in Hcore.
    rewrite !map_map in Hcore. exact Hcore. }
  assert (Hnd : NoDup (map window (rows mt))).
  { rewrite Hwin, window_index_windows. apply NoDup_remove_dups. }
  assert (Hnds : NoDup (map window (sort_by window (rows mt))))
    by (by apply NoDup_window_sorted).
  assert (Hrow : forall row, row ∈ rows mt ->
            exists w, w ∈ window_index f edges /\ core row = core w).
  { intros row Hin.
    assert (Hc : core row ∈ map core (window_index f edges)).
    { rewrite <- Hcore. apply list_elem_of_fmap. by exists row. }
    apply list_elem_of_fmap in Hc as (w & Hc & Hw). by exists w. }
  split.
  - intros e Hin.
    assert (Hl : label_of_ts f (ts e) ∈ map window (rows mt)).
    { rewrite Hwin. apply list_elem_of_fmap.
      exists (window_row (label_of_ts f) edges (label_of_ts f (ts e))).
      split; [reflexivity|]. by apply window_index_covers. }
    apply list_elem_of_fmap in Hl as (row & Hl & Hin').
    rewrite Hl. rewrite (Hparts f mt _ Hm) by (by rewrite Hempty).
    rewrite find_window_unique; [|exact Hnds|by apply elem_of_sort_by].
    cbn [option_map]. f_equal. destruct (Hrow row Hin') as (w & Hw & Hc).
    assert (Hc' : window row = window w
                  /\ window_min_ts row = window_min_ts w
                  /\ window_end_ts row = window_end_ts w)
      by (unfold core in Hc; injection Hc; auto).
    destruct Hc' as (E1 & E2 & E3). rewrite E1, E2, E3.
    apply filter_ext_in. intros e' He'.
    apply (in_window_label f edges w e' Hr Hw He').
  - intros l t Hpart.
    destruct (decide (l ∈ map window (rows mt))) as [Hl|Hl].
    + rewrite Hwin in Hl. apply list_elem_of_fmap in Hl as (w & -> & Hw).
      apply window_index_elem in Hw as (e & Hin & ->).
      exists e. split; [exact Hin|reflexivity].
    + rewrite (Hparts f mt _ Hm) in Hpart by (by rewrite Hempty).
      rewrite find_window_none in Hpart; [discriminate|].
      intros row Hin Heq. apply Hl. apply list_elem_of_fmap.
      exists row. split; [done|]. by apply elem_of_sort_by in Hin.
Qed.

End GraphPartitions.

(** ** The graph dataset, top to bottom *)
Section GraphMain.
Import GNN.
Variable hash : Seeds -> option string -> Z.

Lemma main_step {A B} (m : Run FS A) (k : A -> Run (FS * bool) B)
    fs b a fs' :
  m fs = (Returned a, fs') ->
  bind (Pipeline.on_dataset m) k (fs, b) = k a (fs', b).
Proof.
  intros H. unfold bind, Pipeline.on_dataset. cbn [fst snd].
  rewrite H. reflexivity.
Qed.

Lemma process_freq_frame f tg fs fs' mt edges :
  process_freq f tg fs = (Returned tt, fs') ->
  meta_of f fs = Some mt -> edges_all fs = Some edges ->
  src_tx fs' = src_tx fs /\ labels_csv fs' = labels_csv fs
  /\ address_id_map fs' = address_id_map fs
  /\ forall g, parts_of g fs' = parts_of g fs.
Proof.
  intros Hrun Hm He.
  destruct (process_freq_spec f tg fs mt edges Hm He)
    as (fs2 & Hto & _ & Hspec).
  cbv zeta in Hspec. rewrite Hspec in Hrun.
  assert (Hfs2 : src_tx fs2 = src_tx fs /\ labels_csv fs2 = labels_csv fs
                 /\ address_id_map fs2 = address_id_map fs
                 /\ forall g, parts_of g fs2 = parts_of g fs).
  { destruct Hto as [->|[t ->]]; [done|].
    destruct f; repeat split; intros []; reflexivity. }
  destruct (sort_by window (rows mt)) as [|r rs].
  - injection Hrun as <-. exact Hfs2.
  - destruct (join_nodes_cnt f _ _) as [m|e]; [|discriminate].
    injection Hrun as <-. destruct Hfs2 as (A1 & A2 & A3 & A4).
    destruct f; repeat split; try assumption; intros []; apply A4.
Qed.

Lemma window_index_joinable f edges :
  joinable {| more_columns := []; rows := window_index f edges |}.
Proof.
  split; [by left|]. cbn [rows].
  rewrite window_index_windows. apply NoDup_remove_dups.
Qed.

Lemma window_index_sorted_again f edges :
  sort_by window (window_index f edges) = window_index f edges.
Proof. apply sort_by_idem. Qed.

(** A run of [main] from a labels CSV and at least one file of raw
    transactions, stage by stage. *)
Lemma main_run fs b csv :
  labels_csv fs = Some csv -> src_tx fs <> [] ->
  let tg := unique_by_node (map (label_of_csv hash) csv) in
  let edges := map (edge_of_raw hash) (concat (src_tx fs)) in
  exists fs',
    Pipeline.main hash (fs, b) = (Returned tt, (fs', true))
    /\ src_tx fs' = src_tx fs /\ labels_csv fs' = labels_csv fs
    /\ targets_global fs' = Some tg
    /\ address_id_map fs'
       = Some (map (fun r => (l_address r, node_id r)) tg)
    /\ edges_all fs' = Some edges
    /\ (forall f,
          table (targets_of f fs')
          = table (targets_of f fs)
            ++ targets_batch (remove_dups (map node_id tg)) edges
                 (window_index f edges))
    /\ (forall f, exists mt,
          meta_of f fs' = Some mt
          /\ rows mt = map (counted edges) (window_index f edges))
    /\ (forall f l,
          parts_of f fs !! l = None ->
          parts_of f fs' !! l
          = option_map
              (fun row =>
                 filter (in_window (window_min_ts row) (window_end_ts row))
                   edges)
              (find (fun row => bool_decide (window row = l))
                 (map (counted edges) (window_index f edges))))
    /\ (forall f l t,
          parts_of f fs !! l = Some t -> parts_of f fs' !! l = Some t).
Proof.
  intros Hcsv Hsrc tg edges. unfold Pipeline.main.
  rewrite (main_step _ _ fs b tt (make_dirs fs)) by reflexivity.
  set (fs0 := make_dirs fs).
  set (fs1 := write_labels tg (map (fun r => (l_address r, node_id r)) tg)
                fs0).
  rewrite (main_step _ _ fs0 b tt fs1).
  2:{ unfold build_labels_and_mapping, bind, read, modify.
      change (labels_csv fs0) with (labels_csv fs). rewrite Hcsv.
      reflexivity. }
  set (fs2 := write_edges_all edges fs1).
  rewrite (main_step _ _ fs1 b tt fs2).
  2:{ unfold build_edges_all, bind, gets, modify, raise.
      change (src_tx fs1) with (src_tx fs). subst fs2 edges.
      destruct (src_tx fs); [contradiction|reflexivity]. }
  set (fs3 := write_meta Week
                {| more_columns := []; rows := window_index Week edges |}
                (write_meta Month
                   {| more_columns := [];
                      rows := window_index Month edges |} fs2)).
  rewrite (main_step _ _ fs2 b tt fs3).
  2:{ unfold build_window_index, bind, read, modify.
      change (edges_all fs2) with (Some edges). reflexivity. }
  assert (Hm3 : forall f,
            meta_of f fs3
            = Some {| more_columns := [];
                      rows := window_index f edges |})
    by (intros []; reflexivity).
  destruct (enrich_ok fs3 tg edges) as (fs4 & Hrun4 & Htg4 & He4 & Hall4);
    [reflexivity|reflexivity| |].
  { intros f. eexists. split; [apply Hm3|apply window_index_joinable]. }
  rewrite (main_step _ _ fs3 b tt fs4 Hrun4).
  assert (Hm4 : forall f, exists mt,
            meta_of f fs4 = Some mt
            /\ rows mt = map (counted edges) (window_index f edges)).
  { intros f. destruct (Hall4 f _ (Hm3 f)) as (_ & mt & Hm & Hrows & _).
    exists mt. split; [exact Hm|].
    rewrite Hrows. cbn [rows]. by rewrite window_index_sorted_again. }
  destruct (Hm4 Month) as (mm & Hmm & Hrm).
  destruct (Hm4 Week) as (wm & Hwm & Hrw).
  destruct (export_windows_parts fs4 mm wm edges Hmm Hwm He4)
    as (fs5 & Hrun5 & Hext & Hparts).
  rewrite (main_step _ _ fs4 b tt fs5 Hrun5).
  exists fs5. split; [reflexivity|].
  pose proof Hext
    as (Hs & Hl & He & Hmo & Hwe & Htg & Hmap & Hmt & Hwt & _).
  assert (Hkeep : src_tx fs4 = src_tx fs /\ labels_csv fs4 = labels_csv fs
                  /\ address_id_map fs4
                     = Some (map (fun r => (l_address r, node_id r)) tg)
                  /\ forall f, parts_of f fs4 = parts_of f fs).
  { clear - Hrun4 Hm3.
    unfold enrich_meta_and_build_targets, bind, read in Hrun4.
    change (targets_global fs3) with (Some tg) in Hrun4.
    cbv beta iota in Hrun4.
    destruct (process_freq Month (remove_dups (map node_id tg)) fs3)
      as [[[]|e] fsm] eqn:Hmonth; [|discriminate].
    destruct (process_freq_keeps _ _ _ _ _ Hmonth) as (Hem & Hkm).
    destruct (Hkm Week) as [Hmw _]; [discriminate|].
    pose proof (process_freq_frame _ _ _ _ _ edges Hmonth (Hm3 Month)
                  eq_refl) as (A1 & A2 & A3 & A4).
    assert (Hmw' : meta_of Week fsm
                   = Some {| more_columns := [];
                             rows := window_index Week edges |})
      by (rewrite Hmw; apply (Hm3 Week)).
    assert (Hem' : edges_all fsm = Some edges) by (by rewrite Hem).
    pose proof (process_freq_frame Week _ fsm _ _ edges Hrun4 Hmw' Hem')
      as (B1 & B2 & B3 & B4).
    split; [by rewrite B1, A1|]. split; [by rewrite B2, A2|].
    split; [by rewrite B3, A3|].
    intros f. rewrite B4, A4. by destruct f. }
  destruct Hkeep as (K1 & K2 & K3 & K4).
  split; [congruence|]. split; [congruence|]. split; [congruence|].
  split; [congruence|]. split; [congruence|]. split; [|split; [|split]].
  - intros f. destruct (Hall4 f _ (Hm3 f)) as (Ht & _).
    cbn [rows] in Ht.
    replace (table (targets_of f fs5)) with (table (targets_of f fs4))
      by (destruct f; cbn [targets_of]; congruence).
    rewrite Ht. f_equal; by destruct f.
  - intros f. destruct (Hm4 f) as (mt & Hm & Hrows).
    exists mt. split; [|exact Hrows].
    destruct f; cbn [meta_of] in *; congruence.
  - intros f l Hnone. destruct (Hm4 f) as (mt & Hm & Hrows).
    rewrite (Hparts f mt l Hm) by (by rewrite K4).
    rewrite Hrows. f_equal.
    rewrite sort_by_counted. by rewrite window_index_sorted_again.
  - intros f l t Hpart. apply (extends_parts f fs4 fs5 l t Hext).
    by rewrite K4.
Qed.

Lemma csv_identities csv n :
  labelled (unique_by_node (map (label_of_csv hash) csv)) n
  <-> exists r, r ∈ csv /\ assign hash (address r) = n.
Proof.
  destruct (unique_by_node_spec (map (label_of_csv hash) csv))
    as (_ & Hsub & Hcov).
  unfold labelled. split.
  - intros (row & Hrow & <-). apply Hsub in Hrow.
    apply list_elem_of_fmap in Hrow as (r & -> & Hr).
    exists r. split; [exact Hr|reflexivity].
  - intros (r & Hr & <-).
    destruct (Hcov (label_of_csv hash r)) as (row & Hrow & He).
    { apply list_elem_of_fmap. exists r. split; [reflexivity|exact Hr]. }
    exists row. split; [exact Hrow|exact He].
Qed.

(** X11: from a labels CSV and at least one file of raw transactions,
    [main] returns with the README written: the labels table has one row
    for each node id, the edge table has the edges of all raw
    transactions, each index has the windows of the edge table, each
    targets file is what it held before followed by the targets of every
    window, and the partition file of the label of every edge exists. *)
Theorem main_builds_dataset fs b csv :
  labels_csv fs = Some csv -> src_tx fs <> [] ->
  let edges := map (edge_of_raw hash) (concat (src_tx fs)) in
  exists fs' tg,
    Pipeline.main hash (fs, b) = (Returned tt, (fs', true))
    /\ src_tx fs' = src_tx fs /\ labels_csv fs' = labels_csv fs
    /\ targets_global fs' = Some tg /\ NoDup (map node_id tg)
    /\ edges_all fs' = Some edges
    /\ forall f,
         (exists mt,
            meta_of f fs' = Some mt
            /\ map core (rows mt) = map core (window_index f edges))
         /\ table (targets_of f fs')
            = table (targets_of f fs)
              ++ targets_batch (remove_dups (map node_id tg)) edges
                   (window_index f edges)
         /\ forall e, e ∈ edges ->
              is_Some (parts_of f fs' !! label_of_ts f (ts e)).
Proof.
  intros Hcsv Hsrc edges.
  destruct (main_run fs b csv Hcsv Hsrc)
    as (fs' & Hrun & Hs & Hl & Htg & _ & He & Ht & Hm & Hnew & Hold).
  exists fs', (unique_by_node (map (label_of_csv hash) csv)).
  split; [exact Hrun|]. split; [exact Hs|]. split; [exact Hl|].
  split; [exact Htg|]. split; [apply unique_by_node_spec|].
  split; [exact He|]. intros f. split; [|split; [apply Ht|]].
  - destruct (Hm f) as (mt & Hmt & Hrows). exists mt.
    split; [exact Hmt|]. rewrite Hrows, map_map. reflexivity.
  - intros e Hin.
    destruct (parts_of f fs !! label_of_ts f (ts e)) as [t|] eqn:Hp.
    + exists t. by apply Hold.
    + rewrite (Hnew f _ Hp).
      set (row := counted edges
                    (window_row (label_of_ts f) edges
                       (label_of_ts f (ts e)))).
      rewrite (find_window_unique _ row).
      * by eexists.
      * rewrite map_window_counted, window_index_windows.
        apply NoDup_remove_dups.
      * apply list_elem_of_fmap. eexists. split; [reflexivity|].
        by apply window_index_covers.
Qed.

(** X12: started without a targets file, on timestamps of the years
    1970..9998, [main] leaves in each targets file exactly the pairs of a
    calendar label and a node such that an edge of that label has the
    node at one end and the labels CSV has an address of that identity,
    each pair once. *)
Theorem main_targets_are_labelled_participants fs b csv f :
  labels_csv fs = Some csv -> src_tx fs <> [] ->
  targets_of f fs = None ->
  let edges := map (edge_of_raw hash) (concat (src_tx fs)) in
  in_range edges ->
  exists fs',
    Pipeline.main hash (fs, b) = (Returned tt, (fs', true))
    /\ NoDup (table (targets_of f fs'))
    /\ forall l n,
         (l, n) ∈ table (targets_of f fs') <->
         Pipeline.touches f edges l n
         /\ exists r, r ∈ csv /\ assign hash (address r) = n.
Proof.
  intros Hcsv Hsrc Hnone edges Hr.
  destruct (main_run fs b csv Hcsv Hsrc)
    as (fs' & Hrun & _ & _ & _ & _ & _ & Ht & _).
  exists fs'. split; [exact Hrun|].
  specialize (Ht f). rewrite Hnone in Ht. cbn [table default app] in Ht.
  fold edges in Ht. rewrite Ht.
  split.
  { apply targets_batch_NoDup. rewrite window_index_windows.
    apply NoDup_remove_dups. }
  intros l n. rewrite <- csv_identities, <- labelled_ids. split.
  - intros Hin. apply targets_batch_inv in Hin
      as (row & Hrow & Hl & Hid & e & He & Hb & Hn).
    cbn [fst snd] in *. subst l. split; [|exact Hid].
    exists e. split; [exact He|]. split; [|exact Hn].
    by apply (window_index_label f edges row (ts e)).
  - intros [(e & He & <- & Hn) Hid].
    set (row := window_row (label_of_ts f) edges (label_of_ts f (ts e))).
    change (label_of_ts f (ts e)) with (window row).
    assert (Hrow : row ∈ window_index f edges)
      by (by apply window_index_covers).
    apply targets_batch_has; [exact Hrow|exact Hid|].
    exists e. split; [exact He|]. split; [|exact Hn].
    destruct (window_index_row f edges row Hr Hrow)
      as (_ & _ & _ & _ & _ & Hb).
    by apply Hb.
Qed.

End GraphMain.

(** ** More of the feature roll-up: months from weeks *)
Section TwoLevels.
Import LSTM.

Lemma wrap64_range z : in_int64 (Calendar.wrap64 z) = true.
Proof.
  unfold in_int64, Calendar.wrap64.
  change (2 ^ 63) with 9223372036854775808.
  change (2 ^ 64) with 18446744073709551616.
  apply andb_true_iff. split; [apply Z.leb_le|apply Z.ltb_lt];
    Z.div_mod_to_equations; lia.
Qed.

Lemma wrap64_add_l a b :
  Calendar.wrap64 (Calendar.wrap64 a + b) = Calendar.wrap64 (a + b).
Proof.
  unfold Calendar.wrap64. f_equal.
  replace ((a + 2 ^ 63) mod 2 ^ 64 - 2 ^ 63 + b + 2 ^ 63)
    with ((a + 2 ^ 63) mod 2 ^ 64 + b) by lia.
  rewrite Zplus_mod_idemp_l. f_equal. lia.
Qed.

Lemma wrap64_add_r a b :
  Calendar.wrap64 (a + Calendar.wrap64 b) = Calendar.wrap64 (a + b).
Proof. rewrite Z.add_comm, wrap64_add_l. f_equal. lia. Qed.

Lemma as_int_range v : in_int64 (as_int v) = true.
Proof.
  destruct v as [z|s|]; cbn [as_int]; [| |reflexivity].
  - destruct (in_int64 z) eqn:E; [exact E|reflexivity].
  - unfold Dec.int_of_text.
    match goal with
    | |- context [match ?x with Some _ => _ | None => None end] =>
        destruct x as [v|]; [|reflexivity]
    end.
    fold (in_int64 v). destruct (in_int64 v) eqn:E; [exact E|reflexivity].
Qed.

Lemma as_int_in_range z : in_int64 z = true -> as_int (CInt z) = z.
Proof. intros H. cbn [as_int]. by rewrite H. Qed.

Lemma foldr_add_app l1 l2 :
  foldr Z.add 0 (l1 ++ l2) = foldr Z.add 0 l1 + foldr Z.add 0 l2.
Proof. induction l1 as [|x l1 IH]; cbn [foldr app]; lia. Qed.

(** The monthly SUM of the weekly SUMs of an integer column is the SUM
    of all the daily values, whatever the values: the 64-bit wrap-around
    of the weekly sums does not change the monthly one. *)
Lemma sum_int_of_weeks (weeks_days : list (list cell)) :
  sum_int_m (map sum_int weeks_days) = sum_int (concat weeks_days).
Proof.
  unfold sum_int_m, sum_int. f_equal.
  induction weeks_days as [|g gs IH]; [reflexivity|].
  cbn [map concat foldr]. rewrite map_app, foldr_add_app.
  rewrite (as_int_in_range _ (wrap64_range _)).
  rewrite wrap64_add_l, <- wrap64_add_r, IH, wrap64_add_r. reflexivity.
Qed.

Lemma foldr_max_cons x l :
  foldr Z.max x l
  = match l with [] => x | y :: l' => Z.max x (foldr Z.max y l') end.
Proof.
  revert x. induction l as [|y l IH]; intros x; [reflexivity|].
  cbn [foldr]. rewrite (IH x), (IH y). destruct l as [|z l]; lia.
Qed.

Lemma column_max_cons x l :
  column_max (x :: l)
  = match l with [] => x | _ => Z.max x (column_max l) end.
Proof.
  unfold column_max at 1. rewrite foldr_max_cons. by destruct l.
Qed.

Lemma column_max_app l1 l2 :
  l1 <> [] -> l2 <> [] ->
  column_max (l1 ++ l2) = Z.max (column_max l1) (column_max l2).
Proof.
  induction l1 as [|x l1 IH]; intros H1 H2; [contradiction|].
  cbn [app]. rewrite (column_max_cons x (l1 ++ l2)), (column_max_cons x l1).
  destruct l1 as [|y l1].
  - cbn [app]. destruct l2; [contradiction|reflexivity].
  - rewrite IH by done. cbn [app]. lia.
Qed.

Lemma column_max_range l :
  Forall (fun z => in_int64 z = true) l -> in_int64 (column_max l) = true.
Proof.
  induction 1 as [|x l Hx Hl IH]; [reflexivity|].
  rewrite column_max_cons. destruct l as [|y l]; [exact Hx|].
  destruct (Z.max_spec x (column_max (y :: l))) as [[_ ->]|[_ ->]];
    assumption.
Qed.

Lemma as_int_max_int g : as_int (max_int g) = column_max (map as_int g).
Proof.
  unfold max_int. apply as_int_in_range, column_max_range.
  apply Forall_forall. intros z Hz.
  apply list_elem_of_fmap in Hz as (v & -> & _). apply as_int_range.
Qed.

(** The monthly MAX of the weekly MAXes of a column is the MAX of all
    the daily values, for weeks that have at least one daily row
    each. *)
Lemma max_int_of_weeks (weeks_days : list (list cell)) :
  weeks_days <> [] -> Forall (fun g => g <> []) weeks_days ->
  max_int_m (map max_int weeks_days) = max_int (concat weeks_days).
Proof.
  intros Hne Hall. unfold max_int_m. unfold max_int at 1.
  unfold max_int at 2. f_equal.
  induction Hall as [|g gs Hg Hgs IH]; [contradiction|].
  cbn [map concat]. rewrite as_int_max_int, map_app.
  destruct gs as [|g' gs].
  - cbn [map concat]. rewrite app_nil_r. reflexivity.
  - rewrite column_max_cons.
    change (map as_int (map max_int (g' :: gs)))
      with (as_int (max_int g') :: map as_int (map max_int gs)).
    change (as_int (max_int g') :: map as_int (map max_int gs))
      with (map as_int (map max_int (g' :: gs))).
    rewrite IH by done.
    rewrite column_max_app; [reflexivity|by destruct g|].
    apply Forall_cons in Hgs as [Hg' _].
    cbn [concat]. destruct g'; [contradiction|discriminate].
Qed.

Lemma as_decimal_sum_dec_str g :
  Z.abs (foldr Z.add 0 (map as_decimal g)) < Dec.limit ->
  as_decimal (as_text (sum_dec_str g)) = foldr Z.add 0 (map as_decimal g).
Proof.
  intros H. unfold sum_dec_str. cbn [as_text as_decimal].
  unfold Dec.sum. rewrite (wrap128_small _ H).
  rewrite (of_text_to_text _ H). reflexivity.
Qed.

(** The monthly SUM of the weekly SUMs of a monetary column is the SUM
    of all the daily values, when every weekly sum stays within 38
    digits: the text of a weekly sum reads back as the same decimal. *)
Lemma sum_dec_str_of_weeks (weeks_days : list (list cell)) :
  Forall (fun g => Z.abs (foldr Z.add 0 (map as_decimal g)) < Dec.limit)
    weeks_days ->
  sum_dec_str_m (map sum_dec_str weeks_days)
  = sum_dec_str (concat weeks_days).
Proof.
  intros Hall. unfold sum_dec_str_m. unfold sum_dec_str at 1.
  unfold sum_dec_str at 2. unfold Dec.sum. do 3 f_equal.
  induction Hall as [|g gs Hg _ IH]; [reflexivity|].
  cbn [map concat foldr]. rewrite map_app, foldr_add_app.
  rewrite (as_decimal_sum_dec_str g Hg), IH. reflexivity.
Qed.

(** X13: rolling days up to weeks and weeks up to a month gives what
    rolling the days up to the month gives.  For the daily values of a
    column, week by week: the monthly SUM of the weekly SUMs of an
    integer column is the SUM of all the values, wrap-around included;
    the monthly MAX of the weekly MAXes is the MAX of all the values,
    when every week has a value; the monthly SUM of the weekly SUMs of
    a monetary column is the SUM of all the values, when every weekly
    sum stays within 38 digits. *)
Theorem aggregates_of_weeks (weeks_days : list (list cell)) :
  sum_int_m (map sum_int weeks_days) = sum_int (concat weeks_days)
  /\ (weeks_days <> [] -> Forall (fun g => g <> []) weeks_days ->
      max_int_m (map max_int weeks_days) = max_int (concat weeks_days))
  /\ (Forall
        (fun g => Z.abs (foldr Z.add 0 (map as_decimal g)) < Dec.limit)
        weeks_days ->
      sum_dec_str_m (map sum_dec_str weeks_days)
      = sum_dec_str (concat weeks_days)).
Proof.
  split; [apply sum_int_of_weeks|].
  split; [apply max_int_of_weeks|apply sum_dec_str_of_weeks].
Qed.

End TwoLevels.

(** ** More of the feature roll-up: the stages *)
Section RollupStages.
Import LSTM.

Lemma unique_by_address_spec l :
  NoDup (map fst (unique_by_address l))
  /\ (forall p, p ∈ unique_by_address l -> p ∈ l)
  /\ (forall p, p ∈ l ->
        exists q, q ∈ unique_by_address l /\ q.1 = p.1).
Proof.
  induction l as [|p l (Hnd & Hsub & Hcov)]; cbn [unique_by_address map].
  - split; [constructor|]. split; [tauto|].
    intros p H. inversion H.
  - split; [|split].
    + constructor.
      * intros Hin. apply list_elem_of_fmap in Hin as (y & Hy & Hin).
        apply list_elem_of_filter in Hin as [Hne _]. congruence.
      * eapply sublist_NoDup; [exact Hnd|].
        apply fmap_sublist, sublist_filter.
    + intros q Hin. apply elem_of_cons in Hin as [->|Hin].
      * left.
      * right. apply list_elem_of_filter in Hin as [_ Hin]. auto.
    + intros q Hin. apply elem_of_cons in Hin as [->|Hin].
      * exists p. split; [left|reflexivity].
      * destruct (decide (q.1 = p.1)) as [Heq|Hne].
        { exists p. split; [left|congruence]. }
        destruct (Hcov q Hin) as (q2 & Hq2 & He).
        exists q2. split; [|exact He].
        right. apply list_elem_of_filter. split; [congruence|exact Hq2].
Qed.

Lemma filter_key_length (l : list (string * Z)) a :
  NoDup (map fst l) ->
  length (filter (fun p => p.1 = a) l)
  = if decide (a ∈ map fst l) then 1%nat else 0%nat.
Proof.
  induction l as [|p l IH]; intros Hnd.
  - cbn. destruct (decide (a ∈ [])) as [H|_]; [inversion H|reflexivity].
  - cbn [map] in Hnd. apply NoDup_cons in Hnd as [Hp Hnd].
    rewrite filter_cons. cbn [map].
    destruct (decide (p.1 = a)) as [<-|Hne].
    + cbn [length]. rewrite (IH Hnd). rewrite decide_False by exact Hp.
      rewrite decide_True by left. reflexivity.
    + rewrite (IH Hnd). destruct (decide (a ∈ map fst l)) as [Hin|Hin].
      * rewrite decide_True by (by right). reflexivity.
      * rewrite decide_False; [reflexivity|].
        rewrite not_elem_of_cons. split; [congruence|exact Hin].
Qed.

Lemma unique_by_address_keys map_rows a :
  a ∈ map fst
        (unique_by_address
           (map (fun p => (to_lowercase p.1, p.2)) map_rows))
  <-> a ∈ map (fun p => to_lowercase p.1) map_rows.
Proof.
  destruct (unique_by_address_spec
              (map (fun p => (to_lowercase p.1, p.2)) map_rows))
    as (_ & Hsub & Hcov).
  split.
  - intros H. apply list_elem_of_fmap in H as (q & -> & Hq).
    apply Hsub, list_elem_of_fmap in Hq as (p & -> & Hp).
    apply list_elem_of_fmap. exists p. split; [reflexivity|exact Hp].
  - intros H. apply list_elem_of_fmap in H as (p & -> & Hp).
    destruct (Hcov (to_lowercase p.1, p.2)) as (q & Hq & He).
    { apply list_elem_of_fmap. exists p. split; [reflexivity|exact Hp]. }
    apply list_elem_of_fmap. exists q. split; [by rewrite He|exact Hq].
Qed.

Lemma daily_row_length map_rows r :
  length
    (daily_row
       (unique_by_address
          (map (fun p => (to_lowercase p.1, p.2)) map_rows)) r)
  = if decide (Parts.mapped map_rows (d_address r)) then 1%nat else 0%nat.
Proof.
  unfold daily_row. rewrite length_map, filter_key_length
    by apply unique_by_address_spec.
  unfold Parts.mapped.
  destruct (decide (to_lowercase (d_address r)
                      ∈ map (fun p => to_lowercase p.1) map_rows))
    as [H|H].
  - rewrite decide_True; [reflexivity|by apply unique_by_address_keys].
  - rewrite decide_False; [reflexivity|].
    by rewrite unique_by_address_keys.
Qed.

(** X14: the daily stage is an inner join on the lowercased address:
    every row it writes is a source row of a mapped address, with the
    node id of a mapping row of that address and the week and month of
    its day, and every source row of a mapped address gives one row; the
    rows of other addresses are dropped. *)
Theorem prepare_daily_inner_join gnn fs tg map_rows :
  GNN.targets_global gnn = Some tg ->
  GNN.address_id_map gnn = Some map_rows ->
  src_daily fs <> [] ->
  let src := concat (src_daily fs) in
  let out := Parts.labelled_daily map_rows src in
  prepare_daily gnn fs = (Returned tt, write_daily out fs)
  /\ (forall row, row ∈ out ->
        exists r p, r ∈ src /\ p ∈ map_rows
          /\ to_lowercase p.1 = to_lowercase (d_address r)
          /\ f_node_id row = p.2
          /\ f_address row = to_lowercase (d_address r)
          /\ f_day row = d_day r
          /\ f_week row = week_of_day (d_day r)
          /\ f_month row = month_of_day (d_day r))
  /\ length out
     = length (filter (fun r => Parts.mapped map_rows (d_address r)) src).
Proof.
  intros Htg Hmap Hsrc src out. split; [|split].
  - unfold prepare_daily. rewrite Htg, Hmap.
    unfold bind, gets, modify, raise.
    subst out src. unfold Parts.labelled_daily.
    destruct (src_daily fs); [contradiction|reflexivity].
  - intros row Hrow. subst out. unfold Parts.labelled_daily in Hrow.
    apply list_elem_of_In, in_flat_map in Hrow as (r & Hr & Hrow).
    unfold daily_row in Hrow.
    apply in_map_iff in Hrow as (q & <- & Hq).
    apply list_elem_of_In, list_elem_of_filter in Hq as [Hkey Hq].
    destruct (unique_by_address_spec
                (map (fun p => (to_lowercase p.1, p.2)) map_rows))
      as (_ & Hsub & _).
    apply Hsub, list_elem_of_fmap in Hq as (p & -> & Hp).
    exists r, p. cbn [fst snd] in Hkey.
    split; [by apply list_elem_of_In|]. split; [exact Hp|].
    split; [exact Hkey|]. repeat split.
  - subst out. unfold Parts.labelled_daily. clearbody src.
    induction src as [|r src IH]; [reflexivity|].
    cbn [flat_map]. rewrite length_app, IH, daily_row_length, filter_cons.
    destruct (decide (Parts.mapped map_rows (d_address r)));
      reflexivity.
Qed.

(** *** The part loops *)

Lemma with_week_parts_same s : Parts.with_week_parts (tmp_week_parts s) s = s.
Proof. by destruct s. Qed.

Lemma with_month_parts_same s :
  Parts.with_month_parts (tmp_month_parts s) s = s.
Proof. by destruct s. Qed.

Lemma weekly_loop_shape weeks : forall s o s',
  weekly_loop weeks s = (o, s') ->
  exists m,
    s' = Parts.with_week_parts m s /\ tmp_week_parts s ⊆ m
    /\ (o = Returned tt -> forall w, w ∈ weeks -> is_Some (m !! w)).
Proof.
  induction weeks as [|w weeks IH]; intros s o s' Hrun.
  - injection Hrun as <- <-. exists (tmp_week_parts s).
    split; [by rewrite with_week_parts_same|]. split; [done|].
    intros _ w Hw. inversion Hw.
  - cbn [weekly_loop] in Hrun. unfold bind, gets, read, modify in Hrun.
    destruct (tmp_week_parts s !! w) as [t|] eqn:Hpres.
    + destruct (IH _ _ _ Hrun) as (m & -> & Hsub & Hall).
      exists m. split; [reflexivity|]. split; [exact Hsub|].
      intros Ho w' Hw'. apply elem_of_cons in Hw' as [->|Hw'].
      * exists t. by apply (lookup_weaken _ _ _ _ Hpres).
      * by apply Hall.
    + destruct (daily_out s) as [daily|].
      * destruct (IH _ _ _ Hrun) as (m & -> & Hsub & Hall).
        cbn [tmp_week_parts write_week_part] in Hsub.
        exists m. split; [reflexivity|]. split.
        { etrans; [|exact Hsub]. by apply insert_subseteq. }
        intros Ho w' Hw'. apply elem_of_cons in Hw' as [->|Hw'].
        -- eexists. eapply lookup_weaken; [apply lookup_insert_eq|].
           exact Hsub.
        -- by apply Hall.
      * injection Hrun as <- <-. exists (tmp_week_parts s).
        split; [by rewrite with_week_parts_same|]. split; [done|].
        discriminate.
Qed.

Lemma weekly_loop_noop weeks s :
  (forall w, w ∈ weeks -> is_Some (tmp_week_parts s !! w)) ->
  weekly_loop weeks s = (Returned tt, s).
Proof.
  induction weeks as [|w weeks IH]; intros Hall; [reflexivity|].
  cbn [weekly_loop]. unfold bind, gets.
  destruct (Hall w) as [t Ht]; [left|]. rewrite Ht.
  apply IH. intros w' Hw'. apply Hall. by right.
Qed.

Lemma monthly_loop_shape wm months : forall s o s',
  monthly_loop wm months s = (o, s') ->
  exists m,
    s' = Parts.with_month_parts m s /\ tmp_month_parts s ⊆ m
    /\ (o = Returned tt -> forall mo, mo ∈ months ->
          is_Some (m !! mo) \/ weeks_in_month wm mo = []).
Proof.
  induction months as [|mo months IH]; intros s o s' Hrun.
  - injection Hrun as <- <-. exists (tmp_month_parts s).
    split; [by rewrite with_month_parts_same|]. split; [done|].
    intros _ w Hw. inversion Hw.
  - cbn [monthly_loop] in Hrun. unfold bind, gets, read, modify in Hrun.
    destruct (tmp_month_parts s !! mo) as [t|] eqn:Hpres.
    + destruct (IH _ _ _ Hrun) as (m & -> & Hsub & Hall).
      exists m. split; [reflexivity|]. split; [exact Hsub|].
      intros Ho w' Hw'. apply elem_of_cons in Hw' as [->|Hw'].
      * left. exists t. by apply (lookup_weaken _ _ _ _ Hpres).
      * by apply Hall.
    + destruct (weeks_in_month wm mo) as [|w0 ws] eqn:Hweeks.
      * destruct (IH _ _ _ Hrun) as (m & -> & Hsub & Hall).
        exists m. split; [reflexivity|]. split; [exact Hsub|].
        intros Ho w' Hw'. apply elem_of_cons in Hw' as [->|Hw'].
        -- by right.
        -- by apply Hall.
      * destruct (weekly_out s) as [weekly|].
        -- destruct (IH _ _ _ Hrun) as (m & -> & Hsub & Hall).
           cbn [tmp_month_parts write_month_part] in Hsub.
           exists m. split; [reflexivity|]. split.
           { etrans; [|exact Hsub]. by apply insert_subseteq. }
           intros Ho w' Hw'. apply elem_of_cons in Hw' as [->|Hw'].
           ++ left. eexists.
              eapply lookup_weaken; [apply lookup_insert_eq|].
              exact Hsub.
           ++ by apply Hall.
        -- injection Hrun as <- <-. exists (tmp_month_parts s).
           split; [by rewrite with_month_parts_same|]. split; [done|].
           discriminate.
Qed.

Lemma monthly_loop_noop wm months s :
  (forall mo, mo ∈ months ->
     is_Some (tmp_month_parts s !! mo) \/ weeks_in_month wm mo = []) ->
  monthly_loop wm months s = (Returned tt, s).
Proof.
  induction months as [|mo months IH]; intros Hall; [reflexivity|].
  cbn [monthly_loop]. unfold bind, gets.
  assert (Hrest : monthly_loop wm months s = (Returned tt, s)).
  { apply IH. intros w' Hw'. apply Hall. by right. }
  destruct (tmp_month_parts s !! mo) as [t|] eqn:Hpres; [exact Hrest|].
  destruct (Hall mo) as [[t Ht]|Hw]; [left|congruence|].
  rewrite Hw. exact Hrest.
Qed.

Lemma build_weekly_shape gnn s o s' :
  build_weekly gnn s = (o, s') ->
  exists m,
    tmp_week_parts s ⊆ m
    /\ (s' = Parts.with_week_parts m s \/ s' = Parts.weekly_written m s)
    /\ (o = Returned tt ->
        s' = Parts.weekly_written m s
        /\ exists meta,
             GNN.week_meta gnn = Some meta
             /\ forall w, w ∈ map GNN.window (GNN.rows meta) ->
                  is_Some (m !! w)).
Proof.
  unfold build_weekly. destruct (GNN.week_meta gnn) as [meta|].
  - unfold bind, gets, modify, ret.
    destruct (weekly_loop (map GNN.window (GNN.rows meta)) s)
      as [[[]|e] s1] eqn:Hloop; intros Hrun;
      destruct (weekly_loop_shape _ _ _ _ Hloop) as (m & -> & Hsub & Hall).
    + exists m. split; [exact Hsub|].
      assert (Hs' : s' = Parts.weekly_written m s).
      { unfold Parts.weekly_written.
        change (tmp_week_parts (Parts.with_week_parts m s)) with m in Hrun.
        destruct (glob_parts "week=" m); injection Hrun as <- <-;
          reflexivity. }
      split; [by right|]. intros _. split; [exact Hs'|].
      exists meta. split; [reflexivity|]. by apply Hall.
    + injection Hrun as <- <-. exists m. split; [exact Hsub|].
      split; [by left|discriminate].
  - intros Hrun. injection Hrun as <- <-. exists (tmp_week_parts s).
    split; [done|]. split; [by rewrite with_week_parts_same; left|].
    discriminate.
Qed.

Lemma build_monthly_shape gnn s o s' :
  build_monthly gnn s = (o, s') ->
  exists m,
    tmp_month_parts s ⊆ m
    /\ (s' = Parts.with_month_parts m s \/ s' = Parts.monthly_written m s)
    /\ (o = Returned tt ->
        s' = Parts.monthly_written m s
        /\ exists meta daily,
             GNN.month_meta gnn = Some meta /\ daily_out s = Some daily
             /\ forall mo, mo ∈ map GNN.window (GNN.rows meta) ->
                  is_Some (m !! mo)
                  \/ weeks_in_month (week_month_map daily) mo = []).
Proof.
  unfold build_monthly. destruct (GNN.month_meta gnn) as [meta|].
  - unfold bind, gets, modify, ret, read.
    destruct (daily_out s) as [daily|] eqn:Hdaily.
    + destruct (monthly_loop (week_month_map daily)
                  (map GNN.window (GNN.rows meta)) s)
        as [[[]|e] s1] eqn:Hloop; intros Hrun;
        destruct (monthly_loop_shape _ _ _ _ _ Hloop)
          as (m & -> & Hsub & Hall).
      * exists m. split; [exact Hsub|].
        assert (Hs' : s' = Parts.monthly_written m s).
        { unfold Parts.monthly_written.
          change (tmp_month_parts (Parts.with_month_parts m s)) with m
            in Hrun.
          destruct (glob_parts "month=" m); injection Hrun as <- <-;
            reflexivity. }
        split; [by right|]. intros _. split; [exact Hs'|].
        exists meta, daily. split; [reflexivity|]. split; [reflexivity|].
        by apply Hall.
      * injection Hrun as <- <-. exists m. split; [exact Hsub|].
        split; [by left|discriminate].
    + intros Hrun. injection Hrun as <- <-. exists (tmp_month_parts s).
      split; [done|]. split; [by rewrite with_month_parts_same; left|].
      discriminate.
  - intros Hrun. injection Hrun as <- <-. exists (tmp_month_parts s).
    split; [done|]. split; [by rewrite with_month_parts_same; left|].
    discriminate.
Qed.

Lemma build_weekly_stable gnn meta s :
  GNN.week_meta gnn = Some meta ->
  (forall w, w ∈ map GNN.window (GNN.rows meta) ->
     is_Some (tmp_week_parts s !! w)) ->
  (glob_parts "week=" (tmp_week_parts s) <> [] ->
   weekly_out s = Some (concat (glob_parts "week=" (tmp_week_parts s)))) ->
  build_weekly gnn s = (Returned tt, s).
Proof.
  intros Hmeta Hall Hout. unfold build_weekly. rewrite Hmeta.
  unfold bind, gets, modify, ret. rewrite (weekly_loop_noop _ _ Hall).
  destruct (glob_parts "week=" (tmp_week_parts s)) as [|p ps];
    [reflexivity|].
  f_equal. destruct s. cbn in *. rewrite Hout by discriminate. reflexivity.
Qed.

Lemma build_monthly_stable gnn meta daily s :
  GNN.month_meta gnn = Some meta -> daily_out s = Some daily ->
  (forall mo, mo ∈ map GNN.window (GNN.rows meta) ->
     is_Some (tmp_month_parts s !! mo)
     \/ weeks_in_month (week_month_map daily) mo = []) ->
  (glob_parts "month=" (tmp_month_parts s) <> [] ->
   monthly_out s
   = Some (concat (glob_parts "month=" (tmp_month_parts s)))) ->
  build_monthly gnn s = (Returned tt, s).
Proof.
  intros Hmeta Hdaily Hall Hout. unfold build_monthly. rewrite Hmeta.
  unfold bind, gets, modify, ret, read. rewrite Hdaily.
  rewrite (monthly_loop_noop _ _ _ Hall).
  destruct (glob_parts "month=" (tmp_month_parts s)) as [|p ps];
    [reflexivity|].
  f_equal. destruct s. cbn in *. rewrite Hout by discriminate. reflexivity.
Qed.

Lemma rollup_mkdir_present p s : p ∈ dirs s -> mkdir p s = s.
Proof.
  intros H. destruct s. unfold mkdir. cbn in *. f_equal.
  by apply subseteq_union_1_L, singleton_subseteq_l.
Qed.

End RollupStages.

(** ** More of the feature roll-up: runs of the script *)
Section RollupRuns.
Import LSTM.

Lemma prepare_daily_returned gnn s s1 :
  prepare_daily gnn s = (Returned tt, s1) ->
  exists out,
    s1 = write_daily out s
    /\ forall s', src_daily s' = src_daily s ->
         prepare_daily gnn s' = (Returned tt, write_daily out s').
Proof.
  unfold prepare_daily.
  destruct (GNN.targets_global gnn) as [tg|]; [|discriminate].
  destruct (GNN.address_id_map gnn) as [map_rows|]; [|discriminate].
  unfold bind, gets, modify, raise.
  destruct (src_daily s) as [|f files] eqn:Hsrc; [discriminate|].
  intros H. injection H as <-. eexists. split; [reflexivity|].
  intros s' ->. reflexivity.
Qed.

Lemma prepare_daily_frame gnn s o s1 :
  prepare_daily gnn s = (o, s1) ->
  src_daily s1 = src_daily s /\ tmp_week_parts s1 = tmp_week_parts s
  /\ tmp_month_parts s1 = tmp_month_parts s.
Proof.
  unfold prepare_daily.
  destruct (GNN.targets_global gnn) as [tg|];
    [|by intros H; injection H as <- <-].
  destruct (GNN.address_id_map gnn) as [map_rows|];
    [|by intros H; injection H as <- <-].
  unfold bind, gets, modify, raise.
  destruct (src_daily s) as [|f files] eqn:Hsrc;
    by intros H; injection H as <- <-.
Qed.

Lemma write_daily_same out s : daily_out s = Some out -> write_daily out s = s.
Proof. destruct s. cbn. by intros ->. Qed.

Lemma write_readme_same s : readme s = true -> write_readme s = s.
Proof. destruct s. cbn. by intros ->. Qed.

Ltac written :=
  unfold Parts.monthly_written, Parts.weekly_written;
  repeat match goal with
         | |- context [match ?g with [] => _ | _ :: _ => _ end] =>
             destruct g
         end;
  try reflexivity; try done.

(** X15: a run of the script that returned is stable: run again on what
    it left, with the same graph dataset and sources, the script returns
    and leaves every file as it is. *)
Theorem main_rerun_is_stable gnn fs fs' :
  main gnn fs = (Returned tt, fs') -> main gnn fs' = (Returned tt, fs').
Proof.
  intros Hrun. unfold main, bind, modify in Hrun.
  set (s0 := mkdir TMP_MONTH_DIR (mkdir TMP_WEEK_DIR (mkdir OUT_DIR fs)))
    in Hrun.
  destruct (prepare_daily gnn s0) as [[[]|e] s1] eqn:Hd; [|discriminate].
  destruct (build_weekly gnn s1) as [[[]|e] s2] eqn:Hw; [|discriminate].
  destruct (build_monthly gnn s2) as [[[]|e] s3] eqn:Hm; [|discriminate].
  injection Hrun as <-.
  destruct (prepare_daily_returned _ _ _ Hd) as (out & -> & Hd').
  destruct (build_weekly_shape _ _ _ _ Hw) as (mw & _ & _ & Hw').
  destruct (Hw' eq_refl) as (-> & wmeta & Hwmeta & Hweeks). clear Hw'.
  destruct (build_monthly_shape _ _ _ _ Hm) as (mm & _ & _ & Hm').
  destruct (Hm' eq_refl) as (-> & mmeta & daily & Hmmeta & Hdaily & Hmonths).
  clear Hm'.
  set (fs' := write_readme
                (Parts.monthly_written mm
                   (Parts.weekly_written mw (write_daily out s0)))).
  assert (Hdirs : dirs fs' = dirs s0) by (subst fs'; written).
  assert (Hsrc : src_daily fs' = src_daily s0) by (subst fs'; written).
  assert (Hout : daily_out fs' = Some out) by (subst fs'; written).
  assert (Hout2 : daily_out (Parts.weekly_written mw (write_daily out s0))
                  = Some out) by written.
  assert (Hwp : tmp_week_parts fs' = mw) by (subst fs'; written).
  assert (Hmp : tmp_month_parts fs' = mm) by (subst fs'; written).
  assert (Hwo : glob_parts "week=" mw <> [] ->
            weekly_out fs' = Some (concat (glob_parts "week=" mw)))
    by (subst fs'; written).
  assert (Hmo : glob_parts "month=" mm <> [] ->
            monthly_out fs' = Some (concat (glob_parts "month=" mm)))
    by (subst fs'; written).
  assert (Hre : readme fs' = true) by (subst fs'; written).
  clearbody fs'. clear Hd Hw Hm.
  unfold main, bind, modify.
  rewrite (rollup_mkdir_present OUT_DIR fs').
  2:{ rewrite Hdirs. subst s0. cbn [dirs mkdir].
      apply elem_of_union_r, elem_of_union_r, elem_of_union_l.
      by apply elem_of_singleton. }
  rewrite (rollup_mkdir_present TMP_WEEK_DIR fs').
  2:{ rewrite Hdirs. subst s0. cbn [dirs mkdir].
      apply elem_of_union_r, elem_of_union_l. by apply elem_of_singleton. }
  rewrite (rollup_mkdir_present TMP_MONTH_DIR fs').
  2:{ rewrite Hdirs. subst s0. cbn [dirs mkdir].
      apply elem_of_union_l. by apply elem_of_singleton. }
  rewrite (Hd' fs' Hsrc), (write_daily_same _ _ Hout).
  rewrite (build_weekly_stable gnn wmeta fs' Hwmeta);
    [|by rewrite Hwp|by rewrite Hwp].
  rewrite Hout2 in Hdaily. injection Hdaily as <-.
  rewrite (build_monthly_stable gnn mmeta out fs' Hmmeta Hout);
    [|by rewrite Hmp|by rewrite Hmp].
  by rewrite (write_readme_same _ Hre).
Qed.

(** X16: whatever its outcome, a run keeps every part file that exists
    with its content, and does not touch the daily sources: a part file
    is never computed again. *)
Theorem parts_never_rewritten gnn fs o fs' :
  main gnn fs = (o, fs') ->
  tmp_week_parts fs ⊆ tmp_week_parts fs'
  /\ tmp_month_parts fs ⊆ tmp_month_parts fs'
  /\ src_daily fs' = src_daily fs.
Proof.
  intros Hrun. unfold main, bind, modify in Hrun.
  set (s0 := mkdir TMP_MONTH_DIR (mkdir TMP_WEEK_DIR (mkdir OUT_DIR fs)))
    in Hrun.
  destruct (prepare_daily gnn s0) as [o1 s1] eqn:Hd.
  destruct (prepare_daily_frame _ _ _ _ Hd) as (D1 & D2 & D3).
  change (src_daily s0) with (src_daily fs) in D1.
  change (tmp_week_parts s0) with (tmp_week_parts fs) in D2.
  change (tmp_month_parts s0) with (tmp_month_parts fs) in D3.
  destruct o1 as [[]|e]; [|by injection Hrun as <- <-; rewrite D1, D2, D3].
  destruct (build_weekly gnn s1) as [o2 s2] eqn:Hw.
  destruct (build_weekly_shape _ _ _ _ Hw) as (mw & Hsw & Hs2 & _).
  assert (W : src_daily s2 = src_daily s1 /\ tmp_week_parts s2 = mw
              /\ tmp_month_parts s2 = tmp_month_parts s1)
    by (destruct Hs2 as [->| ->]; repeat split; written).
  destruct W as (W1 & W2 & W3).
  destruct o2 as [[]|e].
  2:{ injection Hrun as <- <-. rewrite W1, W2, W3, D1, D3, <- D2. done. }
  destruct (build_monthly gnn s2) as [o3 s3] eqn:Hm.
  destruct (build_monthly_shape _ _ _ _ Hm) as (mm & Hsm & Hs3 & _).
  assert (M : src_daily s3 = src_daily s2
              /\ tmp_week_parts s3 = tmp_week_parts s2
              /\ tmp_month_parts s3 = mm)
    by (destruct Hs3 as [->| ->]; repeat split; written).
  destruct M as (M1 & M2 & M3).
  assert (Hfin : tmp_week_parts fs ⊆ tmp_week_parts s3
                 /\ tmp_month_parts fs ⊆ tmp_month_parts s3
                 /\ src_daily s3 = src_daily fs).
  { rewrite M1, M2, M3, W1, W2, D1, <- D2. split; [exact Hsw|].
    split; [|reflexivity]. by rewrite <- D3, <- W3. }
  destruct o3 as [[]|e]; injection Hrun as <- <-; exact Hfin.
Qed.

(** X17: without the week index the script stops after the daily table:
    the labelled daily rows are written, and no weekly or monthly file
    is. *)
Theorem missing_week_index_after_daily gnn fs tg map_rows :
  GNN.targets_global gnn = Some tg ->
  GNN.address_id_map gnn = Some map_rows ->
  src_daily fs <> [] -> GNN.week_meta gnn = None ->
  main gnn fs
  = (Raised (FileNotFoundError WEEK_META),
     write_daily
       (Parts.labelled_daily map_rows (concat (src_daily fs)))
       (mkdir TMP_MONTH_DIR (mkdir TMP_WEEK_DIR (mkdir OUT_DIR fs)))).
Proof.
  intros Htg Hmap Hsrc Hweek. unfold main, bind, modify.
  unfold prepare_daily. rewrite Htg, Hmap.
  unfold bind, gets, modify, raise. cbn [src_daily mkdir].
  destruct (src_daily fs) as [|f files] eqn:Hs; [contradiction|].
  unfold build_weekly. rewrite Hweek. reflexivity.
Qed.

(** *** The rows of a part *)

Lemma get_aggregate agg group c :
  c ∈ out_columns ->
  get c (aggregate agg group) = agg c (map (get c) group).
Proof.
  unfold aggregate. generalize out_columns. intros cols.
  induction cols as [|c' cols IH]; intros Hc; [inversion Hc|].
  unfold get. cbn [map]. rewrite filter_cons. cbn [fst].
  destruct (decide (c' = c)) as [->|Hne]; [reflexivity|].
  apply IH. apply elem_of_cons in Hc as [?|Hc]; [congruence|exact Hc].
Qed.

Lemma aggregate_columns agg group :
  map fst (aggregate agg group) = out_columns.
Proof.
  unfold aggregate. rewrite map_map. cbn [fst]. apply map_id.
Qed.

Lemma out_columns_spec c : c ∈ out_columns <-> c ∈ INT_COUNTS ++ ETH_NUMS.
Proof.
  unfold out_columns. rewrite elem_of_sort_by, elem_of_remove_dups.
  assert (H1 : Forall (fun c => c ∈ INT_COUNTS ++ ETH_NUMS)
                 (SUM_ONLY ++ MAX_ONLY))
    by (apply (bool_decide_unpack _); vm_compute; exact I).
  assert (H2 : Forall (fun c => c ∈ SUM_ONLY ++ MAX_ONLY)
                 (INT_COUNTS ++ ETH_NUMS))
    by (apply (bool_decide_unpack _); vm_compute; exact I).
  rewrite Forall_forall in H1, H2. split; auto.
Qed.

(** X18: a weekly part has one row for each node that has a labelled
    daily row in the week; the row carries the label of the week and the
    26 feature columns, and each column holds the aggregate, by the
    policy of the column, of the daily values of that node in that
    week. *)
Theorem weekly_part_rows daily w :
  let part := weekly_part daily w in
  NoDup (map r_node_id part)
  /\ (forall n, n ∈ map r_node_id part <->
        exists r, r ∈ daily /\ f_week r = w /\ f_node_id r = n)
  /\ (forall c, c ∈ out_columns <-> c ∈ INT_COUNTS ++ ETH_NUMS)
  /\ forall row, row ∈ part ->
       r_window row = w
       /\ map fst (r_feats row) = out_columns
       /\ forall c, c ∈ out_columns ->
            get c (r_feats row)
            = weekly_agg c
                (map (fun r => get c (f_feats r))
                   (filter
                      (fun r =>
                         f_node_id r = r_node_id row /\ f_week r = w)
                      daily)).
Proof.
  intros part. subst part. unfold weekly_part.
  set (rows := filter (fun r => f_week r = w) daily).
  assert (Hids : forall n, n ∈ remove_dups (map f_node_id rows) <->
            exists r, r ∈ daily /\ f_week r = w /\ f_node_id r = n).
  { intros n. rewrite elem_of_remove_dups, list_elem_of_fmap. split.
    - intros (r & -> & Hr). apply list_elem_of_filter in Hr as [Hw Hr].
      by exists r.
    - intros (r & Hr & Hw & <-). exists r. split; [reflexivity|].
      by apply list_elem_of_filter. }
  rewrite map_map. cbn [r_node_id]. rewrite map_id.
  split; [apply NoDup_remove_dups|]. split; [exact Hids|].
  split; [apply out_columns_spec|].
  intros row Hrow. apply list_elem_of_fmap in Hrow as (n & -> & _).
  cbn [r_window r_feats r_node_id].
  split; [reflexivity|]. split; [apply aggregate_columns|].
  intros c Hc. rewrite (get_aggregate _ _ _ Hc), map_map.
  subst rows. by rewrite list_filter_filter.
Qed.

Lemma weeks_in_month_spec daily m w :
  w ∈ weeks_in_month (week_month_map daily) m <->
  exists r, r ∈ daily /\ f_week r = w /\ f_month r = m.
Proof.
  unfold weeks_in_month, week_month_map. rewrite list_elem_of_fmap. split.
  - intros (p & -> & Hp). apply list_elem_of_filter in Hp as [Hm Hp].
    rewrite elem_of_remove_dups in Hp.
    apply list_elem_of_fmap in Hp as (r & -> & Hr).
    exists r. by repeat split.
  - intros (r & Hr & <- & <-). exists (f_week r, f_month r).
    split; [reflexivity|]. apply list_elem_of_filter.
    split; [reflexivity|]. rewrite elem_of_remove_dups.
    apply list_elem_of_fmap. by exists r.
Qed.

(** X19: the monthly part of a month has one row for each node with a
    weekly row in a week recorded for the month, and a week is recorded
    for every month in which a labelled daily row of it falls; each
    column of the row holds the aggregate of that node's weekly values
    over all those weeks, whole. *)
Theorem monthly_part_rows daily weekly m :
  let part :=
    monthly_part weekly (weeks_in_month (week_month_map daily) m) m in
  let recorded wk := exists r, r ∈ daily /\ f_week r = wk /\ f_month r = m in
  NoDup (map r_node_id part)
  /\ (forall n, n ∈ map r_node_id part <->
        exists wr, wr ∈ weekly /\ recorded (r_window wr)
          /\ r_node_id wr = n)
  /\ forall row, row ∈ part ->
       r_window row = m
       /\ map fst (r_feats row) = out_columns
       /\ forall c, c ∈ out_columns ->
            get c (r_feats row)
            = monthly_agg c
                (map (fun wr => get c (r_feats wr))
                   (filter
                      (fun wr =>
                         r_node_id wr = r_node_id row
                         /\ r_window wr
                            ∈ weeks_in_month (week_month_map daily) m)
                      weekly)).
Proof.
  intros part recorded. subst part. unfold monthly_part.
  set (w_in_m := weeks_in_month (week_month_map daily) m).
  set (rows := filter (fun r => r_window r ∈ w_in_m) weekly).
  assert (Hids : forall n, n ∈ remove_dups (map r_node_id rows) <->
            exists wr, wr ∈ weekly /\ recorded (r_window wr)
              /\ r_node_id wr = n).
  { intros n. rewrite elem_of_remove_dups, list_elem_of_fmap. split.
    - intros (r & -> & Hr). apply list_elem_of_filter in Hr as [Hw Hr].
      exists r. split; [exact Hr|]. split; [|reflexivity].
      by apply weeks_in_month_spec.
    - intros (r & Hr & Hw & <-). exists r. split; [reflexivity|].
      apply list_elem_of_filter. split; [|exact Hr].
      by apply weeks_in_month_spec. }
  rewrite map_map. cbn [r_node_id]. rewrite map_id.
  split; [apply NoDup_remove_dups|]. split; [exact Hids|].
  intros row Hrow. apply list_elem_of_fmap in Hrow as (n & -> & _).
  cbn [r_window r_feats r_node_id].
  split; [reflexivity|]. split; [apply aggregate_columns|].
  intros c Hc. rewrite (get_aggregate _ _ _ Hc), map_map.
  subst rows. by rewrite list_filter_filter.
Qed.

End RollupRuns.

(** ** More of the feature roll-up: a run with every input *)
Section RollupBuild.
Import LSTM.





End RollupBuild.

(** ** The checksum tool: the table read back *)
Section TableText.
Import Checksums Generate.

Lemma append_cons c s t : String c s +:+ t = String c (s +:+ t).
Proof. reflexivity. Qed.

Lemma append_nil_l t : EmptyString +:+ t = t.
Proof. reflexivity. Qed.

Ltac app := rewrite ?append_cons, ?append_nil_l.

Lemma append_nil_r s : s +:+ EmptyString = s.
Proof. induction s as [|c s IH]; app; [reflexivity|by rewrite IH]. Qed.

Lemma append_assoc a b c : (a +:+ b) +:+ c = a +:+ (b +:+ c).
Proof. induction a as [|x a IH]; app; [reflexivity|by rewrite IH]. Qed.

(** *** Lines *)

Lemma universal_newlines_line b rest :
  one_line b = true ->
  universal_newlines (b +:+ String LF rest)
  = b +:+ String LF (universal_newlines rest).
Proof.
  induction b as [|c b IH]; intros H.
  - reflexivity.
  - cbn [one_line] in H. apply andb_prop in H as [H Hb].
    apply andb_prop in H as [_ Hcr]. apply negb_true_iff in Hcr.
    app. cbn [universal_newlines]. rewrite Hcr, IH by exact Hb.
    reflexivity.
Qed.

Lemma split_lines_line b rest :
  one_line b = true ->
  split_lines (b +:+ String LF rest)
  = (b +:+ String LF EmptyString) :: split_lines rest.
Proof.
  induction b as [|c b IH]; intros H.
  - app. cbn [split_lines]. by rewrite Ascii.eqb_refl.
  - cbn [one_line] in H. apply andb_prop in H as [H Hb].
    apply andb_prop in H as [Hlf _]. apply negb_true_iff in Hlf.
    app. cbn [split_lines]. rewrite Hlf, IH by exact Hb.
    reflexivity.
Qed.

(** A text made of lines that end in their only line break reads back
    as these lines. *)
Lemma read_lines_join bodies :
  Forall (fun b => one_line b = true) bodies ->
  read_lines (join (map (fun b => b +:+ newline) bodies))
  = map (fun b => b +:+ newline) bodies.
Proof.
  unfold read_lines. induction 1 as [|b bodies Hb _ IH]; [reflexivity|].
  cbn [map join foldr]. unfold newline at 1.
  rewrite append_assoc. app.
  rewrite universal_newlines_line, split_lines_line by exact Hb.
  fold (join (map (fun b => b +:+ newline) bodies)).
  by rewrite IH.
Qed.

(** *** Stripping and splitting *)

Lemma rstrip_cons p c s :
  rstrip p s <> EmptyString ->
  rstrip p (String c s) = String c (rstrip p s).
Proof. cbn [rstrip]. by destruct (rstrip p s). Qed.

Lemma rstrip_app p a s :
  rstrip p s <> EmptyString -> rstrip p (a +:+ s) = a +:+ rstrip p s.
Proof.
  intros H. induction a as [|c a IH]; [reflexivity|].
  app. rewrite rstrip_cons, IH; [reflexivity|].
  rewrite IH. by destruct a, (rstrip p s).
Qed.

Lemma rstrip_all p s : all_of p s = true -> rstrip p s = EmptyString.
Proof.
  induction s as [|c s IH]; [reflexivity|]. cbn [all_of rstrip].
  intros H. apply andb_prop in H as [Hc Hs]. by rewrite IH, Hc.
Qed.

Lemma rstrip_app_all p a t :
  all_of p t = true -> rstrip p (a +:+ t) = rstrip p a.
Proof.
  intros Ht. induction a as [|c a IH].
  - app. by rewrite rstrip_all.
  - app. cbn [rstrip]. by rewrite IH.
Qed.

Lemma lstrip_app_all p a t :
  all_of p t = true ->
  lstrip p (a +:+ t)
  = match lstrip p a with
    | EmptyString => EmptyString
    | r => r +:+ t
    end.
Proof.
  intros Ht. induction a as [|c a IH].
  - app. cbn [lstrip]. clear -Ht. induction t as [|c t IH]; [done|].
    cbn [all_of] in Ht. apply andb_prop in Ht as [Hc Ht].
    cbn [lstrip]. rewrite Hc. by apply IH.
  - app. cbn [lstrip]. destruct (p c); [exact IH|reflexivity].
Qed.

(** Blanks around a cell do not count. *)
Lemma strip_padded s :
  strip (String " " (s +:+ String " " EmptyString)) = strip s.
Proof.
  unfold strip, strip_with. cbn [lstrip].
  change (is_space " ") with true. cbv iota.
  rewrite lstrip_app_all by reflexivity.
  destruct (lstrip is_space s) as [|c r]; [reflexivity|].
  by rewrite rstrip_app_all.
Qed.

Lemma split_cons_other c d s x xs :
  Ascii.eqb d c = false -> split c s = x :: xs ->
  split c (String d s) = String d x :: xs.
Proof. intros Hd Hs. cbn [split]. by rewrite Hd, Hs. Qed.

Lemma split_cons_sep c s : split c (String c s) = EmptyString :: split c s.
Proof. cbn [split]. by rewrite Ascii.eqb_refl. Qed.

Lemma split_app c a s x xs :
  avoids c a = true -> split c s = x :: xs ->
  split c (a +:+ s) = (a +:+ x) :: xs.
Proof.
  intros Ha Hs. induction a as [|d a IH]; [exact Hs|].
  cbn [avoids] in Ha. apply andb_prop in Ha as [Hd Ha].
  apply negb_true_iff in Hd. app.
  by apply split_cons_other; [|apply IH].
Qed.

Lemma remove_char_app c a b :
  remove_char c (a +:+ b) = remove_char c a +:+ remove_char c b.
Proof.
  induction a as [|d a IH]; [reflexivity|]. app. cbn [remove_char].
  destruct (Ascii.eqb d c); [exact IH|]. app. by rewrite IH.
Qed.

Lemma remove_char_avoids c a : avoids c a = true -> remove_char c a = a.
Proof.
  induction a as [|d a IH]; [reflexivity|]. cbn [avoids remove_char].
  intros H. apply andb_prop in H as [Hd Ha]. apply negb_true_iff in Hd.
  by rewrite Hd, IH.
Qed.

(** A cell between backticks reads back as it was written. *)
Lemma quoted_cell s :
  avoids "`" s = true ->
  remove_char "`"
    (strip (String " " (String "`" (s +:+ String "`" (String " " EmptyString)))))
  = s.
Proof.
  intros Hs. unfold strip, strip_with. cbn [lstrip].
  change (is_space " ") with true. change (is_space "`") with false.
  cbv iota.
  assert (Ht : rstrip is_space (String "`" (String " " EmptyString))
               = String "`" EmptyString) by reflexivity.
  assert (Hx : rstrip is_space (s +:+ String "`" (String " " EmptyString))
               = s +:+ String "`" EmptyString)
    by (rewrite rstrip_app; rewrite Ht; [reflexivity|discriminate]).
  rewrite rstrip_cons; rewrite Hx; [|by destruct s].
  cbn [remove_char]. change (Ascii.eqb "`" "`") with true. cbv iota.
  rewrite remove_char_app, remove_char_avoids by exact Hs.
  cbn [remove_char]. change (Ascii.eqb "`" "`") with true. cbv iota.
  apply append_nil_r.
Qed.

Lemma plain_avoids s :
  plain s = true ->
  one_line s = true /\ avoids "|" s = true /\ avoids "`" s = true.
Proof.
  induction s as [|c s IH]; [done|]. cbn [plain one_line avoids].
  intros H. apply andb_prop in H as [H Hs].
  apply andb_prop in H as [H Hq]. apply andb_prop in H as [H Hb].
  apply andb_prop in H as [Hlf Hcr].
  destruct (IH Hs) as (-> & -> & ->). by rewrite Hlf, Hcr, Hb, Hq.
Qed.

Lemma one_line_app a b :
  one_line (a +:+ b) = one_line a && one_line b.
Proof.
  induction a as [|c a IH]; [reflexivity|]. app. cbn [one_line].
  rewrite IH. by rewrite andb_assoc.
Qed.

End TableText.

Section TableRows.
Import Checksums Generate.

Ltac app := rewrite ?append_cons, ?append_nil_l.

Lemma rstrip_keep_cons p c s r :
  rstrip p s = r /\ r <> EmptyString ->
  rstrip p (String c s) = String c r /\ String c r <> EmptyString.
Proof.
  intros [<- Hr]. split; [by apply rstrip_cons|discriminate].
Qed.

Lemma rstrip_keep_app p a s r :
  rstrip p s = r /\ r <> EmptyString ->
  rstrip p (a +:+ s) = a +:+ r /\ a +:+ r <> EmptyString.
Proof.
  intros [<- Hr]. split; [by apply rstrip_app|].
  by destruct a, (rstrip p s).
Qed.

Lemma rstrip_keep_last p c t :
  p c = false -> all_of p t = true ->
  rstrip p (String c t) = String c EmptyString
  /\ String c EmptyString <> EmptyString.
Proof.
  intros Hc Ht. split; [|discriminate].
  change (String c t) with (String c EmptyString +:+ t).
  rewrite rstrip_app_all by exact Ht. cbn [rstrip]. by rewrite Hc.
Qed.

Ltac keep :=
  repeat first
    [ eapply rstrip_keep_last; reflexivity
    | eapply rstrip_keep_cons
    | eapply rstrip_keep_app ].

Lemma split_cons_sep_eq c s l :
  split c s = l -> split c (String c s) = EmptyString :: l.
Proof. intros <-. apply split_cons_sep. Qed.

Lemma split_last c a : avoids c a = true -> split c a = [a].
Proof.
  intros Ha. rewrite <- (append_nil_r a) at 1.
  rewrite (split_app c a EmptyString EmptyString []);
    [by rewrite append_nil_r|exact Ha|reflexivity].
Qed.

Lemma avoids_cons c d s :
  Ascii.eqb d c = false -> avoids c s = true -> avoids c (String d s) = true.
Proof. intros Hd Hs. cbn [avoids]. by rewrite Hd, Hs. Qed.

Lemma avoids_app c a b :
  avoids c a = true -> avoids c b = true -> avoids c (a +:+ b) = true.
Proof.
  intros Ha Hb. induction a as [|d a IH]; [exact Hb|].
  cbn [avoids] in Ha. apply andb_prop in Ha as [Hd Ha]. app.
  cbn [avoids]. by rewrite Hd, IH.
Qed.

Local Notation "c ::: s" := (String c%char s)
  (at level 60, right associativity).

Lemma strip_quoted x :
  strip ("`" ::: x +:+ "`" ::: EmptyString) = "`" ::: x +:+ "`" ::: EmptyString.
Proof.
  unfold strip, strip_with. cbn [lstrip].
  change (is_space "`") with false. cbv iota.
  assert (K : forall a b : string, a = b /\ b <> EmptyString -> a = b)
    by (by intros ?? [? _]).
  apply K. keep.
Qed.

Lemma unquote x :
  avoids "`" x = true ->
  remove_char "`" (strip ("`" ::: x +:+ "`" ::: EmptyString)) = x.
Proof.
  intros Hx. rewrite strip_quoted. cbn [remove_char].
  change (Ascii.eqb "`" "`") with true. cbv iota.
  rewrite remove_char_app, remove_char_avoids by exact Hx.
  cbn [remove_char]. change (Ascii.eqb "`" "`") with true. cbv iota.
  apply append_nil_r.
Qed.

Lemma strip_cell b :
  strip (" " ::: b +:+ " " ::: EmptyString) = strip b.
Proof. apply strip_padded. Qed.

(** The line of a row without MD5, cell by cell. *)
Lemma parse_cells_3 p s h :
  avoids "|" p = true -> avoids "|" s = true -> avoids "|" h = true ->
  parse_line
    ("|" ::: " " ::: "`" ::: p +:+ "`" ::: " " ::: "|" ::: " " ::: s
       +:+ " " ::: "|" ::: " " ::: "`" ::: h +:+ "`" ::: " " ::: "|"
       ::: LF ::: EmptyString)
  = Some (remove_char "`" (strip ("`" ::: p +:+ "`" ::: EmptyString)),
          (remove_char "`" (strip ("`" ::: h +:+ "`" ::: EmptyString)),
           None, strip s)).
Proof.
  intros Hp Hs Hh. unfold parse_line.
  assert (K : forall a b : string, a = b /\ b <> EmptyString -> a = b)
    by (by intros ?? [? _]).
  assert (Hstrip :
    strip ("|" ::: " " ::: "`" ::: p +:+ "`" ::: " " ::: "|" ::: " " ::: s
             +:+ " " ::: "|" ::: " " ::: "`" ::: h +:+ "`" ::: " " ::: "|"
             ::: LF ::: EmptyString)
    = "|" ::: " " ::: "`" ::: p +:+ "`" ::: " " ::: "|" ::: " " ::: s
        +:+ " " ::: "|" ::: " " ::: "`" ::: h +:+ "`" ::: " " ::: "|"
        ::: EmptyString).
  { unfold strip, strip_with. cbn [lstrip].
    change (is_space "|") with false. cbv iota. apply K. keep. }
  rewrite Hstrip. clear Hstrip.
  change (startswith ("|" ::: " " ::: "`" ::: ?x) "| ") with true.
  change (startswith ("|" ::: " " ::: "`" ::: ?x) "| Path") with false.
  cbv iota beta. cbn [negb orb].
  assert (Hbars :
    strip_with (Ascii.eqb "|")
      ("|" ::: " " ::: "`" ::: p +:+ "`" ::: " " ::: "|" ::: " " ::: s
         +:+ " " ::: "|" ::: " " ::: "`" ::: h +:+ "`" ::: " " ::: "|"
         ::: EmptyString)
    = " " ::: "`" ::: p +:+ "`" ::: " " ::: "|" ::: " " ::: s
        +:+ " " ::: "|" ::: " " ::: "`" ::: h +:+ "`" ::: " "
        ::: EmptyString).
  { unfold strip_with. cbn [lstrip].
    change (Ascii.eqb "|" "|") with true.
    change (Ascii.eqb "|" " ") with false. cbv iota. apply K. keep. }
  rewrite Hbars. clear Hbars.
  assert (Hsplit :
    split "|"
      (" " ::: "`" ::: p +:+ "`" ::: " " ::: "|" ::: " " ::: s
         +:+ " " ::: "|" ::: " " ::: "`" ::: h +:+ "`" ::: " "
         ::: EmptyString)
    = [" " ::: ("`" ::: p +:+ "`" ::: EmptyString) +:+ " " ::: EmptyString;
       " " ::: s +:+ " " ::: EmptyString;
       " " ::: ("`" ::: h +:+ "`" ::: EmptyString) +:+ " " ::: EmptyString]).
  { app. rewrite !append_assoc. app.
    eapply split_cons_other; [reflexivity|].
    eapply split_cons_other; [reflexivity|].
    eapply split_app; [exact Hp|].
    eapply split_cons_other; [reflexivity|].
    eapply split_cons_other; [reflexivity|].
    apply split_cons_sep_eq.
    eapply split_cons_other; [reflexivity|].
    eapply split_app; [exact Hs|].
    eapply split_cons_other; [reflexivity|].
    apply split_cons_sep_eq.
    apply split_last.
    apply avoids_cons; [reflexivity|]. apply avoids_cons; [reflexivity|].
    apply avoids_app; [exact Hh|reflexivity]. }
  rewrite Hsplit. clear Hsplit. cbn [map].
  rewrite !strip_cell. cbn [remove_char]. reflexivity.
Qed.

(** The line of a row with MD5. *)
Lemma parse_cells_4 p s h m :
  avoids "|" p = true -> avoids "|" s = true -> avoids "|" h = true ->
  avoids "|" m = true ->
  parse_line
    ("|" ::: " " ::: "`" ::: p +:+ "`" ::: " " ::: "|" ::: " " ::: s
       +:+ " " ::: "|" ::: " " ::: "`" ::: h +:+ "`" ::: " " ::: "|"
       ::: " " ::: "`" ::: m +:+ "`" ::: " " ::: "|"
       ::: LF ::: EmptyString)
  = Some (remove_char "`" (strip ("`" ::: p +:+ "`" ::: EmptyString)),
          (remove_char "`" (strip ("`" ::: h +:+ "`" ::: EmptyString)),
           match
             remove_char "`" (strip ("`" ::: m +:+ "`" ::: EmptyString))
           with
           | EmptyString => None
           | _ =>
               Some
                 (remove_char "`"
                    (strip ("`" ::: m +:+ "`" ::: EmptyString)))
           end,
           strip s)).
Proof.
  intros Hp Hs Hh Hm. unfold parse_line.
  assert (K : forall a b : string, a = b /\ b <> EmptyString -> a = b)
    by (by intros ?? [? _]).
  assert (Hstrip :
    strip ("|" ::: " " ::: "`" ::: p +:+ "`" ::: " " ::: "|" ::: " " ::: s
             +:+ " " ::: "|" ::: " " ::: "`" ::: h +:+ "`" ::: " " ::: "|"
             ::: " " ::: "`" ::: m +:+ "`" ::: " " ::: "|"
             ::: LF ::: EmptyString)
    = "|" ::: " " ::: "`" ::: p +:+ "`" ::: " " ::: "|" ::: " " ::: s
        +:+ " " ::: "|" ::: " " ::: "`" ::: h +:+ "`" ::: " " ::: "|"
        ::: " " ::: "`" ::: m +:+ "`" ::: " " ::: "|"
        ::: EmptyString).
  { unfold strip, strip_with. cbn [lstrip].
    change (is_space "|") with false. cbv iota. apply K. keep. }
  rewrite Hstrip. clear Hstrip.
  change (startswith ("|" ::: " " ::: "`" ::: ?x) "| ") with true.
  change (startswith ("|" ::: " " ::: "`" ::: ?x) "| Path") with false.
  cbv iota beta. cbn [negb orb].
  assert (Hbars :
    strip_with (Ascii.eqb "|")
      ("|" ::: " " ::: "`" ::: p +:+ "`" ::: " " ::: "|" ::: " " ::: s
         +:+ " " ::: "|" ::: " " ::: "`" ::: h +:+ "`" ::: " " ::: "|"
         ::: " " ::: "`" ::: m +:+ "`" ::: " " ::: "|"
         ::: EmptyString)
    = " " ::: "`" ::: p +:+ "`" ::: " " ::: "|" ::: " " ::: s
        +:+ " " ::: "|" ::: " " ::: "`" ::: h +:+ "`" ::: " " ::: "|"
        ::: " " ::: "`" ::: m +:+ "`" ::: " "
        ::: EmptyString).
  { unfold strip_with. cbn [lstrip].
    change (Ascii.eqb "|" "|") with true.
    change (Ascii.eqb "|" " ") with false. cbv iota. apply K. keep. }
  rewrite Hbars. clear Hbars.
  assert (Hsplit :
    split "|"
      (" " ::: "`" ::: p +:+ "`" ::: " " ::: "|" ::: " " ::: s
         +:+ " " ::: "|" ::: " " ::: "`" ::: h +:+ "`" ::: " " ::: "|"
         ::: " " ::: "`" ::: m +:+ "`" ::: " "
         ::: EmptyString)
    = [" " ::: ("`" ::: p +:+ "`" ::: EmptyString) +:+ " " ::: EmptyString;
       " " ::: s +:+ " " ::: EmptyString;
       " " ::: ("`" ::: h +:+ "`" ::: EmptyString) +:+ " " ::: EmptyString;
       " " ::: ("`" ::: m +:+ "`" ::: EmptyString) +:+ " " ::: EmptyString]).
  { app. rewrite !append_assoc. app.
    eapply split_cons_other; [reflexivity|].
    eapply split_cons_other; [reflexivity|].
    eapply split_app; [exact Hp|].
    eapply split_cons_other; [reflexivity|].
    eapply split_cons_other; [reflexivity|].
    apply split_cons_sep_eq.
    eapply split_cons_other; [reflexivity|].
    eapply split_app; [exact Hs|].
    eapply split_cons_other; [reflexivity|].
    apply split_cons_sep_eq.
    eapply split_cons_other; [reflexivity|].
    eapply split_cons_other; [reflexivity|].
    eapply split_app; [exact Hh|].
    eapply split_cons_other; [reflexivity|].
    eapply split_cons_other; [reflexivity|].
    apply split_cons_sep_eq.
    apply split_last.
    apply avoids_cons; [reflexivity|]. apply avoids_cons; [reflexivity|].
    apply avoids_app; [exact Hm|reflexivity]. }
  rewrite Hsplit. clear Hsplit. cbn [map].
  rewrite !strip_cell. reflexivity.
Qed.

(** A row of the table reads back as its path and its entry. *)
Lemma parse_md_row include_md5 r :
  plain (path_rel r) = true -> plain (size_hr r) = true ->
  plain (row_sha256 r) = true ->
  plain (default EmptyString (row_md5 r)) = true ->
  parse_line (md_row include_md5 r)
  = Some (path_rel r, entry_of include_md5 r).
Proof.
  intros Hp Hs Hh Hm.
  apply plain_avoids in Hp as (_ & Hp1 & Hp2).
  apply plain_avoids in Hs as (_ & Hs1 & _).
  apply plain_avoids in Hh as (_ & Hh1 & Hh2).
  apply plain_avoids in Hm as (_ & Hm1 & Hm2).
  unfold md_row, entry_of, newline.
  destruct include_md5; app.
  - rewrite parse_cells_4 by assumption. by rewrite !unquote.
  - rewrite parse_cells_3 by assumption. by rewrite !unquote.
Qed.

Lemma md_row_line include_md5 r :
  plain (path_rel r) = true -> plain (size_hr r) = true ->
  plain (row_sha256 r) = true ->
  plain (default EmptyString (row_md5 r)) = true ->
  exists b, md_row include_md5 r = b +:+ newline /\ one_line b = true.
Proof.
  intros Hp Hs Hh Hm.
  apply plain_avoids in Hp as (Hp & _). apply plain_avoids in Hs as (Hs & _).
  apply plain_avoids in Hh as (Hh & _). apply plain_avoids in Hm as (Hm & _).
  unfold md_row. destruct include_md5.
  - exists ("| `" +:+ path_rel r +:+ "` | " +:+ size_hr r +:+ " | `"
              +:+ row_sha256 r +:+ "` | `"
              +:+ default EmptyString (row_md5 r) +:+ "` |").
    split; [by rewrite !append_assoc|].
    rewrite !one_line_app, Hp, Hs, Hh, Hm. reflexivity.
  - exists ("| `" +:+ path_rel r +:+ "` | " +:+ size_hr r +:+ " | `"
              +:+ row_sha256 r +:+ "` |").
    split; [by rewrite !append_assoc|].
    rewrite !one_line_app, Hp, Hs, Hh. reflexivity.
Qed.

End TableRows.

Section TableRoundTrip.
Import Checksums Generate.

Ltac app := rewrite ?append_cons, ?append_nil_l.

Lemma rstrip_head p c s :
  p c = false -> exists r, rstrip p (String c s) = String c r.
Proof.
  intros Hc. cbn [rstrip]. destruct (rstrip p s); rewrite ?Hc; eauto.
Qed.

Lemma parse_header stamp include_md5 l :
  l ∈ md_header stamp include_md5 -> parse_line l = None.
Proof.
  unfold md_header. intros Hl. apply elem_of_app in Hl as [Hl|Hl].
  - apply elem_of_cons in Hl as [->|Hl]; [reflexivity|].
    apply elem_of_cons in Hl as [->|Hl].
    + unfold parse_line, strip, strip_with. app. cbn [lstrip].
      change (is_space "G") with false. cbv iota.
      match goal with
      | |- context [rstrip is_space (String "G" ?s)] =>
          destruct (rstrip_head is_space "G" s) as (r & ->);
            [reflexivity|]
      end.
      reflexivity.
    + apply list_elem_of_singleton in Hl as ->. reflexivity.
  - destruct include_md5;
      (apply elem_of_cons in Hl as [->|Hl]; [reflexivity|]);
      apply list_elem_of_singleton in Hl as ->; reflexivity.
Qed.

Lemma header_lines stamp include_md5 :
  one_line stamp = true ->
  exists bodies,
    md_header stamp include_md5 = map (fun b => b +:+ newline) bodies
    /\ Forall (fun b => one_line b = true) bodies.
Proof.
  intros Hs. unfold md_header. destruct include_md5.
  - exists ["# Checksums"; "Generated at: " +:+ stamp; EmptyString;
            "| Path | Size | SHA256 | MD5 |";
            "|------|------|--------|-----|"].
    split; [cbn [map app]; by rewrite append_assoc|].
    repeat constructor. by rewrite one_line_app, Hs.
  - exists ["# Checksums"; "Generated at: " +:+ stamp; EmptyString;
            "| Path | Size | SHA256 |";
            "|------|------|--------|"].
    split; [cbn [map app]; by rewrite append_assoc|].
    repeat constructor. by rewrite one_line_app, Hs.
Qed.

Lemma plain_row_cells r :
  plain_row r = true ->
  plain (path_rel r) = true /\ plain (size_hr r) = true
  /\ plain (row_sha256 r) = true
  /\ plain (default EmptyString (row_md5 r)) = true.
Proof.
  unfold plain_row. intros H. apply andb_prop in H as [H H4].
  apply andb_prop in H as [H H3]. apply andb_prop in H as [H1 H2]. done.
Qed.

(** The text of the table reads back as its lines. *)
Lemma read_written stamp rows include_md5 :
  one_line stamp = true -> Forall (fun r => plain_row r = true) rows ->
  read_lines (write_checksums_md stamp rows include_md5)
  = md_header stamp include_md5 ++ map (md_row include_md5) rows.
Proof.
  intros Hs Hrows. unfold write_checksums_md.
  destruct (header_lines stamp include_md5 Hs) as (hb & -> & Hhb).
  assert (Hr : exists rb,
            map (md_row include_md5) rows = map (fun b => b +:+ newline) rb
            /\ Forall (fun b => one_line b = true) rb).
  { induction Hrows as [|r rows Hr _ (rb & Heq & Hrb)].
    - exists []. by split.
    - apply plain_row_cells in Hr as (H1 & H2 & H3 & H4).
      destruct (md_row_line include_md5 r H1 H2 H3 H4) as (b & Hb & Hbl).
      exists (b :: rb). cbn [map]. rewrite Hb, Heq. by split; [|constructor]. }
  destruct Hr as (rb & -> & Hrb).
  rewrite <- map_app. apply read_lines_join. by apply Forall_app.
Qed.

Lemma foldl_parse_none (lines : list string) (acc : gmap string entry) :
  (forall l, l ∈ lines -> parse_line l = None) ->
  foldl (fun out line =>
           match parse_line line with
           | Some (path, e) => <[path := e]> out
           | None => out
           end) acc lines = acc.
Proof.
  revert acc. induction lines as [|l lines IH]; intros acc H; [done|].
  cbn [foldl]. rewrite (H l) by left. apply IH. intros l' Hl'.
  apply H. by right.
Qed.

Lemma foldl_parse_rows include_md5 rows :
  forall (acc : gmap string entry) p,
  Forall (fun r => plain_row r = true) rows ->
  NoDup (map path_rel rows) ->
  foldl (fun out line =>
           match parse_line line with
           | Some (path, e) => <[path := e]> out
           | None => out
           end) acc (map (md_row include_md5) rows) !! p
  = match find (fun r => bool_decide (path_rel r = p)) rows with
    | Some r => Some (entry_of include_md5 r)
    | None => acc !! p
    end.
Proof.
  induction rows as [|r rows IH]; intros acc p Hplain Hnd; [done|].
  apply Forall_cons in Hplain as [Hr Hplain].
  cbn [map] in Hnd. apply NoDup_cons in Hnd as [Hnew Hnd].
  apply plain_row_cells in Hr as (H1 & H2 & H3 & H4).
  cbn [map foldl find].
  rewrite (parse_md_row include_md5 r H1 H2 H3 H4).
  rewrite (IH _ p Hplain Hnd).
  destruct (decide (path_rel r = p)) as [<-|Hne].
  - rewrite bool_decide_eq_true_2 by done.
    assert (Hfind : find (fun r' => bool_decide (path_rel r' = path_rel r))
                      rows = None).
    { clear -Hnew. induction rows as [|r' rows IH]; [done|].
      cbn [map] in Hnew. apply not_elem_of_cons in Hnew as [Hne Hnew].
      cbn [find]. rewrite bool_decide_eq_false_2 by done. by apply IH. }
    by rewrite Hfind, lookup_insert_eq.
  - rewrite bool_decide_eq_false_2 by done.
    by rewrite lookup_insert_ne.
Qed.

Lemma find_path_unique rows r :
  NoDup (map path_rel rows) -> r ∈ rows ->
  find (fun r' => bool_decide (path_rel r' = path_rel r)) rows = Some r.
Proof.
  induction rows as [|r' rows IH]; intros Hnd Hin; [inversion Hin|].
  cbn [map] in Hnd. apply NoDup_cons in Hnd as [Hnew Hnd]. cbn [find].
  apply elem_of_cons in Hin as [->|Hin].
  - by rewrite bool_decide_eq_true_2.
  - rewrite bool_decide_eq_false_2; [by apply IH|].
    intros Heq. apply Hnew. rewrite Heq.
    apply list_elem_of_fmap. by exists r.
Qed.

Lemma find_path_none rows p :
  p ∉ map path_rel rows ->
  find (fun r' => bool_decide (path_rel r' = p)) rows = None.
Proof.
  induction rows as [|r' rows IH]; intros Hp; [done|].
  cbn [map] in Hp. apply not_elem_of_cons in Hp as [Hne Hp].
  cbn [find]. rewrite bool_decide_eq_false_2 by done. by apply IH.
Qed.

(** The table read back, path by path. *)
Lemma loaded_rows stamp rows include_md5 p :
  one_line stamp = true ->
  Forall (fun r => plain_row r = true) rows ->
  NoDup (map path_rel rows) ->
  load_checksums_table
    (Some (read_lines (write_checksums_md stamp rows include_md5))) !! p
  = match find (fun r => bool_decide (path_rel r = p)) rows with
    | Some r => Some (entry_of include_md5 r)
    | None => None
    end.
Proof.
  intros Hs Hplain Hnd. unfold load_checksums_table.
  rewrite (read_written _ _ _ Hs Hplain), foldl_app.
  rewrite (foldl_parse_none (md_header stamp include_md5))
    by apply parse_header.
  by rewrite (foldl_parse_rows _ _ _ _ Hplain Hnd).
Qed.

(** X21: the table that [write_checksums_md] writes reads back, with
    [load_checksums_table], as the rows it was written from: for rows
    of distinct paths whose cells hold no bar, backtick or line break,
    the entry of a path is its row's digest, MD5 if the table has the
    column, and size, and no other path has an entry. *)
Theorem table_round_trip stamp rows include_md5 :
  one_line stamp = true ->
  Forall (fun r => plain_row r = true) rows ->
  NoDup (map path_rel rows) ->
  let table :=
    load_checksums_table
      (Some (read_lines (write_checksums_md stamp rows include_md5))) in
  (forall r, r ∈ rows ->
     table !! path_rel r = Some (entry_of include_md5 r))
  /\ (forall p, p ∉ map path_rel rows -> table !! p = None).
Proof.
  intros Hs Hplain Hnd table. subst table. split.
  - intros r Hr. rewrite (loaded_rows _ _ _ _ Hs Hplain Hnd).
    by rewrite (find_path_unique _ _ Hnd Hr).
  - intros p Hp. rewrite (loaded_rows _ _ _ _ Hs Hplain Hnd).
    by rewrite (find_path_none _ _ Hp).
Qed.

End TableRoundTrip.

(** ** The checksum tool: generation, then verification *)
Section GenerateFacts.
Import Checksums Generate.

Ltac app := rewrite ?append_cons, ?append_nil_l.

(** *** Sizes *)

Lemma round_half_even_near num den :
  0 < den ->
  2 * Z.abs (round_half_even num den * den - num) <= den.
Proof.
  intros Hd. unfold round_half_even.
  pose proof (Z.div_mod num den ltac:(lia)) as Hdm.
  pose proof (Z.mod_pos_bound num den Hd) as Hr.
  destruct (Z.ltb_spec (2 * (num mod den)) den);
    [nia|].
  destruct (Z.ltb_spec den (2 * (num mod den))); [nia|].
  destruct (Z.even (num / den)); nia.
Qed.

Lemma round_half_even_nonneg num den :
  0 <= num -> 0 < den -> 0 <= round_half_even num den.
Proof.
  intros Hn Hd. unfold round_half_even.
  pose proof (Z.div_pos num den Hn Hd).
  repeat match goal with
         | |- context [if ?b then _ else _] => destruct b
         end; lia.
Qed.

Lemma float_of_nat_nonneg n : 0 <= n -> 0 <= float_of_nat n.
Proof.
  intros Hn. unfold float_of_nat.
  destruct (Z.leb_spec (Z.log2 n - 52) 0); [exact Hn|].
  assert (0 < 2 ^ (Z.log2 n - 52)) by (apply Z.pow_pos_nonneg; lia).
  pose proof (round_half_even_nonneg n (2 ^ (Z.log2 n - 52)) Hn H0).
  nia.
Qed.

Lemma float_of_nat_exact n : 0 <= n < 2 ^ 53 -> float_of_nat n = n.
Proof.
  intros [Hn Hlt]. unfold float_of_nat.
  destruct (Z.leb_spec (Z.log2 n - 52) 0) as [_|He]; [reflexivity|].
  exfalso. destruct (Z.eq_dec n 0) as [->|Hne].
  - cbn in He. lia.
  - assert (Z.log2 n < 53) by (apply Z.log2_lt_pow2; lia). lia.
Qed.

Lemma scale_spec fuel m : forall d i,
  0 < d ->
  let r := scale fuel m d i in
  0 < r.1 /\ (i <= r.2)%nat.
Proof.
  induction fuel as [|k IH]; intros d i Hd; cbn [scale].
  - cbn [fst snd]. lia.
  - destruct ((1024 * d <=? m) && (i <? length units - 1)%nat).
    + destruct (IH (1024 * d) (S i)) as [H1 H2]; [lia|].
      split; [exact H1|lia].
    + cbn [fst snd]. lia.
Qed.

Lemma all_digits_plain s : Dec.all_digits s = true -> plain s = true.
Proof.
  induction s as [|c s IH]; [done|]. cbn [Dec.all_digits plain].
  intros H. apply andb_prop in H as [Hc Hs]. rewrite (IH Hs).
  assert (Hne : forall d, Dec.is_digit d = false -> Ascii.eqb c d = false).
  { intros d Hd. destruct (Ascii.eqb_spec c d) as [->|_]; [|done].
    congruence. }
  rewrite !Hne by reflexivity. reflexivity.
Qed.

Lemma plain_app a b : plain (a +:+ b) = plain a && plain b.
Proof.
  induction a as [|c a IH]; [reflexivity|]. app. cbn [plain].
  rewrite IH. by rewrite !andb_assoc.
Qed.

Lemma decimal_plain v : 0 <= v -> plain (Calendar.decimal v) = true.
Proof.
  intros Hv. apply all_digits_plain. unfold Calendar.decimal.
  apply strip_zeros_spec. unfold Calendar.pad.
  by apply all_digits_le.
Qed.

Lemma pad_plain n v : 0 <= v -> plain (Calendar.pad n v) = true.
Proof.
  intros Hv. apply all_digits_plain. unfold Calendar.pad.
  by apply all_digits_le.
Qed.

Lemma human_bytes_plain n : 0 <= n -> plain (human_bytes n) = true.
Proof.
  intros Hn. unfold human_bytes, human_parts.
  pose proof (float_of_nat_nonneg n Hn) as Hm.
  destruct (scale (length units) (float_of_nat n) 1 0) as [d i] eqn:Hs.
  pose proof (scale_spec (length units) (float_of_nat n) 1 0 ltac:(lia))
    as [Hd _]. rewrite Hs in Hd. cbn [fst] in Hd.
  pose proof (round_half_even_nonneg (100 * float_of_nat n) d
                ltac:(lia) Hd) as Hc.
  rewrite !plain_app.
  rewrite decimal_plain by (apply Z.div_pos; lia).
  rewrite pad_plain by (apply Z.mod_pos_bound; lia).
  cbn [andb]. change (plain ".") with true. change (plain " ") with true.
  cbn [andb].
  do 5 (destruct i as [|i]; [reflexivity|]). by destruct i.
Qed.

(** X22: for a size below 2^53 bytes, [human_bytes] prints the size
    over the largest power of 1024, up to the fourth, that does not
    exceed it, rounded to the nearest hundredth, with the unit of that
    power; below 1024 bytes it prints the exact number of bytes. *)
Theorem human_bytes_value n :
  0 <= n < 2 ^ 53 ->
  exists cents i,
    human_parts n = (cents, i)
    /\ human_bytes n
       = Calendar.decimal (cents / 100) +:+ "."
           +:+ Calendar.pad 2 (cents mod 100) +:+ " "
           +:+ nth i units EmptyString
    /\ (i <= 4)%nat
    /\ (i = 0%nat \/ 1024 ^ Z.of_nat i <= n)
    /\ (i = 4%nat \/ n < 1024 ^ (Z.of_nat i + 1))
    /\ 2 * Z.abs (cents * 1024 ^ Z.of_nat i - 100 * n) <= 1024 ^ Z.of_nat i
    /\ (n < 1024 -> human_bytes n = Calendar.decimal n +:+ ".00 B").
Proof.
  intros Hn. unfold human_bytes, human_parts.
  rewrite (float_of_nat_exact n Hn). destruct Hn as [Hn Hlt].
  assert (Hcase :
    exists i, (i <= 4)%nat
      /\ scale (length units) n 1 0 = (1024 ^ Z.of_nat i, i)
      /\ (i = 0%nat \/ 1024 ^ Z.of_nat i <= n)
      /\ (i = 4%nat \/ n < 1024 ^ (Z.of_nat i + 1))).
  { cbn [scale length units Nat.sub Nat.ltb Nat.leb andb].
    destruct (Z.leb_spec (1024 * 1) n) as [H1|H1]; cbn [andb].
    2:{ exists 0%nat. repeat split; [lia|by left|right; cbn; lia]. }
    destruct (Z.leb_spec (1024 * (1024 * 1)) n) as [H2|H2]; cbn [andb].
    2:{ exists 1%nat. repeat split; [lia|right; cbn; lia|right; cbn; lia]. }
    destruct (Z.leb_spec (1024 * (1024 * (1024 * 1))) n) as [H3|H3];
      cbn [andb].
    2:{ exists 2%nat. repeat split; [lia|right; cbn; lia|right; cbn; lia]. }
    destruct (Z.leb_spec (1024 * (1024 * (1024 * (1024 * 1)))) n)
      as [H4|H4]; cbn [andb].
    2:{ exists 3%nat. repeat split; [lia|right; cbn; lia|right; cbn; lia]. }
    rewrite andb_false_r.
    exists 4%nat. repeat split; [lia|right; cbn; lia|by left]. }
  destruct Hcase as (i & Hi & -> & Hlo & Hhi).
  assert (Hd : 0 < 1024 ^ Z.of_nat i) by (apply Z.pow_pos_nonneg; lia).
  exists (round_half_even (100 * n) (1024 ^ Z.of_nat i)), i.
  split; [reflexivity|]. split; [reflexivity|]. split; [exact Hi|].
  split; [exact Hlo|]. split; [exact Hhi|].
  split; [by apply round_half_even_near|].
  intros Hsmall.
  assert (Hi0 : i = 0%nat).
  { destruct Hlo as [?|Hlo]; [done|]. destruct i; [done|].
    exfalso. rewrite Nat2Z.inj_succ, Z.pow_succ_r in Hlo by lia.
    assert (0 < 1024 ^ Z.of_nat i) by (apply Z.pow_pos_nonneg; lia).
    nia. }
  subst i. change (1024 ^ Z.of_nat 0) with 1.
  assert (Hc : round_half_even (100 * n) 1 = 100 * n).
  { unfold round_half_even. rewrite Z.mod_1_r, Z.div_1_r. reflexivity. }
  rewrite Hc.
  replace (100 * n / 100) with n by (rewrite Z.mul_comm, Z.div_mul; lia).
  replace (100 * n mod 100) with 0
    by (rewrite Z.mul_comm, Z.mod_mul; lia).
  reflexivity.
Qed.

(** *** The scan *)

Lemma batch_size_pos : (0 < batch_size)%nat.
Proof. unfold batch_size. lia. Qed.

Lemma scan_spec include_md5 files : forall rows batch manifest,
  (length batch < batch_size)%nat ->
  exists batch' manifest',
    scan include_md5 files rows batch manifest
    = (rows ++ map (row_of include_md5) files, batch', manifest')
    /\ manifest' ++ map manifest_of batch'
       = manifest ++ map manifest_of batch
           ++ map manifest_of (map (row_of include_md5) files)
    /\ (length batch' < batch_size)%nat.
Proof.
  induction files as [|p files IH]; intros rows batch manifest Hb.
  - exists batch, manifest. cbn [scan map]. rewrite !app_nil_r. done.
  - cbn [scan].
    destruct (Nat.leb_spec batch_size
                (length (batch ++ [row_of include_md5 p]))) as [Hfull|Hroom].
    + destruct (IH (rows ++ [row_of include_md5 p]) []
                  (append_manifest_jsonl (batch ++ [row_of include_md5 p])
                     manifest))
        as (batch' & manifest' & Hrun & Hman & Hlen);
        [apply batch_size_pos|].
      exists batch', manifest'. split; [|split; [|exact Hlen]].
      * rewrite Hrun. cbn [map]. by rewrite <- app_assoc.
      * rewrite Hman. unfold append_manifest_jsonl. cbn [map app].
        rewrite map_app. cbn [map]. by rewrite <- !app_assoc.
    + destruct (IH (rows ++ [row_of include_md5 p])
                  (batch ++ [row_of include_md5 p]) manifest Hroom)
        as (batch' & manifest' & Hrun & Hman & Hlen).
      exists batch', manifest'. split; [|split; [|exact Hlen]].
      * rewrite Hrun. cbn [map]. by rewrite <- app_assoc.
      * rewrite Hman, map_app. cbn [map app]. by rewrite <- !app_assoc.
Qed.

Lemma generate_spec include_md5 stamp tree :
  generate include_md5 stamp tree
  = (write_checksums_md stamp
       (sort_by path_rel (map (row_of include_md5) (scanned tree)))
       include_md5,
     map manifest_of (map (row_of include_md5) (scanned tree))).
Proof.
  unfold generate.
  destruct (scan_spec include_md5 (scanned tree) [] [] [] batch_size_pos)
    as (batch' & manifest' & -> & Hman & _).
  cbn [app map] in Hman. rewrite <- Hman. f_equal.
  destruct batch'; [cbn [map]; by rewrite app_nil_r|reflexivity].
Qed.

(** X23: generation lists every scanned file once: the manifest has
    the line of every file in the order of the scan, whatever the
    number of files and of batches, and the table is written from the
    same rows, sorted by path. *)
Theorem manifest_lists_every_file_once include_md5 stamp tree :
  let rows := map (row_of include_md5) (scanned tree) in
  (generate include_md5 stamp tree).2 = map manifest_of rows
  /\ (generate include_md5 stamp tree).1
     = write_checksums_md stamp (sort_by path_rel rows) include_md5
  /\ Sorted (key_le path_rel) (sort_by path_rel rows)
  /\ sort_by path_rel rows ≡ₚ rows.
Proof.
  intros rows. rewrite generate_spec. cbn [fst snd].
  split; [reflexivity|]. split; [reflexivity|].
  split; [apply sort_by_sorted|apply sort_by_perm].
Qed.

End GenerateFacts.

Section VerifyAfterGenerate.
Import Checksums Generate.

Lemma row_of_plain include_md5 f :
  0 <= st_size f -> plain_stat f = true ->
  plain_row (row_of include_md5 f) = true.
Proof.
  intros Hsize Hf. unfold plain_stat in Hf.
  apply andb_prop in Hf as [Hf Hm]. apply andb_prop in Hf as [Hp Hs].
  unfold plain_row, row_of.
  cbn [path_rel size_hr row_sha256 row_md5].
  rewrite Hp, Hs, (human_bytes_plain _ Hsize). cbn [andb].
  by destruct include_md5.
Qed.

(** The table of a generation, path by path. *)
Lemma generated_table include_md5 stamp tree :
  one_line stamp = true ->
  (forall f, f ∈ scanned tree -> 0 <= st_size f /\ plain_stat f = true) ->
  NoDup (map (fun f => rel (st_file f)) (scanned tree)) ->
  let table :=
    load_checksums_table
      (Some (read_lines (generate include_md5 stamp tree).1)) in
  (forall f, f ∈ scanned tree ->
     exists e, table !! rel (st_file f) = Some e
       /\ sha_of e = sha256 (st_file f))
  /\ (forall p, (forall f, f ∈ scanned tree -> rel (st_file f) <> p) ->
        table !! p = None).
Proof.
  intros Hs Hfiles Hnd table. subst table. rewrite generate_spec.
  cbn [fst].
  set (rows := sort_by path_rel (map (row_of include_md5) (scanned tree))).
  assert (Hin : forall r, r ∈ rows <->
            exists f, f ∈ scanned tree /\ r = row_of include_md5 f).
  { intros r. subst rows. rewrite elem_of_sort_by, list_elem_of_fmap.
    split; intros (f & H1 & H2); by exists f. }
  assert (Hplain : Forall (fun r => plain_row r = true) rows).
  { apply Forall_forall. intros r Hr. apply Hin in Hr as (f & Hf & ->).
    destruct (Hfiles f Hf). by apply row_of_plain. }
  assert (Hnd' : NoDup (map path_rel rows)).
  { subst rows.
    rewrite (fmap_Permutation path_rel _ _ (sort_by_perm _ _)).
    by rewrite map_map. }
  split.
  - intros f Hf. exists (entry_of include_md5 (row_of include_md5 f)).
    split; [|reflexivity].
    rewrite (loaded_rows _ _ _ _ Hs Hplain Hnd').
    change (rel (st_file f)) with (path_rel (row_of include_md5 f)).
    rewrite find_path_unique; [reflexivity|exact Hnd'|].
    apply Hin. by exists f.
  - intros p Hp. rewrite (loaded_rows _ _ _ _ Hs Hplain Hnd').
    rewrite find_path_none; [reflexivity|].
    intros Hin'. apply list_elem_of_fmap in Hin' as (r & -> & Hr).
    apply Hin in Hr as (f & Hf & ->). by apply (Hp f Hf).
Qed.

Lemma scanned_not_manifest tree f :
  f ∈ scanned tree -> rel (st_file f) <> MANIFEST_NAME.
Proof.
  unfold scanned. intros Hf.
  apply list_elem_of_filter in Hf as [_ Hf].
  by apply list_elem_of_filter in Hf as [Hf _].
Qed.

(** X24: verification right after generation succeeds.  For a
    directory without CHECKSUMS.md, with at least one file to scan,
    whose files have distinct paths and paths and digests without bar,
    backtick or line break: if the files found afterwards are the files
    that were scanned, unchanged, and the two files that were written,
    the tool exits with 0. *)
Theorem generate_then_verify include_md5 stamp tree tree' :
  one_line stamp = true ->
  scanned tree <> [] ->
  NoDup (map (fun f => rel (st_file f)) (scanned tree)) ->
  (forall f, f ∈ scanned tree ->
     0 <= st_size f /\ plain_stat f = true
     /\ rel (st_file f) <> CHECKSUMS_NAME) ->
  (forall f, f ∈ iter_files tree' ->
     f ∈ map st_file (scanned tree)
     \/ rel f = CHECKSUMS_NAME \/ rel f = MANIFEST_NAME) ->
  (verify (Some tree')
     (Some (read_lines (generate include_md5 stamp tree).1))).1 = 0.
Proof.
  intros Hs Hne Hnd Hfiles Htree'.
  destruct (generated_table include_md5 stamp tree Hs) as (Hin & Hout);
    [intros f Hf; destruct (Hfiles f Hf) as (? & ? & _); done|exact Hnd|].
  unfold verify.
  set (ref := load_checksums_table
                (Some (read_lines (generate include_md5 stamp tree).1)))
    in *.
  rewrite bool_decide_eq_false_2.
  2:{ intros Hempty. destruct (scanned tree) as [|f files] eqn:Hsc;
        [done|].
      destruct (Hin f) as (e & He & _); [left|].
      rewrite Hempty, lookup_empty in He. discriminate. }
  cbn [fst].
  assert (Hbad : bad (foldl (check ref)
                        {| ok := 0; bad := 0; missing := 0; printed := [] |}
                        (iter_files tree')) = 0%nat).
  { apply foldl_check_bad. split; [reflexivity|].
    intros f Hf (e & He & Hsha). destruct (Htree' f Hf) as [Hscan|Hnew].
    - apply list_elem_of_fmap in Hscan as (s & -> & Hs').
      destruct (Hin s Hs') as (e' & He' & Hsha'). congruence.
    - rewrite Hout in He; [discriminate|].
      intros s Hs' Heq. destruct Hnew as [Hnew|Hnew].
      + destruct (Hfiles s Hs') as (_ & _ & Hc). congruence.
      + apply (scanned_not_manifest tree s Hs'). congruence. }
  by rewrite Hbad.
Qed.

(** X25: a table that is generated again lists itself with the digest
    of the file it replaces.  If CHECKSUMS.md was among the scanned
    files and the file found afterwards has another digest, the
    verification exits with 1. *)
Theorem regenerated_table_fails_on_itself include_md5 stamp tree tree'
    old new :
  one_line stamp = true ->
  NoDup (map (fun f => rel (st_file f)) (scanned tree)) ->
  (forall f, f ∈ scanned tree -> 0 <= st_size f /\ plain_stat f = true) ->
  old ∈ scanned tree -> rel (st_file old) = CHECKSUMS_NAME ->
  new ∈ iter_files tree' -> rel new = CHECKSUMS_NAME ->
  sha256 new <> sha256 (st_file old) ->
  (verify (Some tree')
     (Some (read_lines (generate include_md5 stamp tree).1))).1 = 1.
Proof.
  intros Hs Hnd Hfiles Hold Hrel Hnew Hrel' Hsha.
  destruct (generated_table include_md5 stamp tree Hs Hfiles Hnd)
    as (Hin & _).
  unfold verify.
  set (ref := load_checksums_table
                (Some (read_lines (generate include_md5 stamp tree).1)))
    in *.
  destruct (Hin old Hold) as (e & He & Hsha').
  rewrite bool_decide_eq_false_2.
  2:{ intros Hempty. rewrite Hempty, lookup_empty in He. discriminate. }
  cbn [fst].
  destruct (bad (foldl (check ref)
                   {| ok := 0; bad := 0; missing := 0; printed := [] |}
                   (iter_files tree'))) as [|b] eqn:Hbad; [|reflexivity].
  exfalso. apply foldl_check_bad in Hbad as [_ Hbad].
  apply (Hbad new Hnew). exists e. split; [|congruence].
  rewrite Hrel', <- Hrel. exact He.
Qed.

(** *** Counting *)

Lemma check_counts ref acc f :
  let r := check ref acc f in
  (ok r + bad r + missing r = S (ok acc + bad acc + missing acc))%nat
  /\ (length (printed r) + bad acc + missing acc
      = length (printed acc) + bad r + missing r)%nat
  /\ ok r
     = (ok acc
        + if decide ((sha_of <$> (ref !! rel f)) = Some (sha256 f))
          then 1 else 0)%nat
  /\ missing r
     = (missing acc + if decide (ref !! rel f = None) then 1 else 0)%nat.
Proof.
  unfold check. destruct (ref !! rel f) as [e|] eqn:He.
  - cbn [fmap option_fmap option_map].
    destruct (String.eqb_spec (sha_of e) (sha256 f)) as [Heq|Hne];
      cbn [ok bad missing printed].
    + rewrite decide_True by congruence. rewrite decide_False by done.
      lia.
    + rewrite decide_False by congruence. rewrite decide_False by done.
      rewrite length_app. cbn [length]. lia.
  - cbn [ok bad missing printed fmap option_fmap option_map].
    rewrite decide_False by done. rewrite decide_True by done.
    rewrite length_app. cbn [length]. lia.
Qed.

Lemma foldl_check_counts ref l : forall acc,
  let r := foldl (check ref) acc l in
  (ok r + bad r + missing r
   = ok acc + bad acc + missing acc + length l)%nat
  /\ (length (printed r) + bad acc + missing acc
      = length (printed acc) + bad r + missing r)%nat
  /\ ok r
     = (ok acc
        + length
            (filter (fun f => (sha_of <$> (ref !! rel f)) = Some (sha256 f)) l))%nat
  /\ missing r
     = (missing acc + length (filter (fun f => ref !! rel f = None) l))%nat.
Proof.
  induction l as [|f l IH]; intros acc; cbn [foldl].
  - cbn. lia.
  - destruct (IH (check ref acc f)) as (H1 & H2 & H3 & H4).
    destruct (check_counts ref acc f) as (C1 & C2 & C3 & C4).
    cbv zeta. rewrite !filter_cons.
    destruct (decide ((sha_of <$> (ref !! rel f)) = Some (sha256 f)));
      destruct (decide (ref !! rel f = None)); cbn [length]; lia.
Qed.

(** X26: with a table that is not empty, verification counts every
    file under the base directory once, as matching, as differing or as
    not listed: the three counts of the summary add up to the number of
    files walked, each file that does not match is reported by one
    message before the summary, and the exit code is 0 exactly when no
    file differs. *)
Theorem verify_counts_every_file tree md :
  let ref := load_checksums_table md in
  let files := iter_files tree in
  ref <> ∅ ->
  exists o b m msgs,
    verify (Some tree) md
    = (if (b =? 0)%nat then 0 else 1, msgs ++ [Summary o b m])
    /\ (o + b + m = length files)%nat
    /\ length msgs = (b + m)%nat
    /\ o = length
             (filter (fun f => (sha_of <$> (ref !! rel f)) = Some (sha256 f))
                files)
    /\ m = length (filter (fun f => ref !! rel f = None) files).
Proof.
  intros ref files Hne. unfold verify. fold ref. fold files.
  rewrite bool_decide_eq_false_2 by exact Hne.
  destruct (foldl_check_counts ref files
              {| ok := 0; bad := 0; missing := 0; printed := [] |})
    as (H1 & H2 & H3 & H4).
  cbv zeta in H1, H2, H3, H4. cbn [ok bad missing printed length] in *.
  eexists _, _, _, _. split; [reflexivity|]. repeat split; lia.
Qed.

(** *** The walk *)

Lemma walked_spec names :
  walked names = true <->
  exists ds name,
    names = ds ++ [name]
    /\ Forall (fun d => (d ∉ SKIP_DIR_NAMES) /\ hidden d = false) ds
    /\ hidden name = false.
Proof.
  induction names as [|n rest IH].
  - split; [discriminate|]. intros (ds & name & H & _).
    by destruct ds.
  - destruct rest as [|n' rest'].
    + cbn [walked]. rewrite negb_true_iff. split.
      * intros H. exists [], n. by repeat split.
      * intros (ds & name & H & _ & Hh). destruct ds as [|d ds].
        -- cbn in H. by injection H as ->.
        -- cbn in H. injection H as _ H. by destruct ds.
    + change (walked (n :: n' :: rest'))
        with (negb (bool_decide (n ∈ SKIP_DIR_NAMES)) && negb (hidden n)
              && walked (n' :: rest')).
      rewrite !andb_true_iff, !negb_true_iff, IH. split.
      * intros [[Hskip Hhid] (ds & name & Hds & Hall & Hname)].
        exists (n :: ds), name. cbn [app]. rewrite Hds.
        split; [reflexivity|]. split; [|exact Hname].
        constructor; [|exact Hall]. split; [|exact Hhid].
        by apply bool_decide_eq_false in Hskip.
      * intros (ds & name & Hds & Hall & Hname).
        destruct ds as [|d ds]; [discriminate|].
        cbn [app] in Hds. injection Hds as <- Hds.
        apply Forall_cons in Hall as [[Hskip Hhid] Hall].
        split; [split; [by apply bool_decide_eq_false|exact Hhid]|].
        by exists ds, name.
Qed.

(** X27: the walk yields the files of the tree that are in no skipped
    or hidden directory, are not hidden and do not end in [.tmp] or
    [.part], and no other file. *)
Theorem iter_files_skips tree f :
  f ∈ iter_files tree <->
  f ∈ tree
  /\ exists ds name,
       names f = ds ++ [name]
       /\ Forall (fun d => (d ∉ SKIP_DIR_NAMES) /\ hidden d = false) ds
       /\ hidden name = false
       /\ endswith (rel f) ".tmp" = false
       /\ endswith (rel f) ".part" = false.
Proof.
  unfold iter_files. rewrite list_elem_of_filter. unfold yielded.
  rewrite andb_true_iff, negb_true_iff, walked_spec.
  cbn [existsb SKIP_FILE_SUFFIXES]. rewrite orb_false_r, orb_false_iff.
  split.
  - intros [[(ds & name & H1 & H2 & H3) [H4 H5]] Hin].
    split; [exact Hin|]. by exists ds, name.
  - intros [Hin (ds & name & H1 & H2 & H3 & H4 & H5)].
    split; [|exact Hin]. split; [by exists ds, name|done].
Qed.

End VerifyAfterGenerate.

(** ** Merging the raw files *)
Section MergeFacts.
Import Merge.
Context {Row Schema : Type} `{EqDecision Schema}.
Implicit Types (w : @writer Row) (files : list (@input Row Schema)).

Lemma concat_snoc {A} (l : list (list A)) x : concat (l ++ [x]) = concat l ++ x.
Proof. rewrite concat_app. cbn. by rewrite app_nil_r. Qed.

(** A row group that is written adds its rows, and its number of rows
    to the total. *)
Lemma write_row_group_rows max_rows tbl w w' :
  write_row_group max_rows tbl w = inr w' ->
  concat (closed w' ++ [current w'])
  = concat (closed w ++ [current w]) ++ tbl
  /\ total_rows w' = total_rows w + Z.of_nat (length tbl).
Proof.
  unfold write_row_group, slice_from.
  destruct (negb (max_rows =? 0)
            && (max_rows <? rows_in_file w + Z.of_nat (length tbl)))
    eqn:Hsplit.
  - apply andb_prop in Hsplit as [_ Hover]. apply Z.ltb_lt in Hover.
    set (need := max_rows - rows_in_file w) in *.
    destruct (Z.ltb_spec need 0) as [Hneg|Hpos]; [discriminate|].
    assert (Hlen : length (drop (Z.to_nat need) tbl)
                   = (length tbl - Z.to_nat need)%nat)
      by apply length_drop.
    assert (Htake : length (take (Z.to_nat need) tbl) = Z.to_nat need)
      by (rewrite length_take; lia).
    destruct (Z.ltb_spec 0 need) as [Hsome|Hzero];
      destruct (Z.ltb_spec 0
                  (Z.of_nat (length (drop (Z.to_nat need) tbl))))
        as [Hrest|Hrest];
      intros Hw; injection Hw as <-;
      cbn [closed current total_rows]; rewrite !concat_snoc;
      try lia.
    + rewrite <- !app_assoc, take_drop. split; [reflexivity|lia].
    + assert (Hnil : Z.to_nat need = 0%nat) by lia.
      rewrite Hnil, drop_0. split; [reflexivity|]. rewrite Hnil in Hlen.
      rewrite drop_0 in Hlen. lia.
  - intros Hw. injection Hw as <-. cbn [closed current total_rows].
    rewrite !concat_snoc, app_assoc. done.
Qed.

(** A row group that fails leaves the rows that were written. *)
Lemma write_row_group_failed max_rows tbl w e w' :
  write_row_group max_rows tbl w = inl (e, w') ->
  e = IndexError
  /\ concat (closed w' ++ [current w']) = concat (closed w ++ [current w])
  /\ max_rows < rows_in_file w.
Proof.
  unfold write_row_group, slice_from.
  destruct (negb (max_rows =? 0)
            && (max_rows <? rows_in_file w + Z.of_nat (length tbl)));
    [|discriminate].
  set (need := max_rows - rows_in_file w) in *.
  destruct (Z.ltb_spec need 0) as [Hneg|Hpos].
  - destruct (Z.ltb_spec 0 need); [lia|].
    intros Hw. injection Hw as <- <-. cbn [closed current].
    rewrite !concat_snoc. cbn. rewrite app_nil_r.
    split; [reflexivity|]. split; [reflexivity|]. subst need. lia.
  - by destruct (0 <? Z.of_nat (length (drop (Z.to_nat need) tbl))).
Qed.

Lemma write_row_groups_rows max_rows rgs : forall w w',
  write_row_groups max_rows rgs w = inr w' ->
  concat (closed w' ++ [current w'])
  = concat (closed w ++ [current w]) ++ concat rgs
  /\ total_rows w' = total_rows w + Z.of_nat (length (concat rgs)).
Proof.
  induction rgs as [|tbl rgs IH]; intros w w' Hw.
  - injection Hw as <-. cbn [concat length]. rewrite app_nil_r.
    split; [reflexivity|lia].
  - cbn [write_row_groups] in Hw.
    destruct (write_row_group max_rows tbl w) as [f|w1] eqn:H1;
      [discriminate|].
    destruct (write_row_group_rows _ _ _ _ H1) as [R1 T1].
    destruct (IH _ _ Hw) as [R2 T2].
    cbn [concat]. rewrite R2, R1, T2, T1, length_app, <- app_assoc.
    split; [reflexivity|lia].
Qed.

Lemma merge_files_rows max_rows schema files : forall w w',
  merge_files max_rows schema files w = inr w' ->
  concat (closed w' ++ [current w'])
  = concat (closed w ++ [current w]) ++ rows_of files
  /\ total_rows w' = total_rows w + Z.of_nat (length (rows_of files))
  /\ (forall s rgs, Table s rgs ∈ files -> s = schema)
  /\ (Invalid ∉ files).
Proof.
  induction files as [|p files IH]; intros w w' Hw.
  - injection Hw as <-. unfold rows_of. cbn. rewrite app_nil_r.
    split; [done|]. split; [lia|]. split.
    + intros s rgs Hin. inversion Hin.
    + intros Hin. inversion Hin.
  - cbn [merge_files] in Hw.
    destruct (merge_file max_rows schema p w) as [f|w1] eqn:H1;
      [discriminate|].
    destruct (IH _ _ Hw) as (R2 & T2 & S2 & I2).
    assert (Hp : concat (closed w1 ++ [current w1])
                 = concat (closed w ++ [current w]) ++ rows_of [p]
                 /\ total_rows w1
                    = total_rows w + Z.of_nat (length (rows_of [p]))
                 /\ (forall s rgs, p = Table s rgs -> s = schema)
                 /\ p <> Invalid).
    { destruct p as [| |s rgs]; cbn [merge_file] in H1.
      - injection H1 as <-. unfold rows_of. cbn. rewrite app_nil_r.
        split; [done|]. split; [lia|]. by split.
      - discriminate.
      - destruct (decide (s = schema)) as [->|]; [|discriminate].
        destruct (write_row_groups_rows _ _ _ _ H1) as [R1 T1].
        unfold rows_of. cbn [flat_map]. rewrite app_nil_r.
        split; [exact R1|]. split; [exact T1|]. split; [|done].
        intros s' rgs' Heq. by injection Heq as -> _. }
    destruct Hp as (R1 & T1 & S1 & I1).
    assert (Hrows : rows_of (p :: files) = rows_of [p] ++ rows_of files).
    { unfold rows_of. cbn [flat_map]. rewrite app_nil_r.
      by rewrite concat_app. }
    rewrite Hrows, R2, R1, T2, T1, length_app, <- app_assoc.
    split; [reflexivity|]. split; [lia|]. split.
    + intros s rgs Hin. apply elem_of_cons in Hin as [Heq|Hin].
      * by apply (S1 s rgs).
      * by apply (S2 s rgs).
    + intros Hin. apply elem_of_cons in Hin as [Heq|Hin]; [by subst|done].
Qed.

Lemma merge_files_single_file schema files : forall w w',
  merge_files 0 schema files w = inr w' -> closed w' = closed w.
Proof.
  induction files as [|p files IH]; intros w w' Hw.
  - by injection Hw as <-.
  - cbn [merge_files] in Hw.
    destruct (merge_file 0 schema p w) as [f|w1] eqn:H1; [discriminate|].
    rewrite (IH _ _ Hw). clear IH Hw.
    destruct p as [| |s rgs]; cbn [merge_file] in H1.
    + by injection H1 as <-.
    + discriminate.
    + destruct (decide (s = schema)); [|discriminate].
      revert w w1 H1. induction rgs as [|tbl rgs IH]; intros w w1 H1.
      * by injection H1 as <-.
      * cbn [write_row_groups] in H1.
        unfold write_row_group in H1. cbn [Z.eqb negb andb] in H1.
        by rewrite (IH _ _ H1).
Qed.

(** X28: a merge that ends normally keeps every row: the output files,
    in order, hold the rows of the row groups of the input tables in
    the order of the inputs, the total that is printed is their number,
    no input was an invalid Parquet file and every input table has the
    schema of the first; without a row limit there is one output
    file. *)
Theorem merge_preserves_rows max_rows files outs total :
  main max_rows files = Merged outs total ->
  concat outs = rows_of files
  /\ total = Z.of_nat (length (rows_of files))
  /\ (exists schema rgs,
        head files = Some (Table schema rgs)
        /\ forall s rgs', Table s rgs' ∈ files -> s = schema)
  /\ (Invalid ∉ files)
  /\ (max_rows = 0 -> length outs = 1%nat).
Proof.
  unfold main. destruct files as [|[| |schema rgs] files']; try discriminate.
  set (files := Table schema rgs :: files').
  set (w0 := {| closed := []; current := []; rows_in_file := 0;
                total_rows := 0 |}).
  destruct (merge_files max_rows schema files w0) as [[e w]|w] eqn:Hrun;
    [discriminate|].
  intros Hout. injection Hout as <- <-.
  destruct (merge_files_rows _ _ _ _ _ Hrun) as (R & T & S & I).
  split; [exact R|]. split; [exact T|]. split; [by exists schema, rgs|].
  split; [exact I|]. intros ->.
  rewrite (merge_files_single_file _ _ _ _ Hrun). reflexivity.
Qed.

(** *** File sizes *)

Lemma write_row_group_sizes max_rows tbl w :
  0 < max_rows -> Z.of_nat (length tbl) <= max_rows ->
  rows_in_file w = Z.of_nat (length (current w)) ->
  rows_in_file w <= max_rows ->
  Forall (fun f => Z.of_nat (length f) = max_rows) (closed w) ->
  exists w',
    write_row_group max_rows tbl w = inr w'
    /\ rows_in_file w' = Z.of_nat (length (current w'))
    /\ rows_in_file w' <= max_rows
    /\ Forall (fun f => Z.of_nat (length f) = max_rows) (closed w').
Proof.
  intros Hmax Htbl Hrif Hle Hclosed.
  unfold write_row_group, slice_from.
  destruct (Z.eqb_spec max_rows 0) as [?|_]; [lia|]. cbn [negb andb].
  destruct (Z.ltb_spec max_rows (rows_in_file w + Z.of_nat (length tbl)))
    as [Hover|Hfits].
  - set (need := max_rows - rows_in_file w) in *.
    destruct (Z.ltb_spec need 0) as [Hneg|Hpos]; [lia|].
    assert (Hlen : length (drop (Z.to_nat need) tbl)
                   = (length tbl - Z.to_nat need)%nat)
      by apply length_drop.
    assert (Htake : length (take (Z.to_nat need) tbl) = Z.to_nat need)
      by (rewrite length_take; lia).
    destruct (Z.ltb_spec 0
                (Z.of_nat (length (drop (Z.to_nat need) tbl))))
      as [Hrest|Hrest]; [|lia].
    eexists. split; [reflexivity|].
    cbn [rows_in_file current closed].
    split; [reflexivity|]. split; [lia|].
    apply Forall_app. split.
    + by destruct (0 <? need).
    + constructor; [|constructor].
      destruct (Z.ltb_spec 0 need); cbn [current].
      * rewrite length_app. lia.
      * lia.
  - eexists. split; [reflexivity|].
    cbn [rows_in_file current closed]. rewrite length_app.
    split; [lia|]. split; [lia|exact Hclosed].
Qed.

Lemma write_row_groups_sizes max_rows rgs : forall w,
  0 < max_rows ->
  (forall tbl, tbl ∈ rgs -> Z.of_nat (length tbl) <= max_rows) ->
  rows_in_file w = Z.of_nat (length (current w)) ->
  rows_in_file w <= max_rows ->
  Forall (fun f => Z.of_nat (length f) = max_rows) (closed w) ->
  exists w',
    write_row_groups max_rows rgs w = inr w'
    /\ rows_in_file w' = Z.of_nat (length (current w'))
    /\ rows_in_file w' <= max_rows
    /\ Forall (fun f => Z.of_nat (length f) = max_rows) (closed w').
Proof.
  induction rgs as [|tbl rgs IH]; intros w Hmax Hall H1 H2 H3.
  - exists w. by repeat split.
  - cbn [write_row_groups].
    destruct (write_row_group_sizes max_rows tbl w Hmax) as
      (w1 & -> & A1 & A2 & A3); try assumption; [apply Hall; left|].
    apply IH; try assumption. intros t Ht. apply Hall. by right.
Qed.

Lemma merge_files_sizes max_rows schema files : forall w,
  0 < max_rows -> groups_within max_rows files ->
  rows_in_file w = Z.of_nat (length (current w)) ->
  rows_in_file w <= max_rows ->
  Forall (fun f => Z.of_nat (length f) = max_rows) (closed w) ->
  match merge_files max_rows schema files w with
  | inl (e, _) => e <> IndexError
  | inr w' =>
      Z.of_nat (length (current w')) <= max_rows
      /\ Forall (fun f => Z.of_nat (length f) = max_rows) (closed w')
  end.
Proof.
  induction files as [|p files IH]; intros w Hmax Hall H1 H2 H3.
  - cbn [merge_files]. split; [lia|exact H3].
  - cbn [merge_files].
    assert (Hrest : groups_within max_rows files).
    { intros s rgs tbl Hin. apply (Hall s rgs tbl). by right. }
    destruct p as [| |s rgs]; cbn [merge_file].
    + by apply IH.
    + discriminate.
    + destruct (decide (s = schema)); [|discriminate].
      destruct (write_row_groups_sizes max_rows rgs w Hmax)
        as (w1 & -> & A1 & A2 & A3); try assumption.
      { intros tbl Ht. apply (Hall s rgs tbl); [left|exact Ht]. }
      by apply IH.
Qed.

(** X29: with a row limit that no row group of the inputs exceeds, the
    merge never fails on a slice, and when it ends normally every
    output file but the last holds exactly the limit and the last holds
    at most the limit. *)
Theorem merge_file_sizes max_rows files :
  0 < max_rows -> groups_within max_rows files ->
  (forall outs, main max_rows files <> Crashed IndexError outs)
  /\ forall outs total,
       main max_rows files = Merged outs total ->
       exists full last,
         outs = full ++ [last]
         /\ Forall (fun f => Z.of_nat (length f) = max_rows) full
         /\ Z.of_nat (length last) <= max_rows.
Proof.
  intros Hmax Hall. unfold main.
  destruct files as [|[| |schema rgs] files']; try (split; discriminate).
  set (files := Table schema rgs :: files') in *.
  set (w0 := {| closed := []; current := []; rows_in_file := 0;
                total_rows := 0 |}).
  pose proof (merge_files_sizes max_rows schema files w0 Hmax Hall
                eq_refl ltac:(cbn; lia) ltac:(constructor)) as Hs.
  destruct (merge_files max_rows schema files w0) as [[e w]|w].
  - split; [|discriminate]. intros outs Hc. by injection Hc as -> _.
  - split; [discriminate|]. intros outs total Hm. injection Hm as <- <-.
    destruct Hs as [Hlast Hfull]. by exists (closed w), (current w).
Qed.

(** *** Skipped files and mismatches *)

Lemma merge_files_app max_rows (schema : Schema)
    (a b : list (@input Row Schema)) w :
  merge_files max_rows schema (a ++ b) w
  = match merge_files max_rows schema a w with
    | inl failed => inl failed
    | inr w' => merge_files max_rows schema b w'
    end.
Proof.
  revert w. induction a as [|p a IH]; intros w; [reflexivity|].
  cbn [app merge_files].
  destruct (merge_file max_rows schema p w); [reflexivity|apply IH].
Qed.

(** X30: an input that cannot be read stops the merge when it is the
    first, before any output, and is skipped otherwise; an input table
    of another schema than the first stops the merge, and the output
    files keep what was written before it. *)
Theorem merge_skips_and_stops max_rows schema rgs
    (a b : list (@input Row Schema)) :
  (main max_rows (Unreadable :: b) = Crashed HandleError []
   /\ main max_rows (Invalid :: b) = Crashed ParquetError [])
  /\ main max_rows (Table schema rgs :: a ++ Unreadable :: b)
     = main max_rows (Table schema rgs :: a ++ b)
  /\ forall s rgs' outs total,
       s <> schema ->
       main max_rows (Table schema rgs :: a) = Merged outs total ->
       main max_rows (Table schema rgs :: a ++ Table s rgs' :: b)
       = Crashed SchemaMismatch outs.
Proof.
  split; [by split|]. split.
  - unfold main.
    rewrite !(app_comm_cons a), !merge_files_app.
    destruct (merge_files max_rows schema (Table schema rgs :: a) _)
      as [[e w]|w]; reflexivity.
  - intros s rgs' outs total Hs. unfold main.
    rewrite (app_comm_cons a), merge_files_app.
    destruct (merge_files max_rows schema (Table schema rgs :: a) _)
      as [[e w]|w]; [discriminate|].
    intros Hm. injection Hm as <- <-.
    cbn [merge_files merge_file]. by rewrite decide_False.
Qed.

End MergeFacts.

(** ** The graph properties on the sample dataset *)
Section OnGraphSample.
Import GNN.

Lemma sample_in_range : in_range Sample.edges.
Proof.
  intros e He. apply list_elem_of_In in He.
  destruct He as [<-|[<-|[]]]; vm_compute; split; congruence.
Qed.

Lemma sample_joinable g :
  exists m, meta_of g Sample.indexed = Some m /\ joinable m.
Proof.
  destruct g; eexists; (split; [reflexivity|]);
    (split; [by left|]); apply (bool_decide_unpack _); vm_compute; exact I.
Qed.


Lemma targets_complete_witness :
  ("2021-W13", 8)
    ∈ table (targets_of Week
               (enrich_meta_and_build_targets Sample.indexed).2).
Proof.
  apply (targets_complete Sample.indexed
           (enrich_meta_and_build_targets Sample.indexed).2 Week
           {| more_columns := []; rows := Sample.week_rows |}
           Sample.labels Sample.edges
           {| window := "2021-W13"; window_min_ts := 1617148800;
              window_end_ts := 1617235200; edges_cnt := 2; more := [] |} 8).
  - vm_compute. reflexivity.
  - reflexivity.
  - reflexivity.
  - reflexivity.
  - left.
  - exists (Sample.edge 7 8 1617148800). split; [left|].
    split; [vm_compute; split; congruence|right; reflexivity].
  - eexists. split; [left|reflexivity].
Defined.

Lemma nodes_cnt_counts_participants_witness :
  exists fs' mt',
    enrich_meta_and_build_targets Sample.indexed = (Returned tt, fs')
    /\ meta_of Week fs' = Some mt'
    /\ length (rows mt') = 1%nat.
Proof.
  destruct (nodes_cnt_counts_participants Sample.indexed Sample.labels
              Sample.edges Week
              {| more_columns := []; rows := Sample.week_rows |})
    as (fs' & mt' & Hrun & Hm & Hrows).
  - reflexivity.
  - reflexivity.
  - apply sample_joinable.
  - reflexivity.
  - exists fs', mt'. split; [exact Hrun|]. split; [exact Hm|].
    apply Forall2_length in Hrows. rewrite <- Hrows. reflexivity.
Defined.

Lemma enrich_refuses_third_join_witness :
  exists fs',
    enrich_meta_and_build_targets Sample.enriched_twice
    = (Raised (DuplicateError "nodes_cnt_right"), fs')
    /\ week_targets fs' = week_targets Sample.enriched_twice.
Proof.
  destruct (enrich_refuses_third_join Sample.enriched_twice Sample.labels
              Sample.edges
              (default {| more_columns := []; rows := [] |}
                 (month_meta Sample.enriched_twice)))
    as (fs' & Hrun & _ & _ & _ & Hw).
  - reflexivity.
  - reflexivity.
  - vm_compute. reflexivity.
  - vm_compute. discriminate.
  - vm_compute. reflexivity.
  - exists fs'. split; [exact Hrun|exact Hw].
Defined.

Lemma enrich_stops_at_missing_week_index_witness :
  exists fs',
    enrich_meta_and_build_targets Sample.month_indexed
    = (Raised (FileNotFoundError (meta_fp Week)), fs')
    /\ table (month_targets fs')
       = targets_batch [8] Sample.edges Sample.month_rows.
Proof.
  destruct (enrich_stops_at_missing_week_index Sample.month_indexed
              Sample.labels Sample.edges
              {| more_columns := []; rows := Sample.month_rows |})
    as (fs' & Hrun & Ht & _).
  - reflexivity.
  - reflexivity.
  - reflexivity.
  - split; [by left|]. apply (bool_decide_unpack _). vm_compute. exact I.
  - reflexivity.
  - exists fs'. split; [exact Hrun|exact Ht].
Defined.

Lemma export_only_adds_witness :
  extends Sample.indexed (export_windows Sample.indexed).2.
Proof.
  apply (export_only_adds Sample.indexed (Returned tt)).
  vm_compute. reflexivity.
Defined.

Lemma export_partition_content_witness :
  exists fs',
    export_windows Sample.indexed = (Returned tt, fs')
    /\ edges_by_week fs' !! "2021-W13" = Some Sample.edges.
Proof.
  destruct (export_partition_content Sample.indexed
              {| more_columns := []; rows := Sample.month_rows |}
              {| more_columns := []; rows := Sample.week_rows |}
              Sample.edges) as (fs' & Hrun & Hall).
  - reflexivity.
  - reflexivity.
  - reflexivity.
  - exists fs'. split; [exact Hrun|].
    destruct (Hall Week {| more_columns := []; rows := Sample.week_rows |})
      as (Hnew & _).
    + reflexivity.
    + apply (bool_decide_unpack _). vm_compute. exact I.
    + apply (Hnew {| window := "2021-W13"; window_min_ts := 1617148800;
                     window_end_ts := 1617235200; edges_cnt := 2;
                     more := [] |}); [left|reflexivity].
Defined.

Lemma export_partitions_edge_table_witness :
  (forall e, e ∈ Sample.edges ->
     parts_of Month (export_windows Sample.indexed).2
       !! label_of_ts Month (ts e)
     = Some (filter
               (fun e' =>
                  label_of_ts Month (ts e') = label_of_ts Month (ts e))
               Sample.edges))
  /\ (forall l t,
        parts_of Month (export_windows Sample.indexed).2 !! l = Some t ->
        exists e, e ∈ Sample.edges /\ l = label_of_ts Month (ts e)).
Proof.
  apply (export_partitions_edge_table Sample.indexed
           (export_windows Sample.indexed).2 Month
           {| more_columns := []; rows := Sample.month_rows |}
           Sample.edges).
  - vm_compute. reflexivity.
  - reflexivity.
  - apply sample_in_range.
  - reflexivity.
  - vm_compute. reflexivity.
  - reflexivity.
Defined.

Lemma main_builds_dataset_witness :
  exists fs' tg,
    Pipeline.main Sample.toy_hash (Sample.raw, false)
    = (Returned tt, (fs', true))
    /\ targets_global fs' = Some tg /\ NoDup (map node_id tg).
Proof.
  destruct (main_builds_dataset Sample.toy_hash Sample.raw false
              Sample.csv_labels)
    as (fs' & tg & Hrun & _ & _ & Htg & Hnd & _).
  - reflexivity.
  - discriminate.
  - exists fs', tg. split; [exact Hrun|]. split; [exact Htg|exact Hnd].
Defined.

Lemma main_targets_are_labelled_participants_witness :
  exists fs',
    Pipeline.main Sample.toy_hash (Sample.raw, false)
    = (Returned tt, (fs', true))
    /\ NoDup (table (targets_of Week fs')).
Proof.
  destruct (main_targets_are_labelled_participants Sample.toy_hash
              Sample.raw false Sample.csv_labels Week)
    as (fs' & Hrun & Hnd & _).
  - reflexivity.
  - discriminate.
  - reflexivity.
  - intros e He. apply list_elem_of_In in He.
    destruct He as [<-|[<-|[]]]; vm_compute; split; congruence.
  - exists fs'. split; [exact Hrun|exact Hnd].
Defined.

End OnGraphSample.

(** ** The roll-up properties on the sample dataset *)
Section OnRollupSample.
Import LSTM.

Lemma prepare_daily_inner_join_witness :
  prepare_daily Sample.indexed Sample.daily_source
  = (Returned tt,
     write_daily
       (Parts.labelled_daily [("0xB", 8)]
          (concat (src_daily Sample.daily_source)))
       Sample.daily_source)
  /\ length
       (Parts.labelled_daily [("0xB", 8)]
          (concat (src_daily Sample.daily_source)))
     = 2%nat.
Proof.
  destruct (prepare_daily_inner_join Sample.indexed Sample.daily_source
              Sample.labels [("0xB", 8)]) as (Hrun & _ & Hlen).
  - reflexivity.
  - reflexivity.
  - discriminate.
  - split; [exact Hrun|]. rewrite Hlen. vm_compute. reflexivity.
Defined.

Lemma main_rerun_is_stable_witness :
  main Sample.indexed (main Sample.indexed Sample.daily_source).2
  = (Returned tt, (main Sample.indexed Sample.daily_source).2).
Proof.
  apply (main_rerun_is_stable Sample.indexed Sample.daily_source).
  vm_compute. reflexivity.
Defined.

Lemma parts_never_rewritten_witness :
  tmp_week_parts Sample.daily_source
    ⊆ tmp_week_parts (main Sample.indexed Sample.daily_source).2
  /\ tmp_month_parts Sample.daily_source
       ⊆ tmp_month_parts (main Sample.indexed Sample.daily_source).2
  /\ src_daily (main Sample.indexed Sample.daily_source).2
     = src_daily Sample.daily_source.
Proof.
  apply (parts_never_rewritten Sample.indexed Sample.daily_source
           (main Sample.indexed Sample.daily_source).1).
  by destruct (main Sample.indexed Sample.daily_source).
Defined.

Lemma missing_week_index_after_daily_witness :
  exists fs',
    main Sample.month_indexed Sample.daily_source
    = (Raised (FileNotFoundError WEEK_META), fs')
    /\ (length <$> daily_out fs') = Some 2%nat
    /\ weekly_out fs' = None.
Proof.
  eexists. split.
  - apply (missing_week_index_after_daily Sample.month_indexed
             Sample.daily_source Sample.labels [("0xB", 8)]).
    + reflexivity.
    + reflexivity.
    + discriminate.
    + reflexivity.
  - split; [vm_compute; reflexivity|reflexivity].
Defined.


End OnRollupSample.

(** ** The checksum properties on the sample directory *)
Section OnChecksumSample.
Import Checksums Generate.

Lemma sample_scanned :
  scanned Sample.scan_tree
  = [Sample.scan_stat ["a"; "b.parquet"] "abc" 1536;
     Sample.scan_stat ["c.md"] "ff" 2].
Proof. vm_compute. reflexivity. Qed.

Lemma sample_scanned_plain f :
  f ∈ scanned Sample.rescan_tree ->
  0 <= st_size f /\ plain_stat f = true.
Proof.
  intros Hf. apply list_elem_of_In in Hf. vm_compute in Hf.
  destruct Hf as [<-|[<-|[<-|[]]]]; vm_compute; split; congruence.
Qed.

Lemma table_round_trip_witness :
  load_checksums_table
    (Some (read_lines
             (write_checksums_md Sample.stamp Sample.table_rows true)))
    !! "a/b.parquet"
  = Some ("abc", Some "d41d8cd9", "1.50 KB").
Proof.
  destruct (table_round_trip Sample.stamp Sample.table_rows true)
    as (Hin & _).
  - reflexivity.
  - apply Forall_forall. intros r Hr. apply list_elem_of_In in Hr.
    vm_compute in Hr. destruct Hr as [<-|[<-|[]]]; reflexivity.
  - apply (bool_decide_unpack _). vm_compute. exact I.
  - etrans.
    + apply (Hin (row_of true
                    (Sample.scan_stat ["a"; "b.parquet"] "abc" 1536))).
      apply list_elem_of_In. vm_compute. by left.
    + vm_compute. reflexivity.
Defined.

Lemma human_bytes_value_witness :
  human_bytes 1000 = Calendar.decimal 1000 +:+ ".00 B".
Proof.
  destruct (human_bytes_value 1000) as (c & i & _ & _ & _ & _ & _ & _ & H).
  - split; [lia|reflexivity].
  - apply H. lia.
Defined.

Lemma generate_then_verify_witness :
  (verify (Some Sample.generated_tree)
     (Some (read_lines (generate false Sample.stamp Sample.scan_tree).1))).1
  = 0.
Proof.
  apply (generate_then_verify false Sample.stamp Sample.scan_tree
           Sample.generated_tree).
  - reflexivity.
  - rewrite sample_scanned. discriminate.
  - apply (bool_decide_unpack _). vm_compute. exact I.
  - intros f Hf. apply list_elem_of_In in Hf. vm_compute in Hf.
    destruct Hf as [<-|[<-|[]]]; vm_compute; repeat split; congruence.
  - intros f Hf. apply list_elem_of_In in Hf. vm_compute in Hf.
    destruct Hf as [<-|[<-|[<-|[<-|[]]]]].
    + left. apply list_elem_of_In. vm_compute. by left.
    + left. apply list_elem_of_In. vm_compute. right. by left.
    + right. left. reflexivity.
    + right. right. reflexivity.
Defined.

Lemma regenerated_table_fails_on_itself_witness :
  (verify (Some Sample.generated_tree)
     (Some (read_lines (generate false Sample.stamp Sample.rescan_tree).1))).1
  = 1.
Proof.
  apply (regenerated_table_fails_on_itself false Sample.stamp
           Sample.rescan_tree Sample.generated_tree Sample.old_table
           {| names := ["CHECKSUMS.md"]; sha256 := "77" |}).
  - reflexivity.
  - apply (bool_decide_unpack _). vm_compute. exact I.
  - apply sample_scanned_plain.
  - apply list_elem_of_In. vm_compute. by left.
  - reflexivity.
  - apply list_elem_of_In. vm_compute. right. right. by left.
  - reflexivity.
  - vm_compute. congruence.
Defined.

Lemma verify_counts_every_file_witness :
  exists o b m msgs,
    verify (Some Sample.changed_tree) (Some Sample.checksums_table)
    = (if (b =? 0)%nat then 0 else 1, msgs ++ [Summary o b m])
    /\ (o + b + m = 3)%nat.
Proof.
  destruct (verify_counts_every_file Sample.changed_tree
              (Some Sample.checksums_table))
    as (o & b & m & msgs & Hrun & Hsum & _).
  - intros Hempty.
    assert (Hc : load_checksums_table (Some Sample.checksums_table)
                   !! "c.md" = None)
      by (rewrite Hempty; apply lookup_empty).
    vm_compute in Hc. discriminate.
  - exists o, b, m, msgs. split; [exact Hrun|exact Hsum].
Defined.

End OnChecksumSample.

(** ** The merge on sample inputs *)
Section OnMergeSample.
Import Merge.

Lemma merge_preserves_rows_witness :
  concat [[1; 2; 3]; [4; 5]] = rows_of Sample.merge_inputs
  /\ 5 = Z.of_nat (length (rows_of Sample.merge_inputs)).
Proof.
  destruct (merge_preserves_rows 3 Sample.merge_inputs
              [[1; 2; 3]; [4; 5]] 5) as (Hrows & Htotal & _).
  - reflexivity.
  - split; [exact Hrows|exact Htotal].
Defined.

Lemma merge_file_sizes_witness :
  exists full last,
    [[1; 2; 3]; [4; 5]] = full ++ [last]
    /\ Forall (fun f : list Z => Z.of_nat (length f) = 3) full
    /\ Z.of_nat (length last) <= 3.
Proof.
  destruct (merge_file_sizes 3 Sample.merge_inputs) as (_ & Hsizes).
  - lia.
  - intros s rgs tbl H1 H2. apply list_elem_of_In in H1, H2.
    cbn in H1. destruct H1 as [H1|[H1|[H1|[]]]]; try discriminate;
      injection H1 as <- <-; cbn in H2.
    + destruct H2 as [<-|[<-|[]]]; cbn; lia.
    + destruct H2 as [<-|[]]; cbn; lia.
  - apply (Hsizes [[1; 2; 3]; [4; 5]] 5). reflexivity.
Defined.

End OnMergeSample.
